(** * read_bayesnet.py: a .bif reader built on regular expressions

    A shallow embedding of [read_bayesnet.py] and the properties of its
    parsing pipeline.

    Conventions of the model.
    - A Python [str] is a [string]; each character stands for the code point
      with the same number (0 to 255).
    - A Python [float] is a binary64 value, [spec_float] with [prec = 53] and
      [emax = 1024] (NaN carries no sign or payload).
    - A raised exception is the [Raise] case of [result]; a function that
      cannot raise returns its value directly.
    - [Path(file).read_text()] is outside the model: construction takes the
      contents of the file. *)

From Stdlib Require Import ZArith String Ascii List Bool Lia Sorted.
From Stdlib Require Import Floats.SpecFloat.
From stdpp Require Import base option list strings gmap.

Local Open Scope string_scope.

(** ** Python strings *)

Module Str.

Definition code (c : ascii) : N := N_of_ascii c.

(** [c in chars] for a character [c]. *)
Fixpoint mem (c : ascii) (chars : string) : bool :=
  match chars with
  | EmptyString => false
  | String d rest => if Ascii.eqb c d then true else mem c rest
  end.

Definition between (lo hi c : ascii) : bool :=
  ((code lo <=? code c) && (code c <=? code hi))%N.

(** [str.isspace] on one character: the code points below 256 that Python
    counts as whitespace. *)
Definition isspace (c : ascii) : bool :=
  between "009" "013" c || between "028" "032" c
  || Ascii.eqb c "133" || Ascii.eqb c "160".

Fixpoint lstrip (s : string) : string :=
  match s with
  | EmptyString => EmptyString
  | String c rest => if isspace c then lstrip rest else s
  end.

Fixpoint rstrip (s : string) : string :=
  match s with
  | EmptyString => EmptyString
  | String c rest =>
      match rstrip rest with
      | EmptyString => if isspace c then EmptyString else String c EmptyString
      | r => String c r
      end
  end.

(** [s.strip()] *)
Definition strip (s : string) : string := rstrip (lstrip s).

(** Every character of [s] is a blank. *)
Fixpoint all_space (s : string) : bool :=
  match s with
  | EmptyString => true
  | String c rest => isspace c && all_space rest
  end.

(** [s.split(sep)] for a one-character separator: never an empty list. *)
Fixpoint split (sep : ascii) (s : string) : list string :=
  match s with
  | EmptyString => [EmptyString]
  | String c rest =>
      if Ascii.eqb c sep then EmptyString :: split sep rest
      else match split sep rest with
           | [] => [String c EmptyString]
           | w :: ws => String c w :: ws
           end
  end.

(** [sep.join(parts)] *)
Fixpoint join (sep : string) (parts : list string) : string :=
  match parts with
  | [] => EmptyString
  | [p] => p
  | p :: ps => p ++ sep ++ join sep ps
  end.

(** The first [n] characters of [s]. *)
Fixpoint take (n : nat) (s : string) : string :=
  match n, s with
  | S n', String c rest => String c (take n' rest)
  | _, _ => EmptyString
  end.


(** [n] spaces. *)
Fixpoint spaces (n : nat) : string :=
  match n with
  | O => EmptyString
  | S n' => String " " (spaces n')
  end.

Definition hex_digit (n : N) : ascii :=
  ascii_of_N (if (n <? 10)%N then 48 + n else 87 + n).

Definition dquote : ascii := "034".
Definition squote : ascii := "039".
Definition backslash : ascii := "092".

(** Printable in the sense of [str.isprintable], below 256. *)
Definition isprintable (c : ascii) : bool :=
  between " " "~" c || (between "161" "255" c && negb (Ascii.eqb c "173")).

Fixpoint repr_body (quote : ascii) (s : string) : string :=
  match s with
  | EmptyString => EmptyString
  | String c rest =>
      (if Ascii.eqb c quote || Ascii.eqb c backslash
       then String backslash (String c EmptyString)
       else if Ascii.eqb c "009" then String backslash "t"
       else if Ascii.eqb c "010" then String backslash "n"
       else if Ascii.eqb c "013" then String backslash "r"
       else if isprintable c then String c EmptyString
       else String backslash
              (String "x" (String (hex_digit (code c / 16))
                             (String (hex_digit (code c mod 16)) EmptyString))))
      ++ repr_body quote rest
  end.

(** [repr(s)] for a string: single quotes unless the string has a single
    quote and no double quote. *)
Definition repr (s : string) : string :=
  let quote := if mem squote s && negb (mem dquote s) then dquote else squote in
  String quote (repr_body quote s ++ String quote EmptyString).

(** [str(t)] for a tuple of strings. *)
Definition tuple_repr (t : list string) : string :=
  match t with
  | [x] => "(" ++ repr x ++ ",)"
  | _ => "(" ++ join ", " (map repr t) ++ ")"
  end.

End Str.

(** ** Regular expressions: the backtracking matcher of [re]

    Only the constructs the five patterns use.  None of the patterns has an
    anchor, so the [re.M] flag changes nothing. *)

Module Re.

Inductive regex : Type :=
| Eps
| Chr (set : ascii -> bool)      (* one character of a set; a literal is a singleton *)
| Seq (r1 r2 : regex)
| Alt (r1 r2 : regex)            (* r1|r2, r1 tried first *)
| Star (r : regex)               (* greedy r* *)
| Group (n : nat) (r : regex).   (* capturing group number n *)

Definition lit (c : ascii) : regex := Chr (Ascii.eqb c).
Definition none_of (chars : string) : regex := Chr (fun c => negb (Str.mem c chars)).
Definition plus (r : regex) : regex := Seq r (Star r).
Definition opt (r : regex) : regex := Alt r Eps.
Definition seq_of (rs : list regex) : regex := fold_right Seq Eps rs.

Fixpoint str (s : string) : regex :=
  match s with
  | EmptyString => Eps
  | String c rest => Seq (lit c) (str rest)
  end.

(** The text of the groups that took part in the match, latest first. *)
Definition captures := list (nat * string).

Fixpoint capture (c : captures) (n : nat) : option string :=
  match c with
  | [] => None
  | (i, text) :: rest => if Nat.eqb i n then Some text else capture rest n
  end.

(** The rounds of a greedy repetition whose body is matched by [body]: one
    more round is tried before stopping.  A round that takes no character is
    refused; [fuel] bounds the number of rounds and is the length of the string
    where the repetition starts, which no sequence of such rounds exceeds. *)
Fixpoint star_rounds {A : Type}
    (body : string -> captures -> (string -> captures -> option A) -> option A)
    (k : string -> captures -> option A)
    (fuel : nat) (s : string) (c : captures) {struct fuel} : option A :=
  match fuel with
  | O => k s c
  | S fuel' =>
      match body s c
              (fun s1 c1 =>
                 if Nat.ltb (String.length s1) (String.length s)
                 then star_rounds body k fuel' s1 c1 else None) with
      | Some x => Some x
      | None => k s c
      end
  end.

(** [backtrack r s c k]: match [r] at the start of [s] with the groups [c] set
    so far, and hand what is left of [s] to the continuation [k]; when [k]
    refuses, try the next way of matching [r]. *)
Fixpoint backtrack {A : Type} (r : regex) (s : string) (c : captures)
    (k : string -> captures -> option A) {struct r} : option A :=
  match r with
  | Eps => k s c
  | Chr set =>
      match s with
      | String a rest => if set a then k rest c else None
      | EmptyString => None
      end
  | Seq r1 r2 => backtrack r1 s c (fun s1 c1 => backtrack r2 s1 c1 k)
  | Alt r1 r2 =>
      match backtrack r1 s c k with
      | Some x => Some x
      | None => backtrack r2 s c k
      end
  | Star r1 => star_rounds (backtrack r1) k (String.length s) s c
  | Group n r1 =>
      backtrack r1 s c
        (fun s1 c1 => k s1 ((n, Str.take (String.length s - String.length s1) s) :: c1))
  end.

Fixpoint ngroups (r : regex) : nat :=
  match r with
  | Eps | Chr _ => 0
  | Seq r1 r2 | Alt r1 r2 => Nat.max (ngroups r1) (ngroups r2)
  | Star r1 => ngroups r1
  | Group n r1 => Nat.max n (ngroups r1)
  end.

(** A match object: where the match starts and ends in the searched string,
    what is left after it, and its groups. *)
Record Match : Type := mkMatch {
  m_start : nat;
  m_end : nat;
  m_rest : string;
  m_groups : captures;
  m_ngroups : nat
}.

(** One attempt at position [pos], where [s] is what is left of the string.
    With [must_advance] an empty match is refused (and backtracked into). *)
Definition match_at (r : regex) (pos : nat) (s : string) (must_advance : bool)
  : option Match :=
  match backtrack r s []
          (fun s1 c1 =>
             if must_advance && Nat.eqb (String.length s1) (String.length s) then None
             else Some (s1, c1)) with
  | Some (s1, c1) =>
      Some (mkMatch pos (pos + (String.length s - String.length s1)) s1 c1 (ngroups r))
  | None => None
  end.

(** [pattern.match(s)]: a match at the start of [s], or [None]. *)
Definition re_match (r : regex) (s : string) : option Match := match_at r 0 s false.

(** [pattern.finditer(s)]: the matches found scanning left to right, the next
    search starting where the last match ended; after an empty match the next
    one must advance. *)
Fixpoint scan (fuel : nat) (r : regex) (pos : nat) (s : string) (must_advance : bool)
  : list Match :=
  match fuel with
  | O => []
  | S fuel' =>
      match match_at r pos s must_advance with
      | Some m => m :: scan fuel' r (m_end m) (m_rest m) (Nat.eqb (m_end m) pos)
      | None =>
          match s with
          | EmptyString => []
          | String _ rest => scan fuel' r (S pos) rest false
          end
      end
  end.

Definition finditer (r : regex) (s : string) : list Match :=
  scan (2 * String.length s + 2) r 0 s false.

(** The text of group [n] as [findall] gives it: empty for a group that took
    no part. *)
Definition group_text (m : Match) (n : nat) : string :=
  default EmptyString (capture (m_groups m) n).

(** [pattern.findall(s)] for a pattern with two groups, and with three. *)
Definition findall2 (r : regex) (s : string) : list (string * string) :=
  map (fun m => (group_text m 1, group_text m 2)) (finditer r s).

Definition findall3 (r : regex) (s : string) : list (string * string * string) :=
  map (fun m => (group_text m 1, group_text m 2, group_text m 3)) (finditer r s).

(** A lower bound on the number of characters a match of [r] takes. *)
Fixpoint min_len (r : regex) : nat :=
  match r with
  | Eps => 0
  | Chr _ => 1
  | Seq r1 r2 => min_len r1 + min_len r2
  | Alt r1 r2 => Nat.min (min_len r1) (min_len r2)
  | Star _ => 0
  | Group _ r1 => min_len r1
  end.

(** Every way through [r] sets group [n]. *)
Fixpoint sets (r : regex) (n : nat) : bool :=
  match r with
  | Eps | Chr _ | Star _ => false
  | Seq r1 r2 => sets r1 n || sets r2 n
  | Alt r1 r2 => sets r1 n && sets r2 n
  | Group i r1 => Nat.eqb i n || sets r1 n
  end.

(** Enough fuel for [scan] on [s]. *)
Definition scan_bound (s : string) (must_advance : bool) : nat :=
  2 * String.length s + (if must_advance then 1 else 2).

End Re.

(** ** The patterns of the module *)

Definition sp : Re.regex := Re.lit " ".
Definition nl : Re.regex := Re.lit "010".
Definition digit : Re.regex := Re.Chr (Str.between "0" "9").

(** [[a-zA-Z, 0-9]] *)
Definition value_char : Re.regex :=
  Re.Chr (fun c => Str.between "a" "z" c || Str.between "A" "Z" c
                   || Str.mem c ", " || Str.between "0" "9" c).

(** [r' *network +((?:[^{]+ +)*[^{ ]+) *{\n+ *}'] *)
Definition NETWORK_RE : Re.regex :=
  Re.seq_of
    [Re.Star sp; Re.str "network"; Re.plus sp;
     Re.Group 1 (Re.Seq (Re.Star (Re.Seq (Re.plus (Re.none_of "{")) (Re.plus sp)))
                        (Re.plus (Re.none_of "{ ")));
     Re.Star sp; Re.lit "{"; Re.plus nl; Re.Star sp; Re.lit "}"].

(** [r' *variable +([^{ ]+) +{\n+ *type +(?:discrete|) +\[ +(\d+) +\] *{ *([a-zA-Z, 0-9]+)};\n+ *}'] *)
Definition VAR_RE : Re.regex :=
  Re.seq_of
    [Re.Star sp; Re.str "variable"; Re.plus sp;
     Re.Group 1 (Re.plus (Re.none_of "{ "));
     Re.plus sp; Re.lit "{"; Re.plus nl; Re.Star sp; Re.str "type"; Re.plus sp;
     Re.Alt (Re.str "discrete") Re.Eps;
     Re.plus sp; Re.lit "["; Re.plus sp;
     Re.Group 2 (Re.plus digit);
     Re.plus sp; Re.lit "]"; Re.Star sp; Re.lit "{"; Re.Star sp;
     Re.Group 3 (Re.plus value_char);
     Re.lit "}"; Re.lit ";"; Re.plus nl; Re.Star sp; Re.lit "}"].

(** [r' *probability +\( *(?P<var>[^ ]+) *(?:\| *(?P<parents>[^\)]+))?\) *{\n([^}]+)\n *}'] *)
Definition PROB_RE : Re.regex :=
  Re.seq_of
    [Re.Star sp; Re.str "probability"; Re.plus sp; Re.lit "("; Re.Star sp;
     Re.Group 1 (Re.plus (Re.none_of " "));
     Re.Star sp;
     Re.opt (Re.seq_of [Re.lit "|"; Re.Star sp; Re.Group 2 (Re.plus (Re.none_of ")"))]);
     Re.lit ")"; Re.Star sp; Re.lit "{"; nl;
     Re.Group 3 (Re.plus (Re.none_of "}"));
     nl; Re.Star sp; Re.lit "}"].

(** [r' *table +([^;]+) *;'] *)
Definition TABLE_RE : Re.regex :=
  Re.seq_of
    [Re.Star sp; Re.str "table"; Re.plus sp;
     Re.Group 1 (Re.plus (Re.none_of ";"));
     Re.Star sp; Re.lit ";"].

(** [r' *\(([^\)]+)\) +([^;]+) *;'] *)
Definition PARENTS_RE : Re.regex :=
  Re.seq_of
    [Re.Star sp; Re.lit "(";
     Re.Group 1 (Re.plus (Re.none_of ")"));
     Re.lit ")"; Re.plus sp;
     Re.Group 2 (Re.plus (Re.none_of ";"));
     Re.Star sp; Re.lit ";"].

Definition network_re := NETWORK_RE.
Definition var_re := VAR_RE.
Definition prob_re := PROB_RE.
Definition table_re := TABLE_RE.
Definition parents_re := PARENTS_RE.

(** ** Exceptions *)

Inductive exception : Type :=
| AttributeError (msg : string)
| IndexError (msg : string)
| ValueError (msg : string)
| KeyError (msg : string).

Inductive result (A : Type) : Type :=
| Ok (a : A)
| Raise (e : exception).

Arguments Ok {A} a.
Arguments Raise {A} e.

#[global] Instance result_ret : MRet result := fun A a => Ok a.
#[global] Instance result_bind : MBind result :=
  fun A B f m => match m with Ok a => f a | Raise e => Raise e end.

(** A [for] loop whose body may raise: the state after the last round, or the
    first exception. *)
Fixpoint for_each {S A : Type} (body : S -> A -> result S) (l : list A) (st : S)
  : result S :=
  match l with
  | [] => Ok st
  | x :: rest => st' ← body st x; for_each body rest st'
  end.

(** A comprehension whose element expression may raise, left to right. *)
Fixpoint collect {A B : Type} (f : A -> result B) (l : list A) : result (list B) :=
  match l with
  | [] => Ok []
  | x :: rest => y ← f x; ys ← collect f rest; Ok (y :: ys)
  end.

(** What an attribute access on [None] raises. *)
Definition none_has_no (attr : string) : exception :=
  AttributeError ("'NoneType' object has no attribute '" ++ attr ++ "'").

(** [m.group(n)] where [m] is the result of [pattern.match]: [None] has no
    [group]; a number above the pattern's groups is an [IndexError].  (A group
    that took no part would give [None]; group 1 of the two patterns this is
    used with takes part in every match, see [group1_takes_part].) *)
Definition group (m : option Re.Match) (n : nat) : result string :=
  match m with
  | None => Raise (none_has_no "group")
  | Some m =>
      if Nat.leb n (Re.m_ngroups m) then Ok (Re.group_text m n)
      else Raise (IndexError "no such group")
  end.

(** ** [float(s)] for a string *)

Module Float.

Definition prec : Z := 53.
Definition emax : Z := 1024.

(** binary64 values *)
Definition t : Type := spec_float.

(** The binary64 value nearest to [(-1)^neg * m * 10^e], ties to even;
    infinity on overflow. *)
Definition of_decimal (neg : bool) (m e : Z) : t :=
  match m with
  | Zpos p =>
      if (0 <=? e)%Z then binary_round prec emax neg (p * Z.to_pos (10 ^ e)) 0
      else
        let '(q, e', l) := SFdiv_core_binary prec emax m 0 (10 ^ (- e)) 0 in
        binary_round_aux prec emax neg q e' l
  | _ => S754_zero neg
  end.

Definition is_digit (c : ascii) : bool := Str.between "0" "9" c.

(** C's [isspace] in the ASCII range, as [Py_ISSPACE]. *)
Definition c_isspace (c : ascii) : bool :=
  Str.between "009" "013" c || Ascii.eqb c " ".

Definition lower (c : ascii) : ascii :=
  if Str.between "A" "Z" c then ascii_of_N (Str.code c + 32) else c.

(** A run of digits: its value on top of [acc], how many, and what follows. *)
Fixpoint digits (s : string) (acc : Z) (n : Z) : Z * Z * string :=
  match s with
  | String c rest =>
      if is_digit c then digits rest (10 * acc + (Z.of_N (Str.code c) - 48)) (n + 1)
      else (acc, n, s)
  | EmptyString => (acc, n, s)
  end.

Definition sign (s : string) : bool * string :=
  match s with
  | String "-" rest => (true, rest)
  | String "+" rest => (false, rest)
  | _ => (false, s)
  end.

(** [s] after [word] read without regard to case, if [s] starts with it. *)
Fixpoint after_word (word s : string) : option string :=
  match word, s with
  | EmptyString, _ => Some s
  | String w word', String c rest =>
      if Ascii.eqb (lower c) w then after_word word' rest else None
  | String _ _, EmptyString => None
  end.

(** [inf], [infinity] and [nan], with a sign, in any case. *)
Definition inf_or_nan (s : string) : option t :=
  let '(neg, s1) := sign s in
  match after_word "inf" s1 with
  | Some s2 =>
      match s2 with
      | EmptyString => Some (S754_infinity neg)
      | _ => match after_word "inity" s2 with
             | Some EmptyString => Some (S754_infinity neg)
             | _ => None
             end
      end
  | None =>
      match after_word "nan" s1 with
      | Some EmptyString => Some S754_nan
      | _ => None
      end
  end.

(** The exponent part, which must reach the end of the string. *)
Definition exponent (s : string) : option Z :=
  match s with
  | EmptyString => Some 0%Z
  | String c rest =>
      if Ascii.eqb (lower c) "e" then
        let '(neg, s1) := sign rest in
        match digits s1 0 0 with
        | (x, n, EmptyString) => if (0 <? n)%Z then Some (if neg then (- x)%Z else x) else None
        | _ => None
        end
      else None
  end.

(** A decimal literal: sign, digits with at most one point and at least one
    digit, exponent. *)
Definition decimal (s : string) : option t :=
  let '(neg, s1) := sign s in
  let '(m1, n1, s2) := digits s1 0 0 in
  let '(m, n2, s3) :=
    match s2 with
    | String "." rest => digits rest m1 0
    | _ => (m1, 0%Z, s2)
    end in
  if (0 <? n1 + n2)%Z then
    x ← exponent s3; Some (of_decimal neg m (x - n2))
  else None.

(** The text between the blanks at both ends, read as a number to its end. *)
Fixpoint c_lstrip (s : string) : string :=
  match s with
  | String c rest => if c_isspace c then c_lstrip rest else s
  | EmptyString => s
  end.

Fixpoint c_rstrip (s : string) : string :=
  match s with
  | EmptyString => EmptyString
  | String c rest =>
      match c_rstrip rest with
      | EmptyString => if c_isspace c then EmptyString else String c EmptyString
      | r => String c r
      end
  end.

Definition parse_stripped (s : string) : option t :=
  let s1 := c_rstrip (c_lstrip s) in
  match decimal s1 with
  | Some x => Some x
  | None => inf_or_nan s1
  end.

(** Underscores may stand between two digits only; they are dropped. [prev]
    is the character before [s]. *)
Fixpoint drop_underscores (prev : ascii) (s : string) : option string :=
  match s with
  | EmptyString => if Ascii.eqb prev "_" then None else Some EmptyString
  | String c rest =>
      if Ascii.eqb c "_" then
        if is_digit prev then drop_underscores c rest else None
      else if Ascii.eqb prev "_" && negb (is_digit c) then None
      else String c <$> drop_underscores c rest
  end.

(** A string with a character above 127 is first brought to ASCII: blanks
    become spaces, and the string is cut at the first other character that is
    no digit, with a question mark in its place. *)
Fixpoint to_ascii (s : string) : string :=
  match s with
  | EmptyString => EmptyString
  | String c rest =>
      if (Str.code c <? 127)%N then String c (to_ascii rest)
      else if Str.isspace c then String " " (to_ascii rest)
      else "?"
  end.

Fixpoint is_ascii (s : string) : bool :=
  match s with
  | EmptyString => true
  | String c rest => (Str.code c <? 128)%N && is_ascii rest
  end.

Definition parse (s : string) : option t :=
  let s1 := if is_ascii s then s else to_ascii s in
  if Str.mem "_" s1 then s2 ← drop_underscores "000" s1; parse_stripped s2
  else parse_stripped s1.

End Float.

(** [float(s)] *)
Definition float (s : string) : result Float.t :=
  match Float.parse s with
  | Some x => Ok x
  | None => Raise (ValueError ("could not convert string to float: " ++ Str.repr s))
  end.

(** ** class Variable

    ([Variable] is a reserved word here, hence the module's name.) *)

Module Var.

Record t : Type := mk {
  name : string;
  domain : list string;
  probabilities : gmap (list string) (list Float.t);
  parents : list string;
  table : list Float.t
}.

(** [Variable(name, domain)] *)
Definition init (name : string) (domain : list string) : t := mk name domain ∅ [] [].

Definition set_parents (ps : list string) (v : t) : t :=
  mk (name v) (domain v) (probabilities v) ps (table v).

Definition set_table (tb : list Float.t) (v : t) : t :=
  mk (name v) (domain v) (probabilities v) (parents v) tb.

(** [self.probabilities[key] = prob] *)
Definition set_probability (key : list string) (prob : list Float.t) (v : t) : t :=
  mk (name v) (domain v) (<[key := prob]> (probabilities v)) (parents v) (table v).

Definition key_error (key : list string) : exception :=
  KeyError ("Key (" ++ Str.tuple_repr key ++ ") is not an assignment for this variable.").

Definition get_probability (self : t) (assignment : list string) : result (list Float.t) :=
  let key := assignment in
  match probabilities self !! key with
  | Some prob => Ok prob
  | None => Raise (key_error key)
  end.

End Var.

(** ** class BayesianNetwork

    The variables are the objects of the list [variables]; a reference to
    one of them is its index in the list, which only grows at its end. *)

Module BayesianNetwork.

Record t : Type := mk {
  name : string;
  variables : list Var.t
}.

Definition set_name (n : string) (self : t) : t := mk n (variables self).

(** [get_variable]: the first variable with the name, or [None] when the loop
    ends without a [return]. *)
Fixpoint get_variable_in (vars : list Var.t) (name : string) : option Var.t :=
  match vars with
  | [] => None
  | var :: rest =>
      if String.eqb (Var.name var) name then Some var else get_variable_in rest name
  end.

Definition get_variable (self : t) (name : string) : option Var.t :=
  get_variable_in (variables self) name.

(** The same loop, giving the object by reference. *)
Fixpoint get_variable_ref_in (vars : list Var.t) (name : string) : option nat :=
  match vars with
  | [] => None
  | var :: rest =>
      if String.eqb (Var.name var) name then Some 0
      else S <$> get_variable_ref_in rest name
  end.

Definition get_variable_ref (self : t) (name : string) : option nat :=
  get_variable_ref_in (variables self) name.

(** [var.attr = value] through a reference; [None] has no attribute. *)
Definition setattr (self : t) (var : option nat) (attr : string) (set : Var.t -> Var.t)
  : result t :=
  match var with
  | None => Raise (none_has_no attr)
  | Some i => Ok (mk (name self) (alter set i (variables self)))
  end.

Definition parse_network (self : t) (content : string) : result t :=
  let network := Re.re_match network_re content in
  match (n ← group network 1; Ok (set_name n self)) with
  | Raise (IndexError _) => Ok (set_name "Unnamed network" self)
  | r => r
  end.

Definition parse_variables (self : t) (content : string) : t :=
  let variables_ := Re.findall3 var_re content in
  fold_left
    (fun self '(_name, _, _values) =>
       let domain := map Str.strip (Str.split "," _values) in
       mk (name self) (variables self ++ [Var.init _name domain]))
    variables_ self.

(** [float(v.strip())] for each [v] of [text.split(',')] *)
Definition floats (text : string) : result (list Float.t) :=
  collect (fun v => float (Str.strip v)) (Str.split "," text).

(** One round of the inner loop of [parse_probabilities], for the row [val]. *)
Definition parse_row (var : option nat) (self : t) (val : string * string) : result t :=
  let key := map Str.strip (Str.split "," (fst val)) in
  prob ← floats (snd val);
  setattr self var "probabilities" (Var.set_probability key prob).

(** One round of the loop of [parse_probabilities]. *)
Definition parse_probability (self : t) (p : string * string * string) : result t :=
  let '(_name, _parents, _probabilities) := p in
  if negb (String.eqb _parents "") then
    let values := Re.findall2 parents_re _probabilities in
    let parents := map Str.strip (Str.split "," _parents) in
    let var := get_variable_ref self _name in
    self ← setattr self var "parents" (Var.set_parents parents);
    for_each (parse_row var) values self
  else
    let value := Re.re_match table_re _probabilities in
    let var := get_variable_ref self _name in
    text ← group value 1;
    tb ← floats text;
    setattr self var "table" (Var.set_table tb).

Definition parse_probabilities (self : t) (content : string) : result t :=
  let probabilities := Re.findall3 prob_re content in
  for_each parse_probability probabilities self.

(** [parse_file], from the contents of the file on. *)
Definition parse_file (self : t) (contents : string) : result t :=
  self ← parse_network self contents;
  let self := parse_variables self contents in
  parse_probabilities self contents.

(** [BayesianNetwork(file)] for a file with the given contents. *)
Definition init (contents : string) : result t :=
  parse_file (mk "" []) contents.

End BayesianNetwork.

(** ** Sample texts *)

Definition LF : string := String "010" "".

(** The lines, each ended by a line feed. *)
Fixpoint lines (l : list string) : string :=
  match l with
  | [] => ""
  | x :: rest => x ++ LF ++ lines rest
  end.

Definition network_of (r : result BayesianNetwork.t) : BayesianNetwork.t :=
  match r with
  | Ok net => net
  | Raise _ => BayesianNetwork.mk "" []
  end.

Definition variable_of (net : BayesianNetwork.t) (name : string) : Var.t :=
  default (Var.init "" []) (BayesianNetwork.get_variable net name).

(** A cut of the earthquake network. *)
Definition earthquake : string :=
  lines ["network Earthquake {"; "}";
         "variable Burglary {"; "  type discrete [ 2 ] { True, False };"; "}";
         "variable Earthquake {"; "  type discrete [ 2 ] { True, False };"; "}";
         "variable Alarm {"; "  type discrete [ 2 ] { True, False };"; "}";
         "probability ( Burglary ) {"; "  table 0.01, 0.99;"; "}";
         "probability ( Earthquake ) {"; "  table 0.02, 0.98;"; "}";
         "probability ( Alarm | Burglary, Earthquake ) {";
         "  (True, True) 0.95, 0.05;";
         "  (False, True) 0.29, 0.71;";
         "  (True, False) 0.94, 0.06;";
         "  (False, False) 0.001, 0.999;";
         "}"].

Definition earthquake_net : BayesianNetwork.t := network_of (BayesianNetwork.init earthquake).
Definition burglary : Var.t := variable_of earthquake_net "Burglary".
Definition alarm : Var.t := variable_of earthquake_net "Alarm".

(** No network header: the text starts with a variable. *)
Definition no_header : string :=
  lines ["variable A {"; "  type discrete [ 2 ] { True, False };"; "}";
         "probability ( A ) {"; "  table 0.5, 0.5;"; "}"].

(** A declaration with parents whose body has no row. *)
Definition no_rows : string :=
  lines ["network N {"; "}";
         "variable A {"; "  type discrete [ 2 ] { True, False };"; "}";
         "variable B {"; "  type discrete [ 2 ] { True, False };"; "}";
         "probability ( A | B ) {"; "  nothing to see here"; "}"].

Definition no_rows_net : BayesianNetwork.t := network_of (BayesianNetwork.init no_rows).

(** A declaration without parents whose body has no table statement. *)
Definition no_table : string :=
  lines ["network N {"; "}";
         "variable A {"; "  type discrete [ 2 ] { True, False };"; "}";
         "probability ( A ) {"; "  nothing to see here"; "}"].

(** One number for a domain of two labels, and a variable with no
    probability declaration. *)
Definition short_table : string :=
  lines ["network N {"; "}";
         "variable A {"; "  type discrete [ 2 ] { True, False };"; "}";
         "variable B {"; "  type discrete [ 2 ] { True, False };"; "}";
         "probability ( A ) {"; "  table 1.0;"; "}"].

Definition short_table_net : BayesianNetwork.t := network_of (BayesianNetwork.init short_table).

(** The target of the probability declaration is not declared, and its table
    holds no number. *)
Definition undeclared_target : string :=
  lines ["network N {"; "}";
         "variable A {"; "  type discrete [ 2 ] { True, False };"; "}";
         "probability ( Z ) {"; "  table abc;"; "}"].

(** The second number of the table is no number. *)
Definition bad_number_text : string :=
  lines ["network N {"; "}";
         "variable A {"; "  type discrete [ 2 ] { True, False };"; "}";
         "probability ( A ) {"; "  table 0.5, x;"; "}"].

Definition header_only : string := lines ["network X {"; "}"].

(** A declaration without parents and with an empty body: [PROB_RE] wants a
    character between the two line feeds and does not match it. *)
Definition empty_body : string :=
  lines ["network N {"; "}";
         "variable A {"; "  type discrete [ 2 ] { True, False };"; "}";
         "probability ( A ) {"; "}"].

(** The same with a target that is not declared. *)
Definition undeclared_empty_body : string :=
  lines ["network N {"; "}";
         "variable A {"; "  type discrete [ 2 ] { True, False };"; "}";
         "probability ( Z ) {"; "}"].

(** A table statement, with a token that is no number, in the body of a
    declaration with parents. *)
Definition table_under_parents : string :=
  lines ["network N {"; "}";
         "variable A {"; "  type discrete [ 2 ] { True, False };"; "}";
         "variable B {"; "  type discrete [ 2 ] { True, False };"; "}";
         "probability ( A | B ) {"; "  table 0.5, abc;"; "}"].

(** A second row with no space after its key, and a token that is no
    number. *)
Definition glued_row : string :=
  lines ["network N {"; "}";
         "variable A {"; "  type discrete [ 2 ] { True, False };"; "}";
         "variable B {"; "  type discrete [ 2 ] { True, False };"; "}";
         "probability ( A | B ) {"; "  (True) 0.5, 0.5;"; "  (False)0.5, abc;"; "}"].

(** Two variables, and the same text with a space after the opening brace
    of the second. *)
Definition two_variables : string :=
  lines ["network N {"; "}";
         "variable A {"; "  type discrete [ 2 ] { True, False };"; "}";
         "variable B {"; "  type discrete [ 2 ] { True, False };"; "}"].

Definition space_after_brace : string :=
  lines ["network N {"; "}";
         "variable A {"; "  type discrete [ 2 ] { True, False };"; "}";
         "variable B { "; "  type discrete [ 2 ] { True, False };"; "}"].

(** ** Predicates of the statements *)

(** The names and domains of the variables, in order. *)
Definition shape (self : BayesianNetwork.t) : list (string * list string) :=
  map (fun v => (Var.name v, Var.domain v)) (BayesianNetwork.variables self).

(** [prob] is what a row of a probability declaration of [content] for the
    variable [v] gives for the key [key]. *)
Definition row_source (content : string) (v : Var.t) (key : list string)
    (prob : list Float.t) : Prop :=
  exists _parents body row,
    In (Var.name v, _parents, body) (Re.findall3 prob_re content) /\
    _parents <> "" /\
    In row (Re.findall2 parents_re body) /\
    map Str.strip (Str.split "," (fst row)) = key /\
    BayesianNetwork.floats (snd row) = Ok prob.

(** [tb] is what the table statement of a probability declaration of
    [content] for the variable [v] gives. *)
Definition table_source (content : string) (v : Var.t) (tb : list Float.t) : Prop :=
  exists body text,
    In (Var.name v, "", body) (Re.findall3 prob_re content) /\
    group (Re.re_match table_re body) 1 = Ok text /\
    BayesianNetwork.floats text = Ok tb.

Definition var_ok (content : string) (v : Var.t) : Prop :=
  (forall key prob, Var.probabilities v !! key = Some prob -> row_source content v key prob) /\
  (Var.table v = [] \/ table_source content v (Var.table v)) /\
  (Var.parents v = [] -> Var.probabilities v = ∅).

(** The three patterns applied to the whole text start with [ *] followed by
    a keyword. *)
Definition leading_spaces (r : Re.regex) : Prop :=
  exists r', r = Re.Seq (Re.Star sp) r' /\
    (forall s c (k : string -> Re.captures -> option (string * Re.captures)),
        Re.backtrack r' (String " " s) c k = None) /\
    1 <= Re.min_len r'.

(** No blank at either end. *)
Definition trimmed (s : string) : Prop := Str.lstrip s = s /\ Str.rstrip s = s.


(** The names of the variables declared in [content]. *)
Definition declared (content : string) : list string :=
  map (fun d => fst (fst d)) (Re.findall3 var_re content).

(** [text] is a numeric list of [content]: group 1 of the table statement of
    a declaration without parents, or group 2 of a row of a declaration with
    parents. *)
Definition numeric_list (content text : string) : Prop :=
  (exists _name body,
      In (_name, "", body) (Re.findall3 prob_re content) /\
      group (Re.re_match table_re body) 1 = Ok text) \/
  (exists _name _parents body row,
      In (_name, _parents, body) (Re.findall3 prob_re content) /\
      _parents <> "" /\
      In row (Re.findall2 parents_re body) /\
      snd row = text).

(** One of the comma-separated tokens of [text] is no number once stripped. *)
Definition bad_number (text : string) : Prop :=
  exists token, In token (Str.split "," text) /\ Float.parse (Str.strip token) = None.

(** ** Predicates of the further properties *)

(** Every character of [s] satisfies [p]. *)
Fixpoint every (p : ascii -> bool) (s : string) : bool :=
  match s with
  | EmptyString => true
  | String c rest => p c && every p rest
  end.

(** The targets of the probability declarations of [content]. *)
Definition targets (content : string) : list string :=
  map (fun d => fst (fst d)) (Re.findall3 prob_re content).

(** The exceptions a construction can end with. *)
Definition construction_error (e : exception) : Prop :=
  e = none_has_no "group" \/ e = none_has_no "parents" \/ e = none_has_no "table" \/
  exists token, e = ValueError ("could not convert string to float: " ++ Str.repr token).

(** The key of a row: its assignment, split and stripped. *)
Definition row_key (row : string * string) : list string :=
  map Str.strip (Str.split "," (fst row)).

(** What the rows, taken in order, leave under [key] in a mapping that held
    [old] there: the floats of the last row with that key. *)
Fixpoint row_value (rows : list (string * string)) (key : list string)
    (old : option (list Float.t)) : option (list Float.t) :=
  match rows with
  | [] => old
  | row :: rest =>
      row_value rest key
        (if decide (row_key row = key)
         then match BayesianNetwork.floats (snd row) with
              | Ok prob => Some prob
              | Raise _ => old
              end
         else old)
  end.

(** A network of one variable, and the body of a declaration with parents
    whose two rows have the same key. *)
Definition one_variable : BayesianNetwork.t :=
  BayesianNetwork.mk "N" [Var.init "A" ["True"; "False"]].

Definition repeated_rows : string :=
  "  (True) 0.5, 0.5;" ++ LF ++ "  ( True ) 0.9, 0.1;".

Definition one_variable_rows : BayesianNetwork.t :=
  network_of (BayesianNetwork.parse_probability one_variable ("A", "B", repeated_rows)).

(** [padded] is [token] between two runs of blanks. *)
Definition padding (token padded : string) : Prop :=
  exists l r, Str.all_space l = true /\ Str.all_space r = true /\ padded = l ++ token ++ r.

(** The words of a pattern. *)
Inductive matches : Re.regex -> string -> Prop :=
| matches_eps : matches Re.Eps ""
| matches_chr set a : set a = true -> matches (Re.Chr set) (String a "")
| matches_seq r1 r2 w1 w2 :
    matches r1 w1 -> matches r2 w2 -> matches (Re.Seq r1 r2) (w1 ++ w2)
| matches_alt_l r1 r2 w : matches r1 w -> matches (Re.Alt r1 r2) w
| matches_alt_r r1 r2 w : matches r2 w -> matches (Re.Alt r1 r2) w
| matches_star_nil r : matches (Re.Star r) ""
| matches_star_cons r w1 w2 :
    matches r w1 -> matches (Re.Star r) w2 -> matches (Re.Star r) (w1 ++ w2)
| matches_group n r w : matches r w -> matches (Re.Group n r) w.

(** [G n] holds of every word of every group [n] of [r]. *)
Fixpoint groups_sound (G : nat -> string -> Prop) (r : Re.regex) : Prop :=
  match r with
  | Re.Eps | Re.Chr _ => True
  | Re.Seq r1 r2 | Re.Alt r1 r2 => groups_sound G r1 /\ groups_sound G r2
  | Re.Star r1 => groups_sound G r1
  | Re.Group n r1 => (forall w, matches r1 w -> G n w) /\ groups_sound G r1
  end.

Definition captures_sound (G : nat -> string -> Prop) (c : Re.captures) : Prop :=
  Forall (fun p => G (fst p) (snd p)) c.

(** Every character a word of [r] can hold satisfies [p]. *)
Fixpoint chars_in (p : ascii -> bool) (r : Re.regex) : Prop :=
  match r with
  | Re.Eps => True
  | Re.Chr set => forall a, set a = true -> p a = true
  | Re.Seq r1 r2 | Re.Alt r1 r2 => chars_in p r1 /\ chars_in p r2
  | Re.Star r1 | Re.Group _ r1 => chars_in p r1
  end.

(** A letter, a digit or a space: what a domain label is made of. *)
Definition label_char (c : ascii) : bool :=
  Str.between "a" "z" c || Str.between "A" "Z" c || Str.between "0" "9" c
  || Ascii.eqb c " ".

(** The last character of [s] is none of [chars]. *)
Definition ends_outside (chars s : string) : Prop :=
  exists u c, s = u ++ String c "" /\ Str.mem c chars = false.

(** ** Laid-out documents

    A document as the patterns read it: a header, then variable and
    probability declarations.  Its layout is the number of spaces and of line
    feeds at the places where the patterns have [ *], [ +] or [\n+], around
    the pieces of the comma-separated lists, and between the declarations. *)

(** [n] line feeds. *)
Fixpoint newlines (n : nat) : string :=
  match n with
  | O => EmptyString
  | S n' => String "010" (newlines n')
  end.

(** [kw] is a prefix of [s]; [kw] occurs in [s]. *)
Fixpoint starts_with (kw s : string) : bool :=
  match kw, s with
  | EmptyString, _ => true
  | String a kw', String b s' => Ascii.eqb a b && starts_with kw' s'
  | String _ _, EmptyString => false
  end.

Fixpoint occurs (kw s : string) : bool :=
  starts_with kw s ||
  match s with
  | EmptyString => false
  | String _ rest => occurs kw rest
  end.

(** [s] is empty or starts with a character outside [p]. *)
Definition starts_outside (p : ascii -> bool) (s : string) : Prop :=
  match s with
  | EmptyString => True
  | String a _ => p a = false
  end.

(** The keywords that the declarations are searched by. *)
Definition keyword (kw : string) : Prop := kw = "variable" \/ kw = "probability".

(** [s] is [kw] after spaces. *)
Definition begins (kw s : string) : Prop :=
  exists n t, s = Str.spaces n ++ kw ++ t.

(** The groups of the matches of [pattern.finditer(s)]. *)
Definition found (r : Re.regex) (s : string) : list Re.captures :=
  map Re.m_groups (Re.finditer r s).

Module Layout.

(** A piece of a comma-separated list: a token and the spaces around it. *)
Record piece : Type := Piece {
  pad_before : nat;
  token : string;
  pad_after : nat
}.

Definition padded (p : piece) : string :=
  Str.spaces (pad_before p) ++ token p ++ Str.spaces (pad_after p).

Definition pieces (ps : list piece) : string := Str.join "," (map padded ps).

(** The list from its first token on. *)
Definition pieces_from (ps : list piece) : string :=
  match ps with
  | [] => EmptyString
  | p :: rest => Str.join "," ((token p ++ Str.spaces (pad_after p)) :: map padded rest)
  end.

Definition tokens (ps : list piece) : list string := map token ps.

(** [network <name> {] and [}] *)
Record header : Type := Header {
  h_indent : nat;
  h_gap : nat;
  h_name : string;
  h_before_brace : nat;
  h_lines : nat;
  h_close : nat
}.

Definition header_text (h : header) : string :=
  Str.spaces (h_indent h) ++ "network" ++ Str.spaces (S (h_gap h)) ++ h_name h
  ++ Str.spaces (h_before_brace h) ++ "{" ++ newlines (S (h_lines h))
  ++ Str.spaces (h_close h) ++ "}".

(** [variable <name> {], [type discrete [ <size> ] { <values> };] and [}] *)
Record variable_decl : Type := VariableDecl {
  v_indent : nat;
  v_gap : nat;
  v_name : string;
  v_before_brace : nat;
  v_lines : nat;
  v_type_indent : nat;
  v_type_gap : nat;
  v_discrete_gap : nat;
  v_size_indent : nat;
  v_size : string;
  v_size_gap : nat;
  v_before_values : nat;
  v_values_indent : nat;
  v_values : list piece;
  v_end_lines : nat;
  v_close : nat
}.

Definition variable_text (v : variable_decl) : string :=
  Str.spaces (v_indent v) ++ "variable" ++ Str.spaces (S (v_gap v)) ++ v_name v
  ++ Str.spaces (S (v_before_brace v)) ++ "{" ++ newlines (S (v_lines v))
  ++ Str.spaces (v_type_indent v) ++ "type" ++ Str.spaces (S (v_type_gap v))
  ++ "discrete" ++ Str.spaces (S (v_discrete_gap v))
  ++ "[" ++ Str.spaces (S (v_size_indent v)) ++ v_size v
  ++ Str.spaces (S (v_size_gap v)) ++ "]" ++ Str.spaces (v_before_values v)
  ++ "{" ++ Str.spaces (v_values_indent v) ++ pieces (v_values v) ++ "}" ++ ";"
  ++ newlines (S (v_end_lines v)) ++ Str.spaces (v_close v) ++ "}".

(** A row [(<key>) <values>;], the spaces after it and the blank lines after
    its line. *)
Record row : Type := Row {
  r_indent : nat;
  r_key : list piece;
  r_gap : nat;
  r_values : list piece;
  r_trail : nat;
  r_lines : nat
}.

Definition row_text (r : row) : string :=
  Str.spaces (r_indent r) ++ "(" ++ pieces (r_key r) ++ ")"
  ++ Str.spaces (S (r_gap r)) ++ pieces (r_values r) ++ ";" ++ Str.spaces (r_trail r).

Fixpoint rows_text (rs : list row) : string :=
  match rs with
  | [] => EmptyString
  | [r] => row_text r ++ newlines (r_lines r)
  | r :: rest => row_text r ++ newlines (S (r_lines r)) ++ rows_text rest
  end.

(** What stands between the braces of a probability declaration, and with it
    the parents before them: a table statement and no parents, or parents
    and rows. *)
Inductive body : Type :=
| Table (indent gap : nat) (values : list piece) (trail lines : nat)
| Rows (bar : nat) (parents : list piece) (lead : nat) (rows : list row).

Definition given_text (b : body) : string :=
  match b with
  | Table _ _ _ _ _ => EmptyString
  | Rows bar parents _ _ => "|" ++ Str.spaces bar ++ pieces parents
  end.

Definition body_text (b : body) : string :=
  match b with
  | Table indent gap values trail lines =>
      Str.spaces indent ++ "table" ++ Str.spaces (S gap) ++ pieces values ++ ";"
      ++ Str.spaces trail ++ newlines lines
  | Rows _ _ lead rows => newlines lead ++ rows_text rows
  end.

(** [probability ( <target> | <parents> ) {], the body and [}] *)
Record probability_decl : Type := ProbabilityDecl {
  q_indent : nat;
  q_gap : nat;
  q_paren : nat;
  q_target : string;
  q_after_target : nat;
  q_body : body;
  q_before_brace : nat;
  q_close : nat
}.

Definition probability_text (q : probability_decl) : string :=
  Str.spaces (q_indent q) ++ "probability" ++ Str.spaces (S (q_gap q)) ++ "("
  ++ Str.spaces (q_paren q) ++ q_target q ++ Str.spaces (S (q_after_target q))
  ++ given_text (q_body q) ++ ")" ++ Str.spaces (q_before_brace q) ++ "{" ++ LF
  ++ body_text (q_body q) ++ LF ++ Str.spaces (q_close q) ++ "}".

Inductive item : Type :=
| VariableItem (v : variable_decl)
| ProbabilityItem (q : probability_decl).

Definition item_text (i : item) : string :=
  match i with
  | VariableItem v => variable_text v
  | ProbabilityItem q => probability_text q
  end.

(** The declarations, each with the blank lines after it. *)
Fixpoint items_text (l : list (item * nat)) : string :=
  match l with
  | [] => EmptyString
  | (i, lines) :: rest => item_text i ++ newlines (S lines) ++ items_text rest
  end.

Record document : Type := Document {
  d_header : header;
  d_after_header : nat;
  d_items : list (item * nat)
}.

(** The text of a document. *)
Definition render (d : document) : string :=
  header_text (d_header d) ++ newlines (S (d_after_header d)) ++ items_text (d_items d).

(** *** What the patterns capture *)

Definition variable_groups (v : variable_decl) : Re.captures :=
  [(3, pieces_from (v_values v)); (2, v_size v); (1, v_name v)].

Definition probability_groups (q : probability_decl) : Re.captures :=
  ((3, body_text (q_body q))
   :: match q_body q with
      | Table _ _ _ _ _ => []
      | Rows _ parents _ _ => [(2, pieces_from parents)]
      end ++ [(1, q_target q)])%list.

Definition row_groups (r : row) : Re.captures :=
  [(2, pieces_from (r_values r)); (1, pieces (r_key r))].

(** The same as [findall] gives them. *)
Definition variable_capture (v : variable_decl) : string * string * string :=
  (v_name v, v_size v, pieces_from (v_values v)).

Definition probability_capture (q : probability_decl) : string * string * string :=
  (q_target q,
   match q_body q with
   | Table _ _ _ _ _ => EmptyString
   | Rows _ parents _ _ => pieces_from parents
   end,
   body_text (q_body q)).

Definition row_capture (r : row) : string * string :=
  (pieces (r_key r), pieces_from (r_values r)).

Fixpoint variables_of (l : list (item * nat)) : list variable_decl :=
  match l with
  | [] => []
  | (VariableItem v, _) :: rest => v :: variables_of rest
  | (ProbabilityItem _, _) :: rest => variables_of rest
  end.

Fixpoint probabilities_of (l : list (item * nat)) : list probability_decl :=
  match l with
  | [] => []
  | (VariableItem _, _) :: rest => probabilities_of rest
  | (ProbabilityItem q, _) :: rest => q :: probabilities_of rest
  end.

(** *** What is left of a document without its layout *)

Definition variable_content (v : variable_decl) : string * string * list string :=
  (v_name v, v_size v, tokens (v_values v)).

Definition row_content (r : row) : list string * list string :=
  (tokens (r_key r), tokens (r_values r)).

Definition body_content (b : body)
  : list string + list string * list (list string * list string) :=
  match b with
  | Table _ _ values _ _ => inl (tokens values)
  | Rows _ parents _ rows => inr (tokens parents, map row_content rows)
  end.

Definition probability_content (q : probability_decl) :=
  (q_target q, body_content (q_body q)).

Definition item_content (i : item) :=
  match i with
  | VariableItem v => inl (variable_content v)
  | ProbabilityItem q => inr (probability_content q)
  end.

Definition content (d : document) :=
  (h_name (d_header d), map (fun i => item_content (fst i)) (d_items d)).

(** *** The tokens a document is made of *)

(** No blank and none of the characters the patterns give a meaning to. *)
Definition plain (c : ascii) : bool :=
  negb (Str.isspace c) && negb (Str.mem c "{}();,|").

Definition alnum (c : ascii) : bool :=
  Str.between "a" "z" c || Str.between "A" "Z" c || Str.between "0" "9" c.

(** A token: not empty, of plain characters, and holding neither of the two
    keywords that the declarations are searched by. *)
Definition word (s : string) : bool :=
  negb (String.eqb s "") && every plain s
  && negb (occurs "variable" s) && negb (occurs "probability" s).

Definition label (s : string) : bool := word s && every alnum s.

Definition number (s : string) : bool :=
  negb (String.eqb s "") && every (Str.between "0" "9") s.

(** A list that is not empty and whose tokens are as [ok] wants them. *)
Definition list_of (ok : string -> bool) (ps : list piece) : bool :=
  match ps with
  | [] => false
  | _ => forallb (fun p => ok (token p)) ps
  end.

Definition wf_variable (v : variable_decl) : bool :=
  word (v_name v) && number (v_size v) && list_of label (v_values v).

Definition wf_row (r : row) : bool :=
  list_of word (r_key r) && list_of word (r_values r).

Definition wf_body (b : body) : bool :=
  match b with
  | Table _ _ values _ _ => list_of word values
  | Rows _ parents _ rows =>
      list_of word parents && negb (Nat.eqb (length rows) 0) && forallb wf_row rows
  end.

Definition wf_probability (q : probability_decl) : bool :=
  word (q_target q) && wf_body (q_body q).

Definition wf_item (i : item) : bool :=
  match i with
  | VariableItem v => wf_variable v
  | ProbabilityItem q => wf_probability q
  end.

Definition wf (d : document) : bool :=
  word (h_name (d_header d)) && forallb (fun i => wf_item (fst i)) (d_items d).

(** *** Documents that can be constructed *)

(** The numbers of a list are float literals. *)
Definition numbers (ps : list piece) : bool :=
  forallb (fun p => match float (token p) with Ok _ => true | Raise _ => false end) ps.

Definition valid_body (b : body) : bool :=
  match b with
  | Table _ _ values _ _ => numbers values
  | Rows _ _ _ rows => forallb (fun r => numbers (r_values r)) rows
  end.

(** The target of every probability declaration is the name of a variable
    declaration, and the numbers are float literals. *)
Definition valid (d : document) : bool :=
  forallb (fun q => existsb (String.eqb (q_target q)) (map v_name (variables_of (d_items d)))
                    && valid_body (q_body q))
          (probabilities_of (d_items d)).

End Layout.

(** The earthquake text as a document, and the same document with another
    layout: more spaces, blank lines, other indentations. *)
Definition earthquake_variable (name : string) : Layout.item :=
  Layout.VariableItem
    (Layout.VariableDecl 0 0 name 0 0 2 0 0 0 "2" 0 1 1
       [Layout.Piece 0 "True" 0; Layout.Piece 1 "False" 1] 0 0).

Definition earthquake_table (name first second : string) : Layout.item :=
  Layout.ProbabilityItem
    (Layout.ProbabilityDecl 0 0 1 name 0
       (Layout.Table 2 0 [Layout.Piece 0 first 0; Layout.Piece 1 second 0] 0 0) 1 0).

Definition earthquake_row (a b first second : string) : Layout.row :=
  Layout.Row 2 [Layout.Piece 0 a 0; Layout.Piece 1 b 0] 0
    [Layout.Piece 0 first 0; Layout.Piece 1 second 0] 0 0.

Definition earthquake_document : Layout.document :=
  Layout.Document (Layout.Header 0 0 "Earthquake" 1 0 0) 0
    [(earthquake_variable "Burglary", 0);
     (earthquake_variable "Earthquake", 0);
     (earthquake_variable "Alarm", 0);
     (earthquake_table "Burglary" "0.01" "0.99", 0);
     (earthquake_table "Earthquake" "0.02" "0.98", 0);
     (Layout.ProbabilityItem
        (Layout.ProbabilityDecl 0 0 1 "Alarm" 0
           (Layout.Rows 1 [Layout.Piece 0 "Burglary" 0; Layout.Piece 1 "Earthquake" 1] 0
              [earthquake_row "True" "True" "0.95" "0.05";
               earthquake_row "False" "True" "0.29" "0.71";
               earthquake_row "True" "False" "0.94" "0.06";
               earthquake_row "False" "False" "0.001" "0.999"]) 1 0), 0)].

Definition spread_variable (name : string) : Layout.item :=
  Layout.VariableItem
    (Layout.VariableDecl 1 2 name 1 1 0 3 0 2 "2" 1 0 0
       [Layout.Piece 2 "True" 1; Layout.Piece 0 "False" 0] 2 4).

Definition spread_table (name first second : string) : Layout.item :=
  Layout.ProbabilityItem
    (Layout.ProbabilityDecl 3 1 0 name 2
       (Layout.Table 0 2 [Layout.Piece 1 first 2; Layout.Piece 0 second 1] 3 2) 0 2).

Definition spread_row (a b first second : string) : Layout.row :=
  Layout.Row 0 [Layout.Piece 1 a 1; Layout.Piece 0 b 2] 3
    [Layout.Piece 2 first 0; Layout.Piece 0 second 3] 1 1.

Definition earthquake_spread : Layout.document :=
  Layout.Document (Layout.Header 2 3 "Earthquake" 0 2 1) 2
    [(spread_variable "Burglary", 1);
     (spread_variable "Earthquake", 0);
     (spread_variable "Alarm", 3);
     (spread_table "Burglary" "0.01" "0.99", 0);
     (spread_table "Earthquake" "0.02" "0.98", 2);
     (Layout.ProbabilityItem
        (Layout.ProbabilityDecl 1 0 2 "Alarm" 1
           (Layout.Rows 0 [Layout.Piece 3 "Burglary" 2; Layout.Piece 0 "Earthquake" 0] 2
              [spread_row "True" "True" "0.95" "0.05";
               spread_row "False" "True" "0.29" "0.71";
               spread_row "True" "False" "0.94" "0.06";
               spread_row "False" "False" "0.001" "0.999"]) 2 3), 1)].

(** * Properties *)

(** ** The matcher *)

Lemma append_cons (c : ascii) (s1 s2 : string) : String c s1 ++ s2 = String c (s1 ++ s2).
Proof. reflexivity. Qed.

Lemma append_empty_l (s : string) : "" ++ s = s.
Proof. reflexivity. Qed.

Lemma length_append (s1 s2 : string) :
  String.length (s1 ++ s2) = String.length s1 + String.length s2.
Proof.
  induction s1 as [|c s1 IH]; [reflexivity|].
  rewrite append_cons. simpl. now rewrite IH.
Qed.

Lemma append_assoc (s1 s2 s3 : string) : (s1 ++ s2) ++ s3 = s1 ++ (s2 ++ s3).
Proof.
  induction s1 as [|c s1 IH]; [reflexivity|].
  rewrite !append_cons. now rewrite IH.
Qed.



Lemma take_append (s1 s2 : string) : Str.take (String.length s1) (s1 ++ s2) = s1.
Proof.
  induction s1 as [|c s1 IH]; [now destruct s2|].
  rewrite append_cons. simpl. now rewrite IH.
Qed.

Section Backtrack.

Context {A : Type}.

Lemma star_rounds_some
    (body : string -> Re.captures -> (string -> Re.captures -> option A) -> option A)
    (k : string -> Re.captures -> option A) :
  (forall s c k' x, body s c k' = Some x ->
     exists s1 c1 pre, k' s1 c1 = Some x /\ s = pre ++ s1) ->
  forall fuel s c x,
    Re.star_rounds body k fuel s c = Some x ->
    exists s1 c1 pre, k s1 c1 = Some x /\ s = pre ++ s1.
Proof.
  intros Hbody fuel. induction fuel as [|fuel IH]; intros s c x H; simpl in H.
  - exists s, c, "". auto.
  - destruct (body s c _) as [y|] eqn:E.
    + inversion H; subst y. apply Hbody in E. destruct E as (s1 & c1 & pre1 & E1 & ->).
      destruct (Nat.ltb _ _); [|discriminate].
      apply IH in E1. destruct E1 as (s2 & c2 & pre2 & E2 & ->).
      exists s2, c2, (pre1 ++ pre2). split; [exact E2 | now rewrite append_assoc].
    + exists s, c, "". auto.
Qed.

(** A successful match hands the continuation what is left of the string
    after a prefix of at least [min_len r] characters. *)
Lemma backtrack_prefix (r : Re.regex) :
  forall s c (k : string -> Re.captures -> option A) x,
    Re.backtrack r s c k = Some x ->
    exists s1 c1 pre,
      k s1 c1 = Some x /\ s = pre ++ s1 /\ Re.min_len r <= String.length pre.
Proof.
  induction r as [|set|r1 IH1 r2 IH2|r1 IH1 r2 IH2|r1 IH1|n r1 IH1]; intros s c k x H; simpl in *.
  - exists s, c, "". split; [exact H | split; [reflexivity | simpl; lia]].
  - destruct s as [|a rest]; [discriminate|].
    destruct (set a); [|discriminate].
    exists rest, c, (String a ""). split; [exact H | split; [reflexivity | simpl; lia]].
  - apply IH1 in H. destruct H as (s1 & c1 & pre1 & H1 & -> & Hle1).
    apply IH2 in H1. destruct H1 as (s2 & c2 & pre2 & H2 & -> & Hle2).
    exists s2, c2, (pre1 ++ pre2). rewrite append_assoc, length_append.
    split; [exact H2 | split; [reflexivity | lia]].
  - destruct (Re.backtrack r1 s c k) as [y|] eqn:E.
    + inversion H; subst y. apply IH1 in E. destruct E as (s1 & c1 & pre & E1 & -> & Hle).
      exists s1, c1, pre. split; [exact E1 | split; [reflexivity | lia]].
    + apply IH2 in H. destruct H as (s1 & c1 & pre & E1 & -> & Hle).
      exists s1, c1, pre. split; [exact E1 | split; [reflexivity | lia]].
  - apply star_rounds_some in H.
    + destruct H as (s1 & c1 & pre & H1 & ->). exists s1, c1, pre.
      split; [exact H1 | split; [reflexivity | lia]].
    + intros s0 c0 k' x0 E. apply IH1 in E. destruct E as (s1 & c1 & pre & E1 & -> & _).
      eauto.
  - apply IH1 in H. destruct H as (s1 & c1 & pre & H1 & -> & Hle). eauto 6.
Qed.

Lemma backtrack_some (r : Re.regex) :
  forall s c (k : string -> Re.captures -> option A) x,
    Re.backtrack r s c k = Some x ->
    exists s1 c1, k s1 c1 = Some x /\ String.length s1 + Re.min_len r <= String.length s.
Proof.
  intros s c k x H. apply backtrack_prefix in H.
  destruct H as (s1 & c1 & pre & H1 & -> & Hle).
  exists s1, c1. rewrite length_append. split; [exact H1 | lia].
Qed.

End Backtrack.

(** ** The fuel of the repetition is enough *)

Lemma backtrack_none {A : Type} (r : Re.regex) s c :
  Re.backtrack r s c (fun _ _ => @None A) = None.
Proof.
  destruct (Re.backtrack r s c _) as [x|] eqn:E; [|reflexivity].
  apply backtrack_some in E. destruct E as (s1 & c1 & E1 & _). discriminate.
Qed.

Lemma star_rounds_ext {A : Type}
    (body : string -> Re.captures -> (string -> Re.captures -> option A) -> option A) :
  (forall s c k k',
      (forall s1 c1, String.length s1 <= String.length s -> k s1 c1 = k' s1 c1) ->
      body s c k = body s c k') ->
  forall fuel s c k k',
    (forall s1 c1, String.length s1 <= String.length s -> k s1 c1 = k' s1 c1) ->
    Re.star_rounds body k fuel s c = Re.star_rounds body k' fuel s c.
Proof.
  intros Hbody fuel. induction fuel as [|fuel IH]; intros s c k k' Hk; simpl.
  - apply Hk. lia.
  - rewrite (Hk s c) by lia.
    erewrite Hbody; [reflexivity|].
    intros s1 c1 Hle. cbv beta.
    destruct (Nat.ltb_spec (String.length s1) (String.length s)) as [Hlt|_]; [|reflexivity].
    apply IH. intros s2 c2 Hle2. apply Hk. lia.
Qed.

(** Matching looks at the continuation only on what is left of the string. *)
Lemma backtrack_ext {A : Type} (r : Re.regex) :
  forall s c (k k' : string -> Re.captures -> option A),
    (forall s1 c1, String.length s1 <= String.length s -> k s1 c1 = k' s1 c1) ->
    Re.backtrack r s c k = Re.backtrack r s c k'.
Proof.
  induction r as [|set|r1 IH1 r2 IH2|r1 IH1 r2 IH2|r1 IH1|n r1 IH1]; intros s c k k' Hk; simpl.
  - apply Hk. lia.
  - destruct s as [|a rest]; [reflexivity|].
    destruct (set a); [|reflexivity]. apply Hk. simpl. lia.
  - apply IH1. intros s1 c1 Hle. apply IH2. intros s2 c2 Hle2. apply Hk. lia.
  - rewrite (IH1 s c k k' Hk), (IH2 s c k k' Hk). reflexivity.
  - apply star_rounds_ext; [exact IH1 | exact Hk].
  - apply IH1. intros s1 c1 Hle. now apply Hk.
Qed.

(** More rounds than the string has characters change nothing: the loop of
    [Star] is not cut short by its fuel. *)
Lemma star_rounds_fuel {A : Type} (r : Re.regex) (k : string -> Re.captures -> option A) :
  forall fuel fuel' s c,
    String.length s <= fuel -> String.length s <= fuel' ->
    Re.star_rounds (Re.backtrack r) k fuel s c = Re.star_rounds (Re.backtrack r) k fuel' s c.
Proof.
  assert (Hzero : forall fuel s c, String.length s = 0 ->
            Re.star_rounds (Re.backtrack r) k fuel s c = k s c).
  { intros [|fuel] s c Hs; simpl; [reflexivity|].
    erewrite backtrack_ext; [rewrite backtrack_none; reflexivity|].
    intros s1 c1 Hle. cbv beta.
    destruct (Nat.ltb_spec (String.length s1) (String.length s)); [lia | reflexivity]. }
  induction fuel as [|fuel IH]; intros fuel' s c Hf Hf'.
  - rewrite !Hzero by lia. reflexivity.
  - destruct fuel' as [|fuel']; [rewrite !Hzero by lia; reflexivity|]. simpl.
    erewrite backtrack_ext; [reflexivity|].
    intros s1 c1 Hle. cbv beta.
    destruct (Nat.ltb_spec (String.length s1) (String.length s)) as [Hlt|_]; [|reflexivity].
    apply IH; lia.
Qed.

(** A pattern that starts with [ *] and then cannot start with a space matches
    the same way with one more space in front. *)
Lemma backtrack_space {A : Type} (r : Re.regex) :
  (forall s c (k : string -> Re.captures -> option A),
      Re.backtrack r (String " " s) c k = None) ->
  forall s c (k : string -> Re.captures -> option A),
    Re.backtrack (Re.Seq (Re.Star sp) r) (String " " s) c k
    = Re.backtrack (Re.Seq (Re.Star sp) r) s c k.
Proof.
  intros Hr s c k. simpl.
  replace (Nat.ltb (String.length s) (S (String.length s))) with true
    by (symmetry; apply Nat.ltb_lt; lia).
  rewrite Hr. now destruct (Re.star_rounds _ _ _ s c).
Qed.

(** ** Scanning *)

Lemma match_at_some r pos s b m :
  Re.match_at r pos s b = Some m ->
  Re.m_start m = pos /\
  Re.m_end m = pos + (String.length s - String.length (Re.m_rest m)) /\
  String.length (Re.m_rest m) + Re.min_len r <= String.length s /\
  (b = true -> String.length (Re.m_rest m) < String.length s).
Proof.
  unfold Re.match_at. intros H.
  destruct (Re.backtrack r s [] _) as [[s1 c1]|] eqn:E; [|discriminate].
  inversion H; subst m; clear H; simpl.
  apply backtrack_some in E. destruct E as (s2 & c2 & E2 & Hle).
  destruct b; simpl in E2.
  - destruct (Nat.eqb_spec (String.length s2) (String.length s)) as [Heq|Hne];
      [discriminate|]. inversion E2; subst. repeat split; try lia.
  - inversion E2; subst. repeat split; lia.
Qed.

Lemma match_at_groups r pos pos' s b :
  Re.match_at r pos' s b
  = (fun m => Re.mkMatch pos' (pos' + (Re.m_end m - Re.m_start m))
                (Re.m_rest m) (Re.m_groups m) (Re.m_ngroups m))
      <$> Re.match_at r pos s b.
Proof.
  unfold Re.match_at.
  destruct (Re.backtrack r s [] _) as [[s1 c1]|]; simpl; [|reflexivity].
  do 3 f_equal. lia.
Qed.

(** What [scan] finds does not depend on the position it counts from, nor on
    the fuel once there is enough of it. *)
Lemma scan_groups r :
  forall fuel fuel' pos pos' s b,
    Re.scan_bound s b <= fuel -> Re.scan_bound s b <= fuel' ->
    map Re.m_groups (Re.scan fuel r pos s b) = map Re.m_groups (Re.scan fuel' r pos' s b).
Proof.
  unfold Re.scan_bound.
  induction fuel as [|fuel IH]; intros fuel' pos pos' s b Hf Hf'.
  - destruct b; lia.
  - destruct fuel' as [|fuel']; [destruct b; lia|]. simpl.
    rewrite (match_at_groups r pos pos' s b).
    destruct (Re.match_at r pos s b) as [m|] eqn:E; simpl.
    + apply match_at_some in E. destruct E as (Hs & He & Hlen & Hadv).
      f_equal.
      assert (Hflag : Nat.eqb (pos' + (Re.m_end m - Re.m_start m)) pos'
                      = Nat.eqb (Re.m_end m) pos).
      { destruct (Nat.eqb_spec (Re.m_end m) pos);
          [apply Nat.eqb_eq | apply Nat.eqb_neq]; lia. }
      rewrite Hflag.
      destruct (Nat.eqb_spec (Re.m_end m) pos) as [Heq|Hne].
      * assert (b = false) by (destruct b; [specialize (Hadv eq_refl); lia | reflexivity]).
        subst b. apply IH; lia.
      * destruct b; apply IH; lia.
    + destruct s as [|a rest]; [reflexivity|]. simpl in *. destruct b; apply IH; lia.
Qed.

(** More fuel than [finditer] gives [scan] finds the same matches. *)
Lemma finditer_fuel r s fuel :
  Re.scan_bound s false <= fuel ->
  map Re.m_groups (Re.scan fuel r 0 s false) = map Re.m_groups (Re.finditer r s).
Proof.
  intros H. unfold Re.finditer. apply scan_groups; [exact H|].
  unfold Re.scan_bound. lia.
Qed.

Lemma scan_space r :
  (forall s c (k : string -> Re.captures -> option (string * Re.captures)),
      Re.backtrack r (String " " s) c k = None) ->
  1 <= Re.min_len r ->
  forall fuel fuel' pos pos' s,
    Re.scan_bound (String " " s) false <= fuel -> Re.scan_bound s false <= fuel' ->
    map Re.m_groups (Re.scan fuel (Re.Seq (Re.Star sp) r) pos (String " " s) false)
    = map Re.m_groups (Re.scan fuel' (Re.Seq (Re.Star sp) r) pos' s false).
Proof.
  intros Hr Hmin fuel fuel' pos pos' s Hf Hf'. unfold Re.scan_bound in *.
  destruct fuel as [|fuel]; [lia|].
  destruct fuel' as [|fuel']; [lia|].
  cbn [Re.scan].
  destruct (Re.match_at (Re.Seq (Re.Star sp) r) pos' s false) as [m|] eqn:E.
  - pose proof (match_at_some _ _ _ _ _ E) as (Hs & He & Hlen & _).
    unfold Re.match_at in E |- *. rewrite (backtrack_space r Hr).
    cbn [andb] in E |- *.
    destruct (Re.backtrack _ s [] _) as [[s1 c1]|]; [|discriminate].
    inversion E; subst m; clear E. simpl in *.
    f_equal.
    replace (Nat.eqb (pos + (S (String.length s) - String.length s1)) pos) with false
      by (symmetry; apply Nat.eqb_neq; lia).
    replace (Nat.eqb (pos' + (String.length s - String.length s1)) pos') with false
      by (symmetry; apply Nat.eqb_neq; lia).
    apply scan_groups; unfold Re.scan_bound; lia.
  - assert (E' : Re.match_at (Re.Seq (Re.Star sp) r) pos (String " " s) false = None).
    { unfold Re.match_at in E |- *. rewrite (backtrack_space r Hr).
      cbn [andb] in E |- *.
      now destruct (Re.backtrack _ s [] _) as [[s1 c1]|]. }
    rewrite E'.
    assert (R : Re.scan (S fuel') (Re.Seq (Re.Star sp) r) pos' s false
                = match s with
                  | EmptyString => []
                  | String _ rest =>
                      Re.scan fuel' (Re.Seq (Re.Star sp) r) (S pos') rest false
                  end)
      by (cbn [Re.scan]; now rewrite E).
    rewrite <- R. apply scan_groups; unfold Re.scan_bound; simpl in *; lia.
Qed.

Lemma match_at_space r :
  (forall s c (k : string -> Re.captures -> option (string * Re.captures)),
      Re.backtrack r (String " " s) c k = None) ->
  forall pos s,
    Re.match_at (Re.Seq (Re.Star sp) r) pos (String " " s) false
    = (fun m => Re.mkMatch pos (pos + S (Re.m_end m - Re.m_start m))
                  (Re.m_rest m) (Re.m_groups m) (Re.m_ngroups m))
        <$> Re.match_at (Re.Seq (Re.Star sp) r) pos s false.
Proof.
  intros Hr pos s.
  destruct (Re.match_at (Re.Seq (Re.Star sp) r) pos s false) as [m|] eqn:E.
  - pose proof (match_at_some _ _ _ _ _ E) as (Hs & He & Hlen & _).
    unfold Re.match_at in E |- *. rewrite (backtrack_space r Hr).
    cbn [andb] in E |- *.
    destruct (Re.backtrack _ s [] _) as [[s1 c1]|]; [|discriminate].
    inversion E; subst m; clear E. simpl in *. do 3 f_equal. lia.
  - unfold Re.match_at in E |- *. rewrite (backtrack_space r Hr).
    cbn [andb] in E |- *.
    now destruct (Re.backtrack _ s [] _) as [[s1 c1]|].
Qed.

Lemma network_re_leading_spaces : leading_spaces network_re.
Proof.
  eexists. split; [reflexivity|]. split; [intros; reflexivity | cbv; lia].
Qed.

Lemma var_re_leading_spaces : leading_spaces var_re.
Proof.
  eexists. split; [reflexivity|]. split; [intros; reflexivity | cbv; lia].
Qed.

Lemma prob_re_leading_spaces : leading_spaces prob_re.
Proof.
  eexists. split; [reflexivity|]. split; [intros; reflexivity | cbv; lia].
Qed.

Lemma finditer_spaces r n s :
  leading_spaces r ->
  map Re.m_groups (Re.finditer r (Str.spaces n ++ s)) = map Re.m_groups (Re.finditer r s).
Proof.
  intros (r' & -> & Hr & Hmin). induction n as [|n IH]; [reflexivity|].
  rewrite <- IH. unfold Re.finditer.
  change (Str.spaces (S n) ++ s) with (String " " (Str.spaces n ++ s)).
  apply scan_space; unfold Re.scan_bound; simpl; auto; lia.
Qed.

Lemma findall3_groups r s :
  Re.findall3 r s
  = map (fun c => (default EmptyString (Re.capture c 1),
                   default EmptyString (Re.capture c 2),
                   default EmptyString (Re.capture c 3)))
        (map Re.m_groups (Re.finditer r s)).
Proof. unfold Re.findall3. now rewrite map_map. Qed.

Lemma findall3_spaces r n s :
  leading_spaces r -> Re.findall3 r (Str.spaces n ++ s) = Re.findall3 r s.
Proof. intros H. now rewrite !findall3_groups, finditer_spaces. Qed.

Lemma group_spaces r n s i :
  leading_spaces r ->
  group (Re.re_match r (Str.spaces n ++ s)) i = group (Re.re_match r s) i.
Proof.
  intros (r' & -> & Hr & Hmin). induction n as [|n IH]; [reflexivity|].
  rewrite <- IH. unfold Re.re_match.
  change (Str.spaces (S n) ++ s) with (String " " (Str.spaces n ++ s)).
  rewrite (match_at_space r' Hr).
  now destruct (Re.match_at _ 0 (Str.spaces n ++ s) false).
Qed.

(** ** Loops and exceptions *)

Lemma bind_ok {A B : Type} (m : result A) (f : A -> result B) (y : B) :
  (m ≫= f) = Ok y -> exists a, m = Ok a /\ f a = Ok y.
Proof. destruct m as [a|e]; simpl; [eauto | discriminate]. Qed.

Lemma for_each_invariant {S A : Type} (I : S -> Prop) (body : S -> A -> result S) :
  forall l st st',
    (forall s x s', In x l -> I s -> body s x = Ok s' -> I s') ->
    I st -> for_each body l st = Ok st' -> I st'.
Proof.
  induction l as [|x l IH]; intros st st' Hstep Hst H; simpl in H.
  - now inversion H; subst.
  - apply bind_ok in H. destruct H as (s1 & H1 & H2).
    apply (IH s1); auto.
    + intros s y s' Hy. apply Hstep. now right.
    + apply (Hstep st x); auto. now left.
Qed.

(** A loop raises when one of its rounds raises in every state the loop can
    be in. *)
Lemma for_each_raises {S A : Type} (I : S -> Prop) (body : S -> A -> result S) (x0 : A) :
  forall l st,
    (forall s x s', In x l -> I s -> body s x = Ok s' -> I s') ->
    (forall s, I s -> exists e, body s x0 = Raise e) ->
    I st -> In x0 l -> exists e, for_each body l st = Raise e.
Proof.
  induction l as [|x l IH]; intros st Hstep Hbad Hst Hin; [destruct Hin|].
  simpl. destruct (body st x) as [s1|e] eqn:E; simpl; [|eauto].
  destruct Hin as [->|Hin].
  - destruct (Hbad st Hst) as (e & He). congruence.
  - apply IH; auto.
    + intros s y s' Hy. apply Hstep. now right.
    + apply (Hstep st x); auto. now left.
Qed.

Lemma collect_length {A B : Type} (f : A -> result B) :
  forall l ys, collect f l = Ok ys -> length ys = length l.
Proof.
  induction l as [|x l IH]; intros ys H; simpl in H.
  - now inversion H.
  - apply bind_ok in H. destruct H as (y & _ & H).
    apply bind_ok in H. destruct H as (ys' & H & H').
    inversion H'; subst. simpl. f_equal. now apply IH.
Qed.

Lemma collect_raises {A B : Type} (f : A -> result B) (x0 : A) :
  forall l, In x0 l -> (exists e, f x0 = Raise e) -> exists e, collect f l = Raise e.
Proof.
  induction l as [|x l IH]; intros Hin (e0 & He0); [destruct Hin|].
  simpl. destruct Hin as [->|Hin].
  - rewrite He0. simpl. eauto.
  - destruct (f x) as [y|e]; simpl; [|eauto].
    destruct (IH Hin) as (e & ->); simpl; eauto.
Qed.

(** ** [get_variable] *)

Lemma get_variable_in_none vars name :
  BayesianNetwork.get_variable_in vars name = None <-> ~ In name (map Var.name vars).
Proof.
  induction vars as [|v vars IH]; simpl; [tauto|].
  destruct (String.eqb_spec (Var.name v) name) as [Heq|Hne].
  - split; [discriminate | intros H; exfalso; apply H; now left].
  - rewrite IH. tauto.
Qed.

Lemma get_variable_in_some vars name v :
  BayesianNetwork.get_variable_in vars name = Some v -> In v vars /\ Var.name v = name.
Proof.
  induction vars as [|w vars IH]; simpl; [discriminate|].
  destruct (String.eqb_spec (Var.name w) name) as [Heq|Hne].
  - intros H; inversion H; subst. auto.
  - intros H. apply IH in H. tauto.
Qed.

(** The reference is to the object [get_variable] returns. *)
Lemma get_variable_ref_in_spec vars name :
  BayesianNetwork.get_variable_in vars name
  = i ← BayesianNetwork.get_variable_ref_in vars name; vars !! i.
Proof.
  induction vars as [|v vars IH]; simpl; [reflexivity|].
  destruct (String.eqb (Var.name v) name); [reflexivity|].
  rewrite IH. now destruct (BayesianNetwork.get_variable_ref_in vars name).
Qed.

Lemma get_variable_ref_in_none vars name :
  ~ In name (map Var.name vars) -> BayesianNetwork.get_variable_ref_in vars name = None.
Proof.
  induction vars as [|v vars IH]; simpl; [reflexivity|]. intros H.
  destruct (String.eqb_spec (Var.name v) name) as [Heq|Hne]; [tauto|].
  rewrite IH; [reflexivity | tauto].
Qed.

Lemma get_variable_ref_in_name vars name i v :
  BayesianNetwork.get_variable_ref_in vars name = Some i ->
  vars !! i = Some v -> Var.name v = name.
Proof.
  revert i. induction vars as [|w vars IH]; intros i; simpl; [discriminate|].
  destruct (String.eqb_spec (Var.name w) name) as [Heq|Hne].
  - intros H; inversion H; subst. simpl. intros H'; inversion H'; now subst.
  - destruct (BayesianNetwork.get_variable_ref_in vars name) as [j|]; [|discriminate].
    intros H; inversion H; subst. simpl. now apply IH.
Qed.

(** ** The builder keeps names and domains *)

Lemma setattr_ok self var attr set self' :
  BayesianNetwork.setattr self var attr set = Ok self' ->
  exists i, var = Some i /\
    self' = BayesianNetwork.mk (BayesianNetwork.name self)
              (alter set i (BayesianNetwork.variables self)).
Proof. destruct var as [i|]; simpl; intros H; inversion H; eauto. Qed.

Lemma shape_alter (set : Var.t -> Var.t) :
  (forall v, Var.name (set v) = Var.name v /\ Var.domain (set v) = Var.domain v) ->
  forall i vars,
    map (fun v => (Var.name v, Var.domain v)) (alter set i vars)
    = map (fun v => (Var.name v, Var.domain v)) vars.
Proof.
  intros Hset i vars. revert i.
  induction vars as [|v vars IH]; intros [|i]; simpl; try reflexivity.
  - destruct (Hset v) as [-> ->]. reflexivity.
  - f_equal. apply IH.
Qed.

Lemma parse_variables_spec self content :
  BayesianNetwork.parse_variables self content
  = BayesianNetwork.mk (BayesianNetwork.name self)
      (BayesianNetwork.variables self
       ++ map (fun '(_name, _, _values) =>
                 Var.init _name (map Str.strip (Str.split "," _values)))
              (Re.findall3 var_re content)).
Proof.
  unfold BayesianNetwork.parse_variables.
  generalize (Re.findall3 var_re content) as l. intros l. revert self.
  induction l as [|[[n z] vals] l IH]; intros self; simpl.
  - rewrite app_nil_r. now destruct self.
  - rewrite IH. simpl. now rewrite <- app_assoc.
Qed.

Lemma get_variable_ref_in_names vars vars' name :
  map Var.name vars = map Var.name vars' ->
  BayesianNetwork.get_variable_ref_in vars name
  = BayesianNetwork.get_variable_ref_in vars' name.
Proof.
  revert vars'. induction vars as [|v vars IH]; intros [|v' vars'] H; simpl in *;
    try discriminate; [reflexivity|].
  inversion H as [[Hn Ht]]. rewrite Hn.
  destruct (String.eqb (Var.name v') name); [reflexivity|]. now rewrite (IH vars').
Qed.

Lemma shape_names self self' :
  shape self' = shape self ->
  map Var.name (BayesianNetwork.variables self')
  = map Var.name (BayesianNetwork.variables self).
Proof.
  unfold shape. intros H.
  apply (f_equal (map fst)) in H. now rewrite !map_map in H.
Qed.

Lemma setattr_shape self var attr set self' :
  (forall v, Var.name (set v) = Var.name v /\ Var.domain (set v) = Var.domain v) ->
  BayesianNetwork.setattr self var attr set = Ok self' ->
  BayesianNetwork.name self' = BayesianNetwork.name self /\ shape self' = shape self.
Proof.
  intros Hset H. apply setattr_ok in H. destruct H as (i & _ & ->).
  split; [reflexivity|]. unfold shape. simpl. now apply shape_alter.
Qed.

Lemma parse_row_shape var self val self' :
  BayesianNetwork.parse_row var self val = Ok self' ->
  BayesianNetwork.name self' = BayesianNetwork.name self /\ shape self' = shape self.
Proof.
  unfold BayesianNetwork.parse_row. intros H.
  apply bind_ok in H. destruct H as (prob & _ & H).
  eapply setattr_shape; [|exact H]. intros v; split; reflexivity.
Qed.

Lemma parse_probability_shape self p self' :
  BayesianNetwork.parse_probability self p = Ok self' ->
  BayesianNetwork.name self' = BayesianNetwork.name self /\ shape self' = shape self.
Proof.
  destruct p as [[_name _parents] body]. unfold BayesianNetwork.parse_probability.
  destruct (negb (String.eqb _parents "")); intros H.
  - apply bind_ok in H. destruct H as (self1 & H1 & H).
    apply setattr_shape in H1; [|intros v; split; reflexivity].
    destruct H1 as [Hn Hs]. rewrite <- Hn, <- Hs.
    apply (for_each_invariant
             (fun s => BayesianNetwork.name s = BayesianNetwork.name self1
                       /\ shape s = shape self1)) in H; auto.
    intros s x s' _ [Hn1 Hs1] Hrow. apply parse_row_shape in Hrow.
    destruct Hrow as [-> ->]. auto.
  - apply bind_ok in H. destruct H as (text & _ & H).
    apply bind_ok in H. destruct H as (tb & _ & H).
    eapply setattr_shape; [|exact H]. intros v; split; reflexivity.
Qed.

Lemma parse_probabilities_shape self content self' :
  BayesianNetwork.parse_probabilities self content = Ok self' ->
  BayesianNetwork.name self' = BayesianNetwork.name self /\ shape self' = shape self.
Proof.
  unfold BayesianNetwork.parse_probabilities. intros H.
  apply (for_each_invariant
           (fun s => BayesianNetwork.name s = BayesianNetwork.name self
                     /\ shape s = shape self)) in H; auto.
  intros s x s' _ [Hn Hs] Hp. apply parse_probability_shape in Hp.
  destruct Hp as [-> ->]. auto.
Qed.

(** The header pattern has one group, so [group(1)] never raises
    [IndexError]: the [except] clause of [parse_network] is never entered. *)
Lemma parse_network_spec self content :
  BayesianNetwork.parse_network self content
  = match Re.re_match network_re content with
    | Some m => Ok (BayesianNetwork.set_name (Re.group_text m 1) self)
    | None => Raise (none_has_no "group")
    end.
Proof.
  unfold BayesianNetwork.parse_network, group, Re.re_match, Re.match_at.
  destruct (Re.backtrack network_re content [] _) as [[s1 c1]|]; reflexivity.
Qed.

(** ** Where the stored vectors come from *)

Lemma split_not_nil sep s : Str.split sep s <> [].
Proof.
  destruct s as [|c s]; simpl; [discriminate|].
  destruct (Ascii.eqb c sep); [discriminate|].
  destruct (Str.split sep s); discriminate.
Qed.

Lemma var_ok_init content name domain : var_ok content (Var.init name domain).
Proof.
  split; [|split]; simpl; auto. intros key prob H. now rewrite lookup_empty in H.
Qed.

Lemma parse_probability_var_ok content self p self' :
  In p (Re.findall3 prob_re content) ->
  Forall (var_ok content) (BayesianNetwork.variables self) ->
  BayesianNetwork.parse_probability self p = Ok self' ->
  Forall (var_ok content) (BayesianNetwork.variables self').
Proof.
  destruct p as [[_name _parents] body]. intros Hp Hok.
  unfold BayesianNetwork.parse_probability.
  destruct (String.eqb_spec _parents "") as [Hps|Hps]; simpl; intros H.
  - (* the table form *)
    subst _parents.
    apply bind_ok in H. destruct H as (text & Htext & H).
    apply bind_ok in H. destruct H as (tb & Htb & H).
    apply setattr_ok in H. destruct H as (i & Hi & ->). simpl.
    apply Forall_alter; [exact Hok|].
    intros x Hx (Hrows & Htable & Hpar).
    pose proof (get_variable_ref_in_name _ _ _ _ Hi Hx) as Hname.
    split; [exact Hrows|]. split; [|exact Hpar].
    right. exists body, text. simpl. rewrite Hname. auto.
  - (* the rows form *)
    apply bind_ok in H. destruct H as (self1 & H1 & H).
    apply setattr_ok in H1. destruct H1 as (i & Hi & ->).
    rewrite Hi in H.
    set (ps := map Str.strip (Str.split "," _parents)) in *.
    assert (Hps' : ps <> []).
    { unfold ps. intros E. apply map_eq_nil in E. now apply split_not_nil in E. }
    apply (for_each_invariant
             (fun s => Forall (var_ok content) (BayesianNetwork.variables s) /\
                       forall x, BayesianNetwork.variables s !! i = Some x ->
                                 Var.name x = _name /\ Var.parents x <> [])) in H.
    + apply H.
    + intros s row s' Hrow [Hs Hsi] Hstep.
      unfold BayesianNetwork.parse_row in Hstep.
      apply bind_ok in Hstep. destruct Hstep as (prob & Hprob & Hstep).
      apply setattr_ok in Hstep. destruct Hstep as (j & Hj & ->).
      inversion Hj; subst j; clear Hj. simpl. split.
      * apply Forall_alter; [exact Hs|].
        intros x Hx (Hrows & Htable & Hpar). destruct (Hsi x Hx) as [Hname Hne].
        split; [|split]; simpl; [|exact Htable|tauto].
        intros key prob'. rewrite lookup_insert. case_decide as Hkey.
        -- intros E; inversion E; subst prob'; clear E.
           exists _parents, body, row. simpl. rewrite Hname. auto.
        -- apply Hrows.
      * intros x Hx. rewrite list_lookup_alter_eq in Hx.
        destruct (BayesianNetwork.variables s !! i) as [x0|] eqn:E; [|discriminate].
        inversion Hx; subst x. simpl. now apply Hsi.
    + simpl. split.
      * apply Forall_alter; [exact Hok|].
        intros x Hx (Hrows & Htable & Hpar). split; [|split]; simpl; auto. tauto.
      * intros x Hx. rewrite list_lookup_alter_eq in Hx.
        destruct (BayesianNetwork.variables self !! i) as [x0|] eqn:E; [|discriminate].
        inversion Hx; subst x. simpl. split; [|exact Hps'].
        now apply (get_variable_ref_in_name _ _ _ _ Hi E).
Qed.

Lemma init_ok content net :
  BayesianNetwork.init content = Ok net ->
  exists m,
    Re.re_match network_re content = Some m /\
    BayesianNetwork.name net = Re.group_text m 1 /\
    shape net
    = map (fun '(_name, _, _values) => (_name, map Str.strip (Str.split "," _values)))
          (Re.findall3 var_re content) /\
    Forall (var_ok content) (BayesianNetwork.variables net).
Proof.
  unfold BayesianNetwork.init, BayesianNetwork.parse_file. intros H.
  apply bind_ok in H. destruct H as (self1 & H1 & H).
  rewrite parse_network_spec in H1.
  destruct (Re.re_match network_re content) as [m|]; [|discriminate].
  inversion H1; subst self1; clear H1. exists m. split; [reflexivity|].
  rewrite parse_variables_spec in H. simpl in H.
  pose proof (parse_probabilities_shape _ _ _ H) as [Hn Hs].
  split; [exact Hn|]. split.
  - rewrite Hs. unfold shape. simpl. rewrite map_map.
    apply map_ext. now intros [[n z] vals].
  - unfold BayesianNetwork.parse_probabilities in H.
    apply (for_each_invariant
             (fun s => Forall (var_ok content) (BayesianNetwork.variables s))) in H; auto.
    + intros s p s' Hp Hs' Hstep. eapply parse_probability_var_ok; eauto.
    + simpl. apply List.Forall_forall. intros v Hv. apply in_map_iff in Hv.
      destruct Hv as ([[n z] vals] & <- & _). apply var_ok_init.
Qed.

(** ** Groups that take part in every match *)

Lemma star_rounds_captures {A : Type}
    (body : string -> Re.captures -> (string -> Re.captures -> option A) -> option A)
    (k : string -> Re.captures -> option A) (n : nat) :
  (forall s c k' x, body s c k' = Some x ->
     exists s1 c1, k' s1 c1 = Some x /\
                   (is_Some (Re.capture c n) -> is_Some (Re.capture c1 n))) ->
  forall fuel s c x,
    Re.star_rounds body k fuel s c = Some x ->
    exists s1 c1, k s1 c1 = Some x /\
                  (is_Some (Re.capture c n) -> is_Some (Re.capture c1 n)).
Proof.
  intros Hbody fuel. induction fuel as [|fuel IH]; intros s c x H; simpl in H.
  - exists s, c. auto.
  - destruct (body s c _) as [y|] eqn:E.
    + inversion H; subst y. apply Hbody in E. destruct E as (s1 & c1 & E1 & Hc1).
      destruct (Nat.ltb _ _); [|discriminate].
      apply IH in E1. destruct E1 as (s2 & c2 & E2 & Hc2).
      exists s2, c2. auto.
    + exists s, c. auto.
Qed.

Lemma backtrack_sets {A : Type} (r : Re.regex) (n : nat) :
  forall s c (k : string -> Re.captures -> option A) x,
    Re.backtrack r s c k = Some x ->
    exists s1 c1,
      k s1 c1 = Some x /\
      (is_Some (Re.capture c n) \/ Re.sets r n = true -> is_Some (Re.capture c1 n)).
Proof.
  induction r as [|set|r1 IH1 r2 IH2|r1 IH1 r2 IH2|r1 IH1|i r1 IH1]; intros s c k x H; simpl in *.
  - exists s, c. split; [exact H|]. intros [Hc|Hf]; [exact Hc | discriminate].
  - destruct s as [|a rest]; [discriminate|].
    destruct (set a); [|discriminate].
    exists rest, c. split; [exact H|]. intros [Hc|Hf]; [exact Hc | discriminate].
  - apply IH1 in H. destruct H as (s1 & c1 & H1 & Hc1).
    apply IH2 in H1. destruct H1 as (s2 & c2 & H2 & Hc2).
    exists s2, c2. split; [exact H2|]. intros [Hc|Hs].
    + apply Hc2. left. apply Hc1. now left.
    + apply orb_true_iff in Hs. destruct Hs as [Hs|Hs].
      * apply Hc2. left. apply Hc1. now right.
      * apply Hc2. now right.
  - destruct (Re.backtrack r1 s c k) as [y|] eqn:E.
    + inversion H; subst y. apply IH1 in E. destruct E as (s1 & c1 & E1 & Hc1).
      exists s1, c1. split; [exact E1|]. intros [Hc|Hs]; apply Hc1; [now left|].
      apply andb_true_iff in Hs. now right.
    + apply IH2 in H. destruct H as (s1 & c1 & E1 & Hc1).
      exists s1, c1. split; [exact E1|]. intros [Hc|Hs]; apply Hc1; [now left|].
      apply andb_true_iff in Hs. now right.
  - apply (star_rounds_captures _ _ n) in H.
    + destruct H as (s1 & c1 & H1 & Hc1). exists s1, c1. split; [exact H1|].
      intros [Hc|Hf]; [auto | discriminate].
    + intros s0 c0 k' x0 E. apply IH1 in E. destruct E as (s1 & c1 & E1 & Hc1).
      exists s1, c1. auto.
  - apply IH1 in H. destruct H as (s1 & c1 & H1 & Hc1).
    eexists _, _. split; [exact H1|]. simpl.
    destruct (Nat.eqb i n) eqn:E; [eauto|]. simpl. exact Hc1.
Qed.

(** When a pattern sets group [n] on every way through it, the group of a
    match is never the [None] of a group that took no part. *)
Lemma group_takes_part r n s m :
  Re.sets r n = true ->
  Re.re_match r s = Some m ->
  exists text, Re.capture (Re.m_groups m) n = Some text.
Proof.
  unfold Re.re_match, Re.match_at. intros Hsets H.
  destruct (Re.backtrack r s [] _) as [[s1 c1]|] eqn:E; [|discriminate].
  inversion H; subst m; clear H. simpl.
  apply (backtrack_sets r n) in E. destruct E as (s2 & c2 & E2 & Hc).
  simpl in E2. inversion E2; subst. apply Hc. now right.
Qed.

Lemma group1_takes_part s m :
  (Re.re_match network_re s = Some m \/ Re.re_match table_re s = Some m) ->
  exists text, Re.capture (Re.m_groups m) 1 = Some text /\ group (Some m) 1 = Ok text.
Proof.
  intros H.
  assert (Hng : Re.m_ngroups m = 1).
  { destruct H as [H|H]; unfold Re.re_match, Re.match_at in H;
      destruct (Re.backtrack _ s [] _) as [[s1 c1]|]; try discriminate;
      now inversion H. }
  assert (Hc : exists text, Re.capture (Re.m_groups m) 1 = Some text).
  { destruct H as [H|H]; eapply group_takes_part; try exact H; reflexivity. }
  destruct Hc as (text & Hc). exists text. split; [exact Hc|].
  unfold group, Re.group_text. now rewrite Hng, Hc.
Qed.

(** ** [strip] and [split] *)

Lemma lstrip_spec s : exists l, s = l ++ Str.lstrip s /\ Str.all_space l = true.
Proof.
  induction s as [|c s (l & Hl & Hall)]; [now exists ""|]. simpl.
  destruct (Str.isspace c) eqn:E.
  - exists (String c l). rewrite append_cons, <- Hl. simpl. now rewrite E.
  - now exists "".
Qed.

Lemma rstrip_spec s : exists r, s = Str.rstrip s ++ r /\ Str.all_space r = true.
Proof.
  induction s as [|c s (r & Hr & Hall)]; [now exists ""|]. simpl.
  destruct (Str.rstrip s) as [|d t] eqn:E.
  - destruct (Str.isspace c) eqn:Ec.
    + exists (String c s). split; [reflexivity|]. simpl. rewrite Ec. simpl.
      rewrite Hr. exact Hall.
    + exists r. rewrite Hr at 1. auto.
  - exists r. rewrite Hr at 1. auto.
Qed.

(** A string is what [strip] gives between two runs of blanks. *)
Lemma strip_spec s :
  exists l r, s = l ++ Str.strip s ++ r /\ Str.all_space l = true /\ Str.all_space r = true.
Proof.
  destruct (lstrip_spec s) as (l & Hl & Hall).
  destruct (rstrip_spec (Str.lstrip s)) as (r & Hr & Halr).
  exists l, r. unfold Str.strip. now rewrite <- Hr.
Qed.

Lemma lstrip_idempotent s : Str.lstrip (Str.lstrip s) = Str.lstrip s.
Proof.
  induction s as [|c s IH]; [reflexivity|]. simpl.
  destruct (Str.isspace c) eqn:E; [exact IH | simpl; now rewrite E].
Qed.

Lemma rstrip_idempotent s : Str.rstrip (Str.rstrip s) = Str.rstrip s.
Proof.
  induction s as [|c s IH]; [reflexivity|]. simpl.
  destruct (Str.rstrip s) as [|d t] eqn:E.
  - destruct (Str.isspace c) eqn:Ec; [reflexivity | simpl; now rewrite Ec].
  - change (Str.rstrip (String c (String d t))) with
      (match Str.rstrip (String d t) with
       | EmptyString => if Str.isspace c then EmptyString else String c EmptyString
       | r => String c r
       end).
    now rewrite IH.
Qed.

Lemma lstrip_rstrip s : Str.lstrip s = s -> Str.lstrip (Str.rstrip s) = Str.rstrip s.
Proof.
  destruct s as [|c s]; [reflexivity|]. simpl.
  destruct (Str.isspace c) eqn:E.
  - intros H. exfalso.
    destruct (lstrip_spec s) as (l & Hl & _).
    apply (f_equal String.length) in H. rewrite Hl in H at 2.
    simpl in H. rewrite length_append in H. lia.
  - intros _. destruct (Str.rstrip s); simpl; now rewrite E.
Qed.

(** What [strip] gives has no blank at either end. *)
Lemma strip_trimmed s : trimmed (Str.strip s).
Proof.
  unfold trimmed, Str.strip. split.
  - apply lstrip_rstrip, lstrip_idempotent.
  - apply rstrip_idempotent.
Qed.

(** The pieces [split] gives, joined by the separator, are the string, and
    none holds the separator. *)
Lemma split_join sep s : Str.join (String sep "") (Str.split sep s) = s.
Proof.
  induction s as [|c s IH]; [reflexivity|]. simpl.
  destruct (Ascii.eqb_spec c sep) as [->|Hne].
  - pose proof (split_not_nil sep s) as Hnil.
    destruct (Str.split sep s) as [|w ws]; [congruence|].
    change (Str.join (String sep "") ("" :: w :: ws))
      with ("" ++ String sep "" ++ Str.join (String sep "") (w :: ws)).
    now rewrite IH.
  - destruct (Str.split sep s) as [|w ws]; [now rewrite <- IH|].
    destruct ws as [|w' ws].
    + simpl in *. now rewrite IH.
    + change (Str.join (String sep "") (String c w :: w' :: ws))
        with (String c w ++ String sep "" ++ Str.join (String sep "") (w' :: ws)).
      change (Str.join (String sep "") (w :: w' :: ws))
        with (w ++ String sep "" ++ Str.join (String sep "") (w' :: ws)) in IH.
      now rewrite append_cons, IH.
Qed.

Lemma split_no_sep sep s : Forall (fun w => Str.mem sep w = false) (Str.split sep s).
Proof.
  induction s as [|c s IH]; simpl; [now repeat constructor|].
  destruct (Ascii.eqb_spec c sep) as [->|Hne].
  - now constructor.
  - destruct (Str.split sep s) as [|w ws]; constructor.
    + simpl. apply Ascii.eqb_neq in Hne. rewrite Ascii.eqb_sym, Hne. reflexivity.
    + constructor.
    + inversion IH; subst. simpl. apply Ascii.eqb_neq in Hne.
      now rewrite Ascii.eqb_sym, Hne.
    + now inversion IH.
Qed.

(** Blanks around a token do not change what [strip] gives. *)
Lemma lstrip_blanks l s : Str.all_space l = true -> Str.lstrip (l ++ s) = Str.lstrip s.
Proof.
  induction l as [|c l IH]; [reflexivity|]. rewrite append_cons. simpl.
  destruct (Str.isspace c); [exact IH | discriminate].
Qed.

Lemma rstrip_all_space r : Str.all_space r = true -> Str.rstrip r = "".
Proof.
  induction r as [|c r IH]; [reflexivity|]. simpl.
  destruct (Str.isspace c); [|discriminate]. intros H. now rewrite (IH H).
Qed.

Lemma rstrip_blanks s r : Str.all_space r = true -> Str.rstrip (s ++ r) = Str.rstrip s.
Proof.
  intros Hr. induction s as [|c s IH].
  - now rewrite append_empty_l, rstrip_all_space.
  - rewrite append_cons. simpl. now rewrite IH.
Qed.

Lemma lstrip_append s r :
  Str.lstrip s <> "" -> Str.lstrip (s ++ r) = Str.lstrip s ++ r.
Proof.
  induction s as [|c s IH]; [simpl; congruence|]. rewrite append_cons. simpl.
  destruct (Str.isspace c); [exact IH | reflexivity].
Qed.

Lemma lstrip_all_space s : Str.lstrip s = "" -> Str.all_space s = true.
Proof.
  induction s as [|c s IH]; [reflexivity|]. simpl.
  destruct (Str.isspace c); [exact IH | discriminate].
Qed.

Lemma all_space_append s r :
  Str.all_space s = true -> Str.all_space r = true -> Str.all_space (s ++ r) = true.
Proof.
  induction s as [|c s IH]; [now rewrite append_empty_l|]. rewrite append_cons. simpl.
  destruct (Str.isspace c); [exact IH | discriminate].
Qed.

Lemma all_space_lstrip s : Str.all_space s = true -> Str.lstrip s = "".
Proof.
  induction s as [|c s IH]; [reflexivity|]. simpl.
  destruct (Str.isspace c); [exact IH | discriminate].
Qed.

Lemma strip_blanks l s r :
  Str.all_space l = true -> Str.all_space r = true ->
  Str.strip (l ++ s ++ r) = Str.strip s.
Proof.
  intros Hl Hr. unfold Str.strip. rewrite (lstrip_blanks l _ Hl).
  destruct (Str.lstrip s) as [|c t] eqn:E.
  - apply lstrip_all_space in E.
    now rewrite (all_space_lstrip _ (all_space_append _ _ E Hr)).
  - rewrite lstrip_append by congruence. rewrite E. now apply rstrip_blanks.
Qed.

(** ** The matches [finditer] lists are in the order of the text *)



(** ** The claims *)


(** A round of [parse_probabilities] that raises in every state with the
    declared variables makes the construction raise. *)
Lemma init_raises content p :
  In p (Re.findall3 prob_re content) ->
  (forall self,
      map Var.name (BayesianNetwork.variables self) = declared content ->
      exists e, BayesianNetwork.parse_probability self p = Raise e) ->
  exists e, BayesianNetwork.init content = Raise e.
Proof.
  intros Hp Hbad. unfold BayesianNetwork.init, BayesianNetwork.parse_file.
  destruct (BayesianNetwork.parse_network _ content) as [self1|e] eqn:E; simpl; [|eauto].
  rewrite parse_network_spec in E.
  destruct (Re.re_match network_re content) as [m|]; [|discriminate].
  inversion E; subst self1; clear E.
  rewrite parse_variables_spec. simpl.
  unfold BayesianNetwork.parse_probabilities.
  set (self0 := BayesianNetwork.mk _ _).
  apply (for_each_raises (fun s => shape s = shape self0)) with (x0 := p); auto.
  - intros s x s' _ Hs Hstep. apply parse_probability_shape in Hstep.
    destruct Hstep as [_ ->]. exact Hs.
  - intros s Hs. apply Hbad. rewrite (shape_names _ _ Hs). unfold self0, declared. simpl.
    rewrite !map_map. apply map_ext. now intros [[n z] vals].
Qed.

Lemma float_cases s :
  (exists x, float s = Ok x) \/ (exists msg, float s = Raise (ValueError msg)).
Proof. unfold float. destruct (Float.parse s); eauto. Qed.

Lemma floats_raises text :
  bad_number text -> exists msg, BayesianNetwork.floats text = Raise (ValueError msg).
Proof.
  intros (token & Hin & Hbad). unfold BayesianNetwork.floats.
  revert Hin. induction (Str.split "," text) as [|x l IH]; intros Hin; [destruct Hin|].
  change (exists msg,
             (y ← float (Str.strip x);
              ys ← collect (fun v => float (Str.strip v)) l; Ok (y :: ys))
             = Raise (ValueError msg)).
  destruct Hin as [->|Hin].
  - unfold float. rewrite Hbad. simpl. eauto.
  - destruct (float_cases (Str.strip x)) as [(y & ->)|(msg & ->)]; simpl; [|eauto].
    destruct (IH Hin) as (msg & ->). simpl. eauto.
Qed.

(** C1. For a variable of a constructed network: when the tuple of the
    assignment is a key of [probabilities], [get_probability] returns the
    stored vector, which is the list of floats parsed from the numeric list of
    a row of the text whose stripped assignment is that tuple, in a
    declaration with parents for this variable; when it is no key,
    [get_probability] raises a [KeyError] whose message holds the tuple as
    Python prints it. *)
Theorem get_probability_parsed (content : string) (net : BayesianNetwork.t)
    (v : Var.t) (assignment : list string) :
  BayesianNetwork.init content = Ok net ->
  In v (BayesianNetwork.variables net) ->
  match Var.probabilities v !! assignment with
  | Some prob =>
      Var.get_probability v assignment = Ok prob /\
      row_source content v assignment prob
  | None =>
      Var.get_probability v assignment
      = Raise (KeyError ("Key (" ++ Str.tuple_repr assignment
                         ++ ") is not an assignment for this variable."))
  end.
Proof.
  intros H Hv. apply init_ok in H. destruct H as (m & _ & _ & _ & Hok).
  rewrite List.Forall_forall in Hok. destruct (Hok v Hv) as (Hrows & _ & _).
  unfold Var.get_probability.
  destruct (Var.probabilities v !! assignment) as [prob|] eqn:E.
  - split; [reflexivity | now apply Hrows].
  - reflexivity.
Qed.

(** C4. [get_variable] with a name that no variable of the network has
    returns [None]; it has no way to raise. *)
Theorem get_variable_absent (self : BayesianNetwork.t) (name : string) :
  ~ In name (map Var.name (BayesianNetwork.variables self)) ->
  BayesianNetwork.get_variable self name = None.
Proof. intros H. now apply get_variable_in_none. Qed.

(** C10. For a variable with no parents and an empty [probabilities],
    [get_probability] raises [KeyError] whatever the assignment; and whatever
    is put in the table the result is the same: the table is never looked
    at. *)
Theorem get_probability_without_parents (v : Var.t) (assignment : list string) :
  Var.parents v = [] ->
  Var.probabilities v = ∅ ->
  Var.get_probability v assignment
  = Raise (KeyError ("Key (" ++ Str.tuple_repr assignment
                     ++ ") is not an assignment for this variable.")) /\
  forall tb,
    Var.get_probability (Var.set_table tb v) assignment = Var.get_probability v assignment.
Proof.
  intros _ Hprob. unfold Var.get_probability. simpl. rewrite Hprob, lookup_empty. auto.
Qed.

(** In a constructed network a variable with no parents has an empty
    [probabilities]. *)
Lemma no_parents_no_probabilities content net v :
  BayesianNetwork.init content = Ok net ->
  In v (BayesianNetwork.variables net) ->
  Var.parents v = [] -> Var.probabilities v = ∅.
Proof.
  intros H Hv. apply init_ok in H. destruct H as (m & _ & _ & _ & Hok).
  rewrite List.Forall_forall in Hok. now destruct (Hok v Hv) as (_ & _ & Hpar).
Qed.

(** C7, as amended. A numeric list that the builder reads is group 1 of the
    table statement matched at the start of the body of a captured
    declaration without parents, or group 2 of a row found in the body of a
    captured declaration with parents.  When such a list has a token that is
    no number once stripped, converting the list raises [ValueError] and the
    construction raises: no network is returned. *)
Theorem invalid_number_raises (content text : string) :
  numeric_list content text ->
  bad_number text ->
  (exists msg, BayesianNetwork.floats text = Raise (ValueError msg)) /\
  exists e, BayesianNetwork.init content = Raise e.
Proof.
  intros Hlist Hbad. pose proof (floats_raises text Hbad) as (msg & Hmsg).
  split; [eauto|].
  destruct Hlist as [(_name & body & Hp & Htext)
                    |(_name & _parents & body & row & Hp & Hne & Hrow & Htext)].
  - apply (init_raises content _ Hp). intros self _.
    unfold BayesianNetwork.parse_probability. simpl.
    rewrite Htext. simpl. rewrite Hmsg. simpl. eauto.
  - apply (init_raises content _ Hp). intros self _.
    unfold BayesianNetwork.parse_probability.
    apply String.eqb_neq in Hne. rewrite Hne. simpl.
    destruct (BayesianNetwork.setattr self _ "parents" _) as [self1|e]; simpl; [|eauto].
    apply (for_each_raises (fun _ => True)) with (x0 := row); auto.
    intros s _. unfold BayesianNetwork.parse_row. rewrite Htext, Hmsg. simpl. eauto.
Qed.

(** C5, as amended. In a constructed network every stored vector has as many
    entries as the numeric list it was parsed from has comma-separated
    tokens: the table is empty or comes from the table statement of a
    declaration without parents for the variable, and each value of
    [probabilities] comes from a row of a declaration with parents for the
    variable.  The length of the domain plays no part. *)
Theorem vector_lengths (content : string) (net : BayesianNetwork.t) (v : Var.t) :
  BayesianNetwork.init content = Ok net ->
  In v (BayesianNetwork.variables net) ->
  (Var.table v = [] \/
   exists body text,
     In (Var.name v, "", body) (Re.findall3 prob_re content) /\
     group (Re.re_match table_re body) 1 = Ok text /\
     length (Var.table v) = length (Str.split "," text)) /\
  forall key prob,
    Var.probabilities v !! key = Some prob ->
    exists _parents body row,
      In (Var.name v, _parents, body) (Re.findall3 prob_re content) /\
      _parents <> "" /\
      In row (Re.findall2 parents_re body) /\
      map Str.strip (Str.split "," (fst row)) = key /\
      length prob = length (Str.split "," (snd row)).
Proof.
  intros H Hv. apply init_ok in H. destruct H as (m & _ & _ & _ & Hok).
  rewrite List.Forall_forall in Hok. destruct (Hok v Hv) as (Hrows & Htable & _).
  split.
  - destruct Htable as [Hnil|(body & text & Hp & Htext & Hfloats)]; [now left|].
    right. exists body, text. repeat split; auto.
    now apply collect_length in Hfloats.
  - intros key prob Hkey.
    destruct (Hrows key prob Hkey) as (_parents & body & row & Hp & Hne & Hrow & Hk & Hfloats).
    exists _parents, body, row. repeat split; auto.
    now apply collect_length in Hfloats.
Qed.

(** C6, as amended. When [prob_re.findall] captures a declaration whose
    captured target is not among the names that [var_re.findall] captures,
    the construction raises. *)
Theorem undeclared_target_raises (content _name _parents body : string) :
  In (_name, _parents, body) (Re.findall3 prob_re content) ->
  ~ In _name (declared content) ->
  exists e, BayesianNetwork.init content = Raise e.
Proof.
  intros Hp Hundeclared. apply (init_raises content _ Hp). intros self Hnames.
  assert (Hnone : BayesianNetwork.get_variable_ref self _name = None).
  { apply get_variable_ref_in_none. now rewrite Hnames. }
  unfold BayesianNetwork.parse_probability. rewrite Hnone.
  destruct (negb (String.eqb _parents "")); simpl; [eauto|].
  destruct (group _ 1) as [text|e]; simpl; [|eauto].
  destruct (BayesianNetwork.floats text) as [tb|e]; simpl; eauto.
Qed.

(** What the unresolved target raises when nothing raises before it: the
    [AttributeError] of an attribute of [None]. *)
Lemma undeclared_target_with_parents self _name _parents body :
  BayesianNetwork.get_variable self _name = None ->
  _parents <> "" ->
  BayesianNetwork.parse_probability self (_name, _parents, body)
  = Raise (AttributeError "'NoneType' object has no attribute 'parents'").
Proof.
  intros Hnone Hne. unfold BayesianNetwork.parse_probability.
  apply String.eqb_neq in Hne. rewrite Hne. simpl.
  unfold BayesianNetwork.get_variable in Hnone.
  rewrite get_variable_in_none in Hnone.
  unfold BayesianNetwork.get_variable_ref.
  now rewrite (get_variable_ref_in_none _ _ Hnone).
Qed.

(** C2, as amended. When [prob_re.findall] captures a declaration with an
    empty parents group whose captured body [table_re.match] does not match,
    the construction raises. *)
Theorem malformed_table_body_raises (content _name body : string) :
  In (_name, "", body) (Re.findall3 prob_re content) ->
  Re.re_match table_re body = None ->
  exists e, BayesianNetwork.init content = Raise e.
Proof.
  intros Hp Hnone. apply (init_raises content _ Hp). intros self _.
  unfold BayesianNetwork.parse_probability. rewrite Hnone. simpl. eauto.
Qed.

(** The exception of that round is the [AttributeError] of [None.group]. *)
Lemma malformed_table_body_round self _name body :
  Re.re_match table_re body = None ->
  BayesianNetwork.parse_probability self (_name, "", body)
  = Raise (AttributeError "'NoneType' object has no attribute 'group'").
Proof. intros Hnone. unfold BayesianNetwork.parse_probability. now rewrite Hnone. Qed.

(** A declaration with parents whose body has no row raises nothing: the
    round sets the parents and leaves the rest. *)
Lemma no_rows_round self _name _parents body i :
  _parents <> "" ->
  Re.findall2 parents_re body = [] ->
  BayesianNetwork.get_variable_ref self _name = Some i ->
  BayesianNetwork.parse_probability self (_name, _parents, body)
  = Ok (BayesianNetwork.mk (BayesianNetwork.name self)
          (alter (Var.set_parents (map Str.strip (Str.split "," _parents))) i
                 (BayesianNetwork.variables self))).
Proof.
  intros Hne Hrows Hi. unfold BayesianNetwork.parse_probability.
  apply String.eqb_neq in Hne. now rewrite Hne, Hrows, Hi.
Qed.

(** Spaces before the first token of the text change nothing: the
    construction gives the same network, or raises the same exception, with
    and without them. *)
Theorem leading_spaces_insensitive (n : nat) (content : string) :
  BayesianNetwork.init (Str.spaces n ++ content) = BayesianNetwork.init content.
Proof.
  unfold BayesianNetwork.init, BayesianNetwork.parse_file,
    BayesianNetwork.parse_network, BayesianNetwork.parse_variables,
    BayesianNetwork.parse_probabilities.
  rewrite (group_spaces network_re n content 1 network_re_leading_spaces).
  rewrite (findall3_spaces var_re n content var_re_leading_spaces).
  rewrite (findall3_spaces prob_re n content prob_re_leading_spaces).
  reflexivity.
Qed.

(** C3. Without a header at the start of the text [network_re.match] gives
    [None], [None.group(1)] raises [AttributeError], which [except IndexError]
    does not catch: the construction raises and the name is never defaulted. *)
Theorem missing_header_raises :
  Re.re_match network_re no_header = None /\
  BayesianNetwork.init no_header
  = Raise (AttributeError "'NoneType' object has no attribute 'group'").
Proof. split; vm_compute; reflexivity. Qed.

Lemma no_header_raises content :
  Re.re_match network_re content = None ->
  BayesianNetwork.init content
  = Raise (AttributeError "'NoneType' object has no attribute 'group'").
Proof.
  intros H. unfold BayesianNetwork.init, BayesianNetwork.parse_file.
  now rewrite parse_network_spec, H.
Qed.

(** ** The claims on the sample texts *)

Lemma get_probability_parsed_witness :
  BayesianNetwork.init earthquake = Ok earthquake_net /\
  In alarm (BayesianNetwork.variables earthquake_net) /\
  match Var.probabilities alarm !! ["True"; "True"] with
  | Some prob =>
      Var.get_probability alarm ["True"; "True"] = Ok prob /\
      row_source earthquake alarm ["True"; "True"] prob
  | None =>
      Var.get_probability alarm ["True"; "True"]
      = Raise (KeyError ("Key (" ++ Str.tuple_repr ["True"; "True"]
                         ++ ") is not an assignment for this variable."))
  end.
Proof.
  assert (H1 : BayesianNetwork.init earthquake = Ok earthquake_net)
    by (vm_compute; reflexivity).
  assert (H2 : In alarm (BayesianNetwork.variables earthquake_net))
    by (vm_compute; do 2 right; left; reflexivity).
  exact (conj H1 (conj H2 (get_probability_parsed earthquake earthquake_net alarm ["True"; "True"] H1 H2))).
Defined.

Lemma get_variable_absent_witness :
  ~ In "JohnCalls" (map Var.name (BayesianNetwork.variables earthquake_net)) /\
  BayesianNetwork.get_variable earthquake_net "JohnCalls" = None.
Proof.
  assert (H : ~ In "JohnCalls" (map Var.name (BayesianNetwork.variables earthquake_net)))
    by (vm_compute; intros [H|[H|[H|[]]]]; discriminate).
  exact (conj H (get_variable_absent earthquake_net "JohnCalls" H)).
Defined.

Lemma get_probability_without_parents_witness :
  Var.parents burglary = [] /\
  Var.probabilities burglary = ∅ /\
  Var.get_probability burglary ["True"]
  = Raise (KeyError ("Key (" ++ Str.tuple_repr ["True"]
                     ++ ") is not an assignment for this variable.")) /\
  forall tb,
    Var.get_probability (Var.set_table tb burglary) ["True"]
    = Var.get_probability burglary ["True"].
Proof.
  assert (H1 : Var.parents burglary = []) by (vm_compute; reflexivity).
  assert (H2 : Var.probabilities burglary = ∅) by (vm_compute; reflexivity).
  exact (conj H1 (conj H2 (get_probability_without_parents burglary ["True"] H1 H2))).
Defined.

Lemma invalid_number_raises_witness :
  numeric_list bad_number_text "0.5, x" /\
  bad_number "0.5, x" /\
  (exists msg, BayesianNetwork.floats "0.5, x" = Raise (ValueError msg)) /\
  exists e, BayesianNetwork.init bad_number_text = Raise e.
Proof.
  assert (H1 : numeric_list bad_number_text "0.5, x").
  { left. exists "A", "  table 0.5, x;".
    split; [vm_compute; left; reflexivity | vm_compute; reflexivity]. }
  assert (H2 : bad_number "0.5, x").
  { exists " x". split; [vm_compute; right; left; reflexivity | vm_compute; reflexivity]. }
  exact (conj H1 (conj H2 (invalid_number_raises bad_number_text "0.5, x" H1 H2))).
Defined.


Lemma vector_lengths_witness :
  BayesianNetwork.init earthquake = Ok earthquake_net /\
  In alarm (BayesianNetwork.variables earthquake_net) /\
  (Var.table alarm = [] \/
   exists body text,
     In (Var.name alarm, "", body) (Re.findall3 prob_re earthquake) /\
     group (Re.re_match table_re body) 1 = Ok text /\
     length (Var.table alarm) = length (Str.split "," text)) /\
  forall key prob,
    Var.probabilities alarm !! key = Some prob ->
    exists _parents body row,
      In (Var.name alarm, _parents, body) (Re.findall3 prob_re earthquake) /\
      _parents <> "" /\
      In row (Re.findall2 parents_re body) /\
      map Str.strip (Str.split "," (fst row)) = key /\
      length prob = length (Str.split "," (snd row)).
Proof.
  assert (H1 : BayesianNetwork.init earthquake = Ok earthquake_net)
    by (vm_compute; reflexivity).
  assert (H2 : In alarm (BayesianNetwork.variables earthquake_net))
    by (vm_compute; do 2 right; left; reflexivity).
  exact (conj H1 (conj H2 (vector_lengths earthquake earthquake_net alarm H1 H2))).
Defined.

Lemma undeclared_target_raises_witness :
  In ("Z", "", "  table abc;") (Re.findall3 prob_re undeclared_target) /\
  ~ In "Z" (declared undeclared_target) /\
  exists e, BayesianNetwork.init undeclared_target = Raise e.
Proof.
  assert (H1 : In ("Z", "", "  table abc;") (Re.findall3 prob_re undeclared_target))
    by (vm_compute; left; reflexivity).
  assert (H2 : ~ In "Z" (declared undeclared_target))
    by (vm_compute; intros [H|[]]; discriminate).
  exact (conj H1 (conj H2 (undeclared_target_raises undeclared_target "Z" "" "  table abc;" H1 H2))).
Defined.

Lemma malformed_table_body_raises_witness :
  In ("A", "", "  nothing to see here") (Re.findall3 prob_re no_table) /\
  Re.re_match table_re "  nothing to see here" = None /\
  exists e, BayesianNetwork.init no_table = Raise e.
Proof.
  assert (H1 : In ("A", "", "  nothing to see here") (Re.findall3 prob_re no_table))
    by (vm_compute; left; reflexivity).
  assert (H2 : Re.re_match table_re "  nothing to see here" = None)
    by (vm_compute; reflexivity).
  exact (conj H1 (conj H2 (malformed_table_body_raises no_table "A" "  nothing to see here" H1 H2))).
Defined.

(** C2 fails on [no_rows]: the body of the declaration for [A] matches neither
    form, and the construction completes, with the table and the mapping of
    [A] empty.  It fails on [empty_body] too: [prob_re.findall] does not
    capture the declaration, and the construction completes. *)
Lemma no_rows_completes :
  In ("A", "B ", "  nothing to see here") (Re.findall3 prob_re no_rows) /\
  Re.re_match table_re "  nothing to see here" = None /\
  Re.findall2 parents_re "  nothing to see here" = [] /\
  BayesianNetwork.init no_rows
  = Ok (BayesianNetwork.mk "N"
          [Var.mk "A" ["True"; "False"] ∅ ["B"] [];
           Var.mk "B" ["True"; "False"] ∅ [] []]) /\
  Re.findall3 prob_re empty_body = [] /\
  BayesianNetwork.init empty_body
  = Ok (BayesianNetwork.mk "N" [Var.mk "A" ["True"; "False"] ∅ [] []]).
Proof.
  split; [vm_compute; left; reflexivity|].
  repeat split; vm_compute; reflexivity.
Qed.

(** C5 fails on [short_table]: the table of [A] has one entry for a domain of
    two labels, and [B], with no declaration, has none. *)
Lemma short_table_lengths :
  BayesianNetwork.init short_table
  = Ok (BayesianNetwork.mk "N"
          [Var.mk "A" ["True"; "False"] ∅ [] [S754_finite false 4503599627370496 (-52)];
           Var.mk "B" ["True"; "False"] ∅ [] []]) /\
  BayesianNetwork.init short_table = Ok short_table_net /\
  In (variable_of short_table_net "A") (BayesianNetwork.variables short_table_net) /\
  Var.parents (variable_of short_table_net "A") = [] /\
  length (Var.table (variable_of short_table_net "A")) = 1 /\
  length (Var.domain (variable_of short_table_net "A")) = 2 /\
  length (Var.table (variable_of short_table_net "A"))
  <> length (Var.domain (variable_of short_table_net "A")) /\
  length (Var.table (variable_of short_table_net "B"))
  <> length (Var.domain (variable_of short_table_net "B")).
Proof.
  split; [vm_compute; reflexivity|]. split; [vm_compute; reflexivity|].
  split; [vm_compute; left; reflexivity|].
  repeat split; vm_compute; (reflexivity || discriminate).
Qed.

(** C6 fails on [undeclared_target]: the target [Z] is not declared, and the
    exception is the [ValueError] of the number, raised before the variable
    is used.  It fails on [undeclared_empty_body] too: [prob_re.findall] does
    not capture the declaration for [Z], and the construction completes. *)
Lemma undeclared_target_value_error :
  In ("Z", "", "  table abc;") (Re.findall3 prob_re undeclared_target) /\
  BayesianNetwork.get_variable
    (BayesianNetwork.parse_variables (BayesianNetwork.mk "N" []) undeclared_target) "Z"
  = None /\
  BayesianNetwork.init undeclared_target
  = Raise (ValueError "could not convert string to float: 'abc'") /\
  declared undeclared_empty_body = ["A"] /\
  Re.findall3 prob_re undeclared_empty_body = [] /\
  BayesianNetwork.init undeclared_empty_body
  = Ok (BayesianNetwork.mk "N" [Var.mk "A" ["True"; "False"] ∅ [] []]).
Proof.
  split; [vm_compute; left; reflexivity|].
  repeat split; vm_compute; reflexivity.
Qed.

(** C7 fails on [table_under_parents] and on [glued_row]: the token [abc] is
    no number, it stands in a table statement or in a row of the text, and
    the construction completes.  In the first text the declaration has
    parents, so its body is searched for rows and has none; in the second
    the row pattern wants a space after the key and finds the first row
    only. *)
Lemma unread_number_completes :
  Float.parse "abc" = None /\
  In ("A", "B ", "  table 0.5, abc;") (Re.findall3 prob_re table_under_parents) /\
  group (Re.re_match table_re "  table 0.5, abc;") 1 = Ok "0.5, abc" /\
  Re.findall2 parents_re "  table 0.5, abc;" = [] /\
  BayesianNetwork.init table_under_parents
  = Ok (BayesianNetwork.mk "N"
          [Var.mk "A" ["True"; "False"] ∅ ["B"] [];
           Var.mk "B" ["True"; "False"] ∅ [] []]) /\
  Re.findall2 parents_re (lines ["  (True) 0.5, 0.5;"] ++ "  (False)0.5, abc;")
  = [("True", "0.5, 0.5")] /\
  BayesianNetwork.init glued_row
  = Ok (BayesianNetwork.mk "N"
          [Var.mk "A" ["True"; "False"]
             {[ ["True"] := [S754_finite false 4503599627370496 (-53);
                             S754_finite false 4503599627370496 (-53)] ]}
             ["B"] [];
           Var.mk "B" ["True"; "False"] ∅ [] []]).
Proof.
  split; [vm_compute; reflexivity|].
  split; [vm_compute; left; reflexivity|].
  repeat split; vm_compute; reflexivity.
Qed.

(** C9 fails on [two_variables]: with a space between the opening brace of
    the declaration of [B] and the end of the line, [var_re] does not match
    the declaration; both texts are parsed, and the second network has no
    variable [B].  It fails on [header_only] too: with a blank line before the
    header, or with a space between the brace and the end of the line, the
    construction raises; without them it completes. *)
Lemma blank_line_before_header :
  BayesianNetwork.init two_variables
  = Ok (BayesianNetwork.mk "N"
          [Var.mk "A" ["True"; "False"] ∅ [] [];
           Var.mk "B" ["True"; "False"] ∅ [] []]) /\
  BayesianNetwork.init space_after_brace
  = Ok (BayesianNetwork.mk "N" [Var.mk "A" ["True"; "False"] ∅ [] []]) /\
  BayesianNetwork.init header_only = Ok (BayesianNetwork.mk "X" []) /\
  BayesianNetwork.init (LF ++ header_only)
  = Raise (AttributeError "'NoneType' object has no attribute 'group'") /\
  BayesianNetwork.init (lines ["network X { "; "}"])
  = Raise (AttributeError "'NoneType' object has no attribute 'group'").
Proof. repeat split; vm_compute; reflexivity. Qed.

(** ** The model on small inputs *)

Example strip_example : Str.strip "  True " = "True".
Proof. reflexivity. Qed.

Example strip_blanks_example :
  Str.strip (String "031" (" a b " ++ String "133" (String "160" ""))) = "a b".
Proof. reflexivity. Qed.

Example split_example : Str.split "," "a, b,,c" = ["a"; " b"; ""; "c"].
Proof. reflexivity. Qed.

Example split_empty_example : Str.split "," "" = [""].
Proof. reflexivity. Qed.

Example tuple_repr_one : Str.tuple_repr ["True"] = "('True',)".
Proof. reflexivity. Qed.

Example tuple_repr_quotes :
  Str.tuple_repr ["True"; "it's"]
  = "('True', " ++ String Str.dquote ("it's" ++ String Str.dquote ")").
Proof. reflexivity. Qed.

Example repr_escapes :
  Str.repr (String "010" (String "009" (String "127" (String "233" ""))))
  = "'" ++ String Str.backslash ("n" ++ String Str.backslash ("t" ++
      String Str.backslash ("x7f" ++ String "233" "'"))).
Proof. reflexivity. Qed.

Example float_hundredth : float "0.01" = Ok (S754_finite false 5764607523034235 (-59)).
Proof. vm_compute. reflexivity. Qed.

Example float_forms :
  float "1_000.5" = float "1000.5" /\
  float " 1.5 " = float "1.5" /\
  float ".5e1" = float "5" /\
  float "1e400" = Ok (S754_infinity false) /\
  float "-InFiNiTy" = Ok (S754_infinity true) /\
  float "nan" = Ok S754_nan /\
  float "2.4e-324" = Ok (S754_zero false) /\
  float "2.5e-324" = Ok (S754_finite false 1 (-1074)) /\
  float "1.7976931348623157e308" = Ok (S754_finite false 9007199254740991 971) /\
  float ("1.5" ++ String "160" "") = float "1.5" /\
  Float.parse (String "028" "1.5") = None.
Proof. repeat split; vm_compute; reflexivity. Qed.

Example float_refused :
  map Float.parse ["1__0"; "_1"; "1_"; "1 .5"; "abc"; ""; "."; "1e"; "infi"; "0x10"; "--1"]
  = map (fun _ => None) (seq 0 11).
Proof. vm_compute. reflexivity. Qed.

Example header_name_with_spaces :
  group (Re.re_match network_re ("  network  a b  c {" ++ LF ++ LF ++ "  }")) 1 = Ok "a b  c".
Proof. vm_compute. reflexivity. Qed.

Example probability_without_spaces :
  Re.findall3 prob_re ("probability (A|B) {" ++ LF ++ "xx" ++ LF ++ "}") = [("A|B", "", "xx")].
Proof. vm_compute. reflexivity. Qed.

Example earthquake_declarations :
  map (fun m => (Re.m_start m, Re.m_end m, Re.group_text m 1, Re.group_text m 3))
      (Re.finditer var_re earthquake)
  = [(23, 83, "Burglary", "True, False ");
     (84, 146, "Earthquake", "True, False ");
     (147, 204, "Alarm", "True, False ")].
Proof. vm_compute. reflexivity. Qed.

Example earthquake_rows :
  map (fun p => Re.findall2 parents_re (snd p)) (Re.findall3 prob_re earthquake)
  = [[]; [];
     [("True, True", "0.95, 0.05"); ("False, True", "0.29, 0.71");
      ("True, False", "0.94, 0.06"); ("False, False", "0.001, 0.999")]].
Proof. vm_compute. reflexivity. Qed.

(** The scenarios of the specification. *)
Example burglary_table :
  BayesianNetwork.name earthquake_net = "Earthquake" /\
  Var.domain burglary = ["True"; "False"] /\
  Ok (Var.table burglary) = BayesianNetwork.floats "0.01, 0.99".
Proof. repeat split; vm_compute; reflexivity. Qed.

Example alarm_rows :
  Var.parents alarm = ["Burglary"; "Earthquake"] /\
  Var.get_probability alarm ["True"; "True"] = BayesianNetwork.floats "0.95, 0.05" /\
  Var.get_probability alarm ["False"; "False"] = BayesianNetwork.floats "0.001, 0.999" /\
  Var.get_probability alarm ["True"]
  = Raise (KeyError "Key (('True',)) is not an assignment for this variable.") /\
  Var.get_probability alarm ["true"; "true"]
  = Raise (KeyError "Key (('true', 'true')) is not an assignment for this variable.").
Proof. repeat split; vm_compute; reflexivity. Qed.

(** * Further properties of the code *)

(** ** [get_variable] *)

(** X1. [get_variable] returns a variable exactly when it is the first one of
    the list with the name: variables before it have other names, and a
    later variable with the same name is never returned. *)
Theorem get_variable_first (self : BayesianNetwork.t) (name : string) (v : Var.t) :
  BayesianNetwork.get_variable self name = Some v <->
  exists earlier later,
    BayesianNetwork.variables self = (earlier ++ v :: later)%list /\
    Var.name v = name /\
    Forall (fun w => Var.name w <> name) earlier.
Proof.
  unfold BayesianNetwork.get_variable.
  generalize (BayesianNetwork.variables self) as vars.
  induction vars as [|w vars IH]; simpl.
  - split; [discriminate|]. intros (earlier & later & H & _). now destruct earlier.
  - destruct (String.eqb_spec (Var.name w) name) as [Heq|Hne].
    + split.
      * intros H; inversion H; subst w. exists [], vars. auto.
      * intros ([|w' earlier] & later & H & Hname & Hall); simpl in H.
        -- now inversion H.
        -- inversion H; subst w'. inversion Hall; subst. congruence.
    + rewrite IH. split.
      * intros (earlier & later & -> & Hname & Hall).
        exists (w :: earlier), later. auto.
      * intros ([|w' earlier] & later & H & Hname & Hall); simpl in H.
        -- inversion H; subst w. congruence.
        -- inversion H; subst. inversion Hall; subst. eauto.
Qed.

(** ** The exceptions of a construction *)

Lemma for_each_raise_inv {S A : Type} (body : S -> A -> result S) :
  forall l st e,
    for_each body l st = Raise e -> exists s x, In x l /\ body s x = Raise e.
Proof.
  induction l as [|x l IH]; intros st e H; simpl in H; [discriminate|].
  destruct (body st x) as [s1|e1] eqn:E; simpl in H.
  - apply IH in H. destruct H as (s & y & Hy & Hbody). exists s, y. split; [now right | exact Hbody].
  - inversion H; subst. exists st, x. split; [now left | exact E].
Qed.

Lemma float_result s :
  (exists x, float s = Ok x) \/
  float s = Raise (ValueError ("could not convert string to float: " ++ Str.repr s)).
Proof. unfold float. destruct (Float.parse s); eauto. Qed.

Lemma floats_raise_inv text e :
  BayesianNetwork.floats text = Raise e ->
  exists token, e = ValueError ("could not convert string to float: " ++ Str.repr token).
Proof.
  unfold BayesianNetwork.floats.
  induction (Str.split "," text) as [|x l IH]; intros H; [discriminate|].
  change ((y ← float (Str.strip x);
           ys ← collect (fun v => float (Str.strip v)) l; Ok (y :: ys)) = Raise e) in H.
  destruct (float_result (Str.strip x)) as [(y & Hy)|Hy]; rewrite Hy in H; simpl in H.
  - destruct (collect _ l) as [ys|e'] eqn:E; simpl in H; [discriminate|].
    inversion H; subst. now apply IH.
  - inversion H; subst. eauto.
Qed.

(** X2. A construction that fails ends with one of four exceptions: the
    [AttributeError] of [None.group], of [None.parents] or of [None.table],
    or the [ValueError] of [float] on a token.  It never ends with a
    [KeyError] or an [IndexError]. *)
Theorem construction_errors (content : string) (e : exception) :
  BayesianNetwork.init content = Raise e -> construction_error e.
Proof.
  unfold BayesianNetwork.init, BayesianNetwork.parse_file. intros H.
  rewrite parse_network_spec in H.
  destruct (Re.re_match network_re content) as [m|]; simpl in H;
    [|inversion H; subst; now left].
  unfold BayesianNetwork.parse_probabilities in H.
  apply for_each_raise_inv in H. destruct H as (s & [[_name _parents] body] & _ & H).
  unfold BayesianNetwork.parse_probability in H.
  destruct (negb (String.eqb _parents "")).
  - destruct (BayesianNetwork.get_variable_ref s _name) as [i|]; simpl in H.
    + apply for_each_raise_inv in H. destruct H as (s1 & row & _ & H).
      unfold BayesianNetwork.parse_row in H.
      destruct (BayesianNetwork.floats (snd row)) as [prob|e'] eqn:E; simpl in H;
        [discriminate|].
      inversion H; subst. apply floats_raise_inv in E. now do 3 right.
    + inversion H; subst. right. now left.
  - destruct (Re.re_match table_re body) as [m'|] eqn:Em.
    + destruct (group1_takes_part body m' (or_intror Em)) as (text & _ & Hgroup).
      rewrite Hgroup in H. simpl in H.
      destruct (BayesianNetwork.floats text) as [tb|e'] eqn:E; simpl in H.
      * destruct (BayesianNetwork.get_variable_ref s _name); simpl in H;
          [discriminate|]. inversion H; subst. do 2 right. now left.
      * inversion H; subst. apply floats_raise_inv in E. now do 3 right.
    + simpl in H. inversion H; subst. now left.
Qed.

Lemma construction_errors_witness :
  BayesianNetwork.init bad_number_text
  = Raise (ValueError "could not convert string to float: 'x'") /\
  construction_error (ValueError "could not convert string to float: 'x'").
Proof.
  assert (H : BayesianNetwork.init bad_number_text
              = Raise (ValueError "could not convert string to float: 'x'"))
    by (vm_compute; reflexivity).
  exact (conj H (construction_errors bad_number_text _ H)).
Defined.

(** ** What a round of [parse_probabilities] changes *)

Lemma parse_probability_frame self _name _parents body self' :
  BayesianNetwork.parse_probability self (_name, _parents, body) = Ok self' ->
  exists i,
    BayesianNetwork.get_variable_ref self _name = Some i /\
    forall j, j <> i ->
      BayesianNetwork.variables self' !! j = BayesianNetwork.variables self !! j.
Proof.
  unfold BayesianNetwork.parse_probability.
  destruct (negb (String.eqb _parents "")); intros H.
  - apply bind_ok in H. destruct H as (self1 & H1 & H).
    apply setattr_ok in H1. destruct H1 as (i & Hi & ->). rewrite Hi in H.
    exists i. split; [exact Hi|].
    apply (fun Hstep Hinit =>
             for_each_invariant
               (fun s => forall j, j <> i ->
                  BayesianNetwork.variables s !! j = BayesianNetwork.variables self !! j)
               _ _ _ _ Hstep Hinit H).
    + intros s row s' _ Hs Hstep. unfold BayesianNetwork.parse_row in Hstep.
      apply bind_ok in Hstep. destruct Hstep as (prob & _ & Hstep).
      apply setattr_ok in Hstep. destruct Hstep as (i' & Hi' & ->).
      inversion Hi'; subst i'. simpl. intros j Hj.
      rewrite list_lookup_alter_ne by congruence. now apply Hs.
    + simpl. intros j Hj. now rewrite list_lookup_alter_ne by congruence.
  - apply bind_ok in H. destruct H as (text & _ & H).
    apply bind_ok in H. destruct H as (tb & _ & H).
    apply setattr_ok in H. destruct H as (i & Hi & ->).
    exists i. split; [exact Hi|]. simpl. intros j Hj.
    now rewrite list_lookup_alter_ne by congruence.
Qed.

(** X3. After a successful construction, a variable that no probability
    declaration names, and a variable that stands after another one with the
    same name, is as [Variable(name, domain)] made it: no parents, an empty
    mapping, an empty table. *)
Theorem untouched_variables (content : string) (net : BayesianNetwork.t)
    (j : nat) (v : Var.t) :
  BayesianNetwork.init content = Ok net ->
  BayesianNetwork.variables net !! j = Some v ->
  ~ In (Var.name v) (targets content) \/
  BayesianNetwork.get_variable_ref net (Var.name v) <> Some j ->
  v = Var.init (Var.name v) (Var.domain v).
Proof.
  unfold BayesianNetwork.init, BayesianNetwork.parse_file. intros H.
  apply bind_ok in H. destruct H as (self1 & H1 & H).
  rewrite parse_network_spec in H1.
  destruct (Re.re_match network_re content) as [m|]; [|discriminate].
  inversion H1; subst self1; clear H1.
  rewrite parse_variables_spec in H. simpl in H.
  set (self0 := BayesianNetwork.mk _ _) in H.
  unfold BayesianNetwork.parse_probabilities in H.
  apply (for_each_invariant
           (fun s => shape s = shape self0 /\
              forall j v,
                BayesianNetwork.variables s !! j = Some v ->
                ~ In (Var.name v) (targets content) \/
                BayesianNetwork.get_variable_ref s (Var.name v) <> Some j ->
                v = Var.init (Var.name v) (Var.domain v))) in H.
  - destruct H as [_ H]. intros Hj Hun. now apply (H j v).
  - intros s [[_name _parents] body] s' Hp [Hshape Hs] Hstep.
    pose proof (parse_probability_shape _ _ _ Hstep) as [_ Hshape'].
    split; [now rewrite Hshape'|].
    pose proof (shape_names _ _ Hshape') as Hnames.
    destruct (parse_probability_frame _ _ _ _ _ Hstep) as (i & Hi & Hframe).
    intros j0 v0 Hv0 Hun.
    assert (Hrefs : forall name, BayesianNetwork.get_variable_ref s' name
                                 = BayesianNetwork.get_variable_ref s name).
    { intros name. unfold BayesianNetwork.get_variable_ref.
      now apply get_variable_ref_in_names. }
    destruct (Nat.eq_dec j0 i) as [->|Hne].
    + exfalso.
      assert (Hname : Var.name v0 = _name).
      { apply (get_variable_ref_in_name (BayesianNetwork.variables s') _name i);
          [|exact Hv0]. rewrite <- Hi. apply Hrefs. }
      destruct Hun as [Hun|Hun].
      * apply Hun. rewrite Hname. unfold targets.
        apply (in_map (fun d => fst (fst d))) in Hp. exact Hp.
      * apply Hun. rewrite Hname, Hrefs. exact Hi.
    + rewrite (Hframe j0 Hne) in Hv0. apply (Hs j0 v0 Hv0).
      now rewrite <- Hrefs.
  - split; [reflexivity|]. unfold self0. simpl. intros j0 v0 Hv0 _.
    apply list_elem_of_lookup_2, list_elem_of_In, in_map_iff in Hv0.
    destruct Hv0 as ([[n z] vals] & <- & _). reflexivity.
Qed.

Lemma untouched_variables_witness :
  BayesianNetwork.init short_table = Ok short_table_net /\
  BayesianNetwork.variables short_table_net !! 1 = Some (variable_of short_table_net "B") /\
  (~ In (Var.name (variable_of short_table_net "B")) (targets short_table) \/
   BayesianNetwork.get_variable_ref short_table_net (Var.name (variable_of short_table_net "B"))
   <> Some 1) /\
  variable_of short_table_net "B"
  = Var.init (Var.name (variable_of short_table_net "B"))
             (Var.domain (variable_of short_table_net "B")).
Proof.
  assert (H1 : BayesianNetwork.init short_table = Ok short_table_net)
    by (vm_compute; reflexivity).
  assert (H2 : BayesianNetwork.variables short_table_net !! 1
               = Some (variable_of short_table_net "B"))
    by (vm_compute; reflexivity).
  assert (H3 : ~ In (Var.name (variable_of short_table_net "B")) (targets short_table) \/
               BayesianNetwork.get_variable_ref short_table_net
                 (Var.name (variable_of short_table_net "B")) <> Some 1)
    by (left; vm_compute; intros [H|[]]; discriminate).
  exact (conj H1 (conj H2 (conj H3
           (untouched_variables short_table short_table_net 1
              (variable_of short_table_net "B") H1 H2 H3)))).
Defined.

(** ** The rows of a declaration with parents *)

Lemma row_value_other rows key old :
  Forall (fun r => row_key r <> key) rows -> row_value rows key old = old.
Proof.
  revert old. induction rows as [|row rows IH]; intros old H; simpl; [reflexivity|].
  inversion H; subst. rewrite IH by assumption. now case_decide.
Qed.

Lemma rows_loop i :
  forall rows self self' v,
    BayesianNetwork.variables self !! i = Some v ->
    for_each (BayesianNetwork.parse_row (Some i)) rows self = Ok self' ->
    Forall (fun row => exists prob, BayesianNetwork.floats (snd row) = Ok prob) rows /\
    exists v',
      BayesianNetwork.variables self' !! i = Some v' /\
      Var.name v' = Var.name v /\ Var.domain v' = Var.domain v /\
      Var.parents v' = Var.parents v /\ Var.table v' = Var.table v /\
      forall key,
        Var.probabilities v' !! key = row_value rows key (Var.probabilities v !! key).
Proof.
  induction rows as [|row rows IH]; intros self self' v Hv H; simpl in H.
  - inversion H; subst. split; [constructor|]. exists v. repeat split; auto.
  - apply bind_ok in H. destruct H as (s1 & Hrow & H).
    unfold BayesianNetwork.parse_row in Hrow.
    apply bind_ok in Hrow. destruct Hrow as (prob & Hprob & Hrow).
    apply setattr_ok in Hrow. destruct Hrow as (i' & Hi' & ->).
    inversion Hi'; subst i'.
    match type of H with
    | for_each _ _ ?s1 = _ =>
        assert (Hl : BayesianNetwork.variables s1 !! i
                     = Some (Var.set_probability (row_key row) prob v))
          by (simpl; now rewrite list_lookup_alter_eq, Hv)
    end.
    destruct (IH _ _ _ Hl H) as (Hall & v' & Hv' & Hn & Hd & Hp & Ht & Hkeys).
    split; [constructor; eauto|].
    exists v'. repeat split; auto.
    intros key. rewrite Hkeys. simpl. rewrite lookup_insert, Hprob. reflexivity.
Qed.

Lemma rows_round self _name _parents body self' v :
  BayesianNetwork.parse_probability self (_name, _parents, body) = Ok self' ->
  _parents <> "" ->
  BayesianNetwork.get_variable self _name = Some v ->
  Forall (fun row => exists prob, BayesianNetwork.floats (snd row) = Ok prob)
         (Re.findall2 parents_re body) /\
  exists v',
    BayesianNetwork.get_variable self' _name = Some v' /\
    Var.domain v' = Var.domain v /\
    Var.parents v' = map Str.strip (Str.split "," _parents) /\
    Var.table v' = Var.table v /\
    forall key,
      Var.probabilities v' !! key
      = row_value (Re.findall2 parents_re body) key (Var.probabilities v !! key).
Proof.
  intros H Hne Hv.
  pose proof (parse_probability_shape _ _ _ H) as [_ Hshape].
  unfold BayesianNetwork.parse_probability in H.
  apply String.eqb_neq in Hne. rewrite Hne in H. simpl in H.
  apply bind_ok in H. destruct H as (self1 & H1 & H).
  apply setattr_ok in H1. destruct H1 as (i & Hi & ->). rewrite Hi in H.
  unfold BayesianNetwork.get_variable in Hv. rewrite get_variable_ref_in_spec in Hv.
  unfold BayesianNetwork.get_variable_ref in Hi. rewrite Hi in Hv. simpl in Hv.
  match type of H with
  | for_each _ _ ?s1 = _ =>
      assert (Hl : BayesianNetwork.variables s1 !! i
                   = Some (Var.set_parents (map Str.strip (Str.split "," _parents)) v))
        by (simpl; now rewrite list_lookup_alter_eq, Hv)
  end.
  destruct (rows_loop i _ _ _ _ Hl H) as (Hall & v' & Hv' & Hn & Hd & Hp & Ht & Hkeys).
  split; [exact Hall|]. exists v'. repeat split; auto.
  unfold BayesianNetwork.get_variable. rewrite get_variable_ref_in_spec.
  rewrite (get_variable_ref_in_names _ (BayesianNetwork.variables self) _
             (shape_names _ _ Hshape)).
  now rewrite Hi.
Qed.

(** X4. A round for a declaration with parents sets the parents of the
    target to the stripped pieces of the parents text and leaves its domain
    and its table as they are; the mapping is not started afresh: a key that
    no row of the declaration has keeps what it held. *)
Theorem rows_round_keeps (self self' : BayesianNetwork.t)
    (_name _parents body : string) (v : Var.t) :
  BayesianNetwork.parse_probability self (_name, _parents, body) = Ok self' ->
  _parents <> "" ->
  BayesianNetwork.get_variable self _name = Some v ->
  exists v',
    BayesianNetwork.get_variable self' _name = Some v' /\
    Var.domain v' = Var.domain v /\
    Var.table v' = Var.table v /\
    Var.parents v' = map Str.strip (Str.split "," _parents) /\
    forall key,
      Forall (fun row => row_key row <> key) (Re.findall2 parents_re body) ->
      Var.probabilities v' !! key = Var.probabilities v !! key.
Proof.
  intros H Hne Hv.
  destruct (rows_round _ _ _ _ _ _ H Hne Hv) as (_ & v' & Hv' & Hd & Hp & Ht & Hkeys).
  exists v'. repeat split; auto.
  intros key Hkey. rewrite Hkeys. now apply row_value_other.
Qed.

(** X5. When two rows of a declaration have the same key, the later one
    wins: after the round the mapping of the target holds, under the key of a
    row that no later row repeats, the floats of that row. *)
Theorem rows_round_last_wins (self self' : BayesianNetwork.t)
    (_name _parents body : string) (v : Var.t)
    (earlier later : list (string * string)) (row : string * string) :
  BayesianNetwork.parse_probability self (_name, _parents, body) = Ok self' ->
  _parents <> "" ->
  BayesianNetwork.get_variable self _name = Some v ->
  Re.findall2 parents_re body = (earlier ++ row :: later)%list ->
  Forall (fun r => row_key r <> row_key row) later ->
  exists v' prob,
    BayesianNetwork.get_variable self' _name = Some v' /\
    BayesianNetwork.floats (snd row) = Ok prob /\
    Var.probabilities v' !! row_key row = Some prob.
Proof.
  intros H Hne Hv Hrows Hlater.
  destruct (rows_round _ _ _ _ _ _ H Hne Hv) as (Hall & v' & Hv' & _ & _ & _ & Hkeys).
  rewrite Hrows in Hall, Hkeys.
  apply Forall_app in Hall. destruct Hall as [_ Hall].
  inversion Hall as [|? ? (prob & Hprob) _]; subst.
  exists v', prob. repeat split; auto.
  rewrite Hkeys.
  generalize (Var.probabilities v !! row_key row) as old.
  clear -Hprob Hlater.
  induction earlier as [|r earlier IH]; intros old; simpl.
  - rewrite Hprob. rewrite decide_True by reflexivity. now apply row_value_other.
  - apply IH.
Qed.

Lemma rows_round_keeps_witness :
  BayesianNetwork.parse_probability one_variable ("A", "B", repeated_rows)
  = Ok one_variable_rows /\
  "B" <> "" /\
  BayesianNetwork.get_variable one_variable "A" = Some (Var.init "A" ["True"; "False"]) /\
  exists v',
    BayesianNetwork.get_variable one_variable_rows "A" = Some v' /\
    Var.domain v' = Var.domain (Var.init "A" ["True"; "False"]) /\
    Var.table v' = Var.table (Var.init "A" ["True"; "False"]) /\
    Var.parents v' = map Str.strip (Str.split "," "B") /\
    forall key,
      Forall (fun row => row_key row <> key) (Re.findall2 parents_re repeated_rows) ->
      Var.probabilities v' !! key
      = Var.probabilities (Var.init "A" ["True"; "False"]) !! key.
Proof.
  assert (H1 : BayesianNetwork.parse_probability one_variable ("A", "B", repeated_rows)
               = Ok one_variable_rows) by (vm_compute; reflexivity).
  assert (H2 : "B" <> "") by discriminate.
  assert (H3 : BayesianNetwork.get_variable one_variable "A"
               = Some (Var.init "A" ["True"; "False"])) by reflexivity.
  exact (conj H1 (conj H2 (conj H3
           (rows_round_keeps one_variable one_variable_rows "A" "B" repeated_rows
              (Var.init "A" ["True"; "False"]) H1 H2 H3)))).
Defined.

Lemma rows_round_last_wins_witness :
  BayesianNetwork.parse_probability one_variable ("A", "B", repeated_rows)
  = Ok one_variable_rows /\
  "B" <> "" /\
  BayesianNetwork.get_variable one_variable "A" = Some (Var.init "A" ["True"; "False"]) /\
  Re.findall2 parents_re repeated_rows
  = ([("True", "0.5, 0.5")] ++ (" True ", "0.9, 0.1") :: [])%list /\
  Forall (fun r => row_key r <> row_key (" True ", "0.9, 0.1")) [] /\
  exists v' prob,
    BayesianNetwork.get_variable one_variable_rows "A" = Some v' /\
    BayesianNetwork.floats (snd (" True ", "0.9, 0.1")) = Ok prob /\
    Var.probabilities v' !! row_key (" True ", "0.9, 0.1") = Some prob.
Proof.
  assert (H1 : BayesianNetwork.parse_probability one_variable ("A", "B", repeated_rows)
               = Ok one_variable_rows) by (vm_compute; reflexivity).
  assert (H2 : "B" <> "") by discriminate.
  assert (H3 : BayesianNetwork.get_variable one_variable "A"
               = Some (Var.init "A" ["True"; "False"])) by reflexivity.
  assert (H4 : Re.findall2 parents_re repeated_rows
               = ([("True", "0.5, 0.5")] ++ (" True ", "0.9, 0.1") :: [])%list)
    by (vm_compute; reflexivity).
  assert (H5 : Forall (fun r => row_key r <> row_key (" True ", "0.9, 0.1")) [])
    by constructor.
  exact (conj H1 (conj H2 (conj H3 (conj H4 (conj H5
           (rows_round_last_wins one_variable one_variable_rows "A" "B" repeated_rows
              (Var.init "A" ["True"; "False"]) [("True", "0.5, 0.5")] []
              (" True ", "0.9, 0.1") H1 H2 H3 H4 H5)))))).
Defined.

(** ** Parents and rows go together *)

Lemma no_parents_no_probabilities_witness :
  BayesianNetwork.init earthquake = Ok earthquake_net /\
  In burglary (BayesianNetwork.variables earthquake_net) /\
  Var.parents burglary = [] /\
  Var.probabilities burglary = ∅.
Proof.
  assert (H1 : BayesianNetwork.init earthquake = Ok earthquake_net)
    by (vm_compute; reflexivity).
  assert (H2 : In burglary (BayesianNetwork.variables earthquake_net))
    by (vm_compute; left; reflexivity).
  assert (H3 : Var.parents burglary = []) by (vm_compute; reflexivity).
  exact (conj H1 (conj H2 (conj H3
           (no_parents_no_probabilities earthquake earthquake_net burglary H1 H2 H3)))).
Defined.

(** ** Keys are stripped, assignments are not *)

Lemma mem_lstrip c s : Str.mem c (Str.lstrip s) = true -> Str.mem c s = true.
Proof.
  induction s as [|d s IH]; simpl; [auto|].
  destruct (Str.isspace d); [|auto].
  intros H. rewrite (IH H). now destruct (Ascii.eqb c d).
Qed.

Lemma mem_rstrip c s : Str.mem c (Str.rstrip s) = true -> Str.mem c s = true.
Proof.
  induction s as [|d s IH]; simpl; [auto|].
  destruct (Str.rstrip s) as [|e t] eqn:E.
  - destruct (Str.isspace d); simpl; [discriminate|].
    destruct (Ascii.eqb c d); [auto | discriminate].
  - simpl. destruct (Ascii.eqb c d); [auto|]. exact IH.
Qed.

Lemma mem_strip c s : Str.mem c (Str.strip s) = true -> Str.mem c s = true.
Proof. intros H. now apply mem_lstrip, mem_rstrip. Qed.

Lemma stripped_pieces text :
  Forall (fun a => trimmed a /\ Str.mem "," a = false)
         (map Str.strip (Str.split "," text)).
Proof.
  apply List.Forall_forall. intros a Ha. apply in_map_iff in Ha.
  destruct Ha as (raw & <- & Hraw). split; [apply strip_trimmed|].
  pose proof (split_no_sep "," text) as Hall.
  rewrite List.Forall_forall in Hall. specialize (Hall raw Hraw).
  destruct (Str.mem "," (Str.strip raw)) eqn:E; [|reflexivity].
  apply mem_strip in E. congruence.
Qed.

(** X7. [get_probability] compares the assignment with the keys as it is
    given: in a constructed network every key is made of stripped pieces
    without a comma, so an assignment with an element that has a blank at
    an end, or a comma, raises [KeyError]. *)
Theorem unstripped_assignment_raises (content : string) (net : BayesianNetwork.t)
    (v : Var.t) (assignment : list string) :
  BayesianNetwork.init content = Ok net ->
  In v (BayesianNetwork.variables net) ->
  Exists (fun a => ~ trimmed a \/ Str.mem "," a = true) assignment ->
  Var.get_probability v assignment = Raise (Var.key_error assignment).
Proof.
  intros H Hv Hbad. apply init_ok in H. destruct H as (m & _ & _ & _ & Hok).
  rewrite List.Forall_forall in Hok. destruct (Hok v Hv) as (Hrows & _ & _).
  unfold Var.get_probability.
  destruct (Var.probabilities v !! assignment) as [prob|] eqn:E; [|reflexivity].
  exfalso. destruct (Hrows _ _ E) as (_parents & body & row & _ & _ & _ & Hkey & _).
  pose proof (stripped_pieces (fst row)) as Hall. rewrite Hkey in Hall.
  apply List.Exists_exists in Hbad. destruct Hbad as (a & Ha & Hbad).
  rewrite List.Forall_forall in Hall. destruct (Hall a Ha) as [Htrim Hcomma].
  destruct Hbad as [Hbad|Hbad]; [now apply Hbad | congruence].
Qed.

Lemma unstripped_assignment_raises_witness :
  BayesianNetwork.init earthquake = Ok earthquake_net /\
  In alarm (BayesianNetwork.variables earthquake_net) /\
  Exists (fun a => ~ trimmed a \/ Str.mem "," a = true) ["True"; " True"] /\
  Var.get_probability alarm ["True"; " True"] = Raise (Var.key_error ["True"; " True"]).
Proof.
  assert (H1 : BayesianNetwork.init earthquake = Ok earthquake_net)
    by (vm_compute; reflexivity).
  assert (H2 : In alarm (BayesianNetwork.variables earthquake_net))
    by (vm_compute; do 2 right; left; reflexivity).
  assert (H3 : Exists (fun a => ~ trimmed a \/ Str.mem "," a = true) ["True"; " True"]).
  { right. left. left. intros [Hl _]. discriminate Hl. }
  exact (conj H1 (conj H2 (conj H3
           (unstripped_assignment_raises earthquake earthquake_net alarm
              ["True"; " True"] H1 H2 H3)))).
Defined.

(** ** Blanks around the pieces of a list *)

Lemma mem_append c a b : Str.mem c (a ++ b) = Str.mem c a || Str.mem c b.
Proof.
  induction a as [|d a IH]; [reflexivity|]. rewrite append_cons. cbn [Str.mem].
  destruct (Ascii.eqb c d); [reflexivity | exact IH].
Qed.

Lemma all_space_no_comma s : Str.all_space s = true -> Str.mem "," s = false.
Proof.
  induction s as [|c s IH]; [reflexivity|]. cbn [Str.all_space Str.mem].
  destruct (Str.isspace c) eqn:E; [|discriminate]. intros H.
  destruct (Ascii.eqb_spec "," c) as [<-|_];
    [vm_compute in E; discriminate E | now apply IH].
Qed.

Lemma split_no_sep_one sep w : Str.mem sep w = false -> Str.split sep w = [w].
Proof.
  induction w as [|c w IH]; [reflexivity|]. cbn [Str.mem Str.split].
  rewrite (Ascii.eqb_sym c sep).
  destruct (Ascii.eqb sep c); [discriminate|]. intros H. now rewrite (IH H).
Qed.

Lemma split_append_sep sep w rest :
  Str.mem sep w = false ->
  Str.split sep (w ++ String sep rest) = w :: Str.split sep rest.
Proof.
  induction w as [|c w IH].
  - intros _. rewrite append_empty_l. cbn [Str.split]. now rewrite Ascii.eqb_refl.
  - rewrite append_cons. cbn [Str.mem Str.split]. rewrite (Ascii.eqb_sym c sep).
    destruct (Ascii.eqb sep c); [discriminate|]. intros H. now rewrite (IH H).
Qed.

(** [split] undoes [join] on pieces that do not hold the separator. *)
Lemma split_of_join sep l :
  l <> [] -> Forall (fun w => Str.mem sep w = false) l ->
  Str.split sep (Str.join (String sep "") l) = l.
Proof.
  induction l as [|w l IH]; [congruence|]. intros _ Hall.
  inversion Hall as [|? ? Hw Hl]; subst.
  destruct l as [|w' l].
  - simpl. now apply split_no_sep_one.
  - change (Str.join (String sep "") (w :: w' :: l))
      with (w ++ String sep "" ++ Str.join (String sep "") (w' :: l)).
    rewrite append_cons, append_empty_l.
    rewrite split_append_sep by assumption.
    f_equal. apply IH; [discriminate | assumption].
Qed.

Lemma collect_ext {A B : Type} (f : A -> result B) l l' :
  Forall2 (fun a b => f a = f b) l l' -> collect f l = collect f l'.
Proof.
  induction 1 as [|a b l l' Hab _ IH]; [reflexivity|].
  simpl. now rewrite Hab, IH.
Qed.

(** X8. Blanks around the pieces of a comma-separated list do not count:
    the floats of a numeric list, and the stripped pieces of any list (a
    domain, a key, the parents), are the same with and without them. *)
Theorem blanks_around_pieces (tokens padded : list string) :
  tokens <> [] ->
  Forall (fun t => Str.mem "," t = false) tokens ->
  Forall2 padding tokens padded ->
  BayesianNetwork.floats (Str.join "," padded) = BayesianNetwork.floats (Str.join "," tokens) /\
  map Str.strip (Str.split "," (Str.join "," padded)) = map Str.strip tokens.
Proof.
  intros Hne Hcomma Hpad.
  assert (Hne' : padded <> []).
  { intros ->. inversion Hpad; subst. congruence. }
  assert (Hcomma' : Forall (fun t => Str.mem "," t = false) padded).
  { clear Hne Hne'. induction Hpad as [|t p ts ps (l & r & Hl & Hr & ->) _ IH];
      [constructor|].
    inversion Hcomma; subst. constructor; [|now apply IH].
    rewrite !mem_append.
    rewrite (all_space_no_comma l Hl), (all_space_no_comma r Hr).
    simpl. now rewrite orb_false_r. }
  assert (Hstrip : Forall2 (fun p t => Str.strip p = Str.strip t) padded tokens).
  { clear -Hpad. induction Hpad as [|t p ts ps (l & r & Hl & Hr & ->) _ IH];
      constructor; [now apply strip_blanks | exact IH]. }
  unfold BayesianNetwork.floats.
  change (Str.join "," padded) with (Str.join (String "," "") padded).
  change (Str.join "," tokens) with (Str.join (String "," "") tokens).
  rewrite !split_of_join by assumption. split.
  - apply collect_ext. eapply Forall2_impl; [exact Hstrip|].
    simpl. intros p t Heq. now rewrite Heq.
  - clear -Hstrip. induction Hstrip as [|p t ps ts Heq _ IH]; [reflexivity|].
    simpl. now rewrite Heq, IH.
Qed.

Lemma blanks_around_pieces_witness :
  ["0.5"; "0.25"] <> [] /\
  Forall (fun t => Str.mem "," t = false) ["0.5"; "0.25"] /\
  Forall2 padding ["0.5"; "0.25"] [" 0.5"; "  0.25 "] /\
  BayesianNetwork.floats (Str.join "," [" 0.5"; "  0.25 "])
  = BayesianNetwork.floats (Str.join "," ["0.5"; "0.25"]) /\
  map Str.strip (Str.split "," (Str.join "," [" 0.5"; "  0.25 "]))
  = map Str.strip ["0.5"; "0.25"].
Proof.
  assert (H1 : ["0.5"; "0.25"] <> []) by discriminate.
  assert (H2 : Forall (fun t => Str.mem "," t = false) ["0.5"; "0.25"])
    by (repeat constructor).
  assert (H3 : Forall2 padding ["0.5"; "0.25"] [" 0.5"; "  0.25 "]).
  { constructor; [exists " ", ""; repeat split|].
    constructor; [exists "  ", " "; repeat split | constructor]. }
  exact (conj H1 (conj H2 (conj H3
           (blanks_around_pieces ["0.5"; "0.25"] [" 0.5"; "  0.25 "] H1 H2 H3)))).
Defined.

(** ** What the matcher takes is a word of the pattern *)

Lemma append_empty_r (s : string) : s ++ "" = s.
Proof. induction s as [|c s IH]; [reflexivity|]. rewrite append_cons. now rewrite IH. Qed.

Lemma star_rounds_sound {A : Type} (G : nat -> string -> Prop) (r : Re.regex)
    (k : string -> Re.captures -> option A) :
  (forall s c (k' : string -> Re.captures -> option A) x,
     captures_sound G c -> Re.backtrack r s c k' = Some x ->
     exists pre s1 c1, s = pre ++ s1 /\ matches r pre /\ captures_sound G c1 /\
                       k' s1 c1 = Some x) ->
  forall fuel s c x,
    captures_sound G c ->
    Re.star_rounds (Re.backtrack r) k fuel s c = Some x ->
    exists pre s1 c1, s = pre ++ s1 /\ matches (Re.Star r) pre /\ captures_sound G c1 /\
                      k s1 c1 = Some x.
Proof.
  intros Hbody fuel. induction fuel as [|fuel IH]; intros s c x Hc H; simpl in H.
  - exists "", s, c. repeat split; auto. constructor.
  - destruct (Re.backtrack r s c _) as [y|] eqn:E.
    + inversion H; subst y. apply Hbody in E; [|exact Hc].
      destruct E as (pre1 & s1 & c1 & -> & Hm1 & Hc1 & E1).
      destruct (Nat.ltb _ _); [|discriminate].
      apply IH in E1; [|exact Hc1].
      destruct E1 as (pre2 & s2 & c2 & -> & Hm2 & Hc2 & E2).
      exists (pre1 ++ pre2), s2, c2. rewrite append_assoc.
      repeat split; auto. now constructor.
    + exists "", s, c. repeat split; auto. constructor.
Qed.

Lemma backtrack_sound {A : Type} (G : nat -> string -> Prop) (r : Re.regex) :
  groups_sound G r ->
  forall s c (k : string -> Re.captures -> option A) x,
    captures_sound G c ->
    Re.backtrack r s c k = Some x ->
    exists pre s1 c1, s = pre ++ s1 /\ matches r pre /\ captures_sound G c1 /\
                      k s1 c1 = Some x.
Proof.
  induction r as [|set|r1 IH1 r2 IH2|r1 IH1 r2 IH2|r1 IH1|n r1 IH1];
    intros HG s c k x Hc H; simpl in *.
  - exists "", s, c. repeat split; auto. constructor.
  - destruct s as [|a rest]; [discriminate|].
    destruct (set a) eqn:Ea; [|discriminate].
    exists (String a ""), rest, c. repeat split; auto. now constructor.
  - destruct HG as [HG1 HG2].
    apply (IH1 HG1) in H; [|exact Hc].
    destruct H as (pre1 & s1 & c1 & -> & Hm1 & Hc1 & H1).
    apply (IH2 HG2) in H1; [|exact Hc1].
    destruct H1 as (pre2 & s2 & c2 & -> & Hm2 & Hc2 & H2).
    exists (pre1 ++ pre2), s2, c2. rewrite append_assoc.
    repeat split; auto. now constructor.
  - destruct HG as [HG1 HG2].
    destruct (Re.backtrack r1 s c k) as [y|] eqn:E.
    + inversion H; subst y. apply (IH1 HG1) in E; [|exact Hc].
      destruct E as (pre & s1 & c1 & -> & Hm & Hc1 & E1).
      exists pre, s1, c1. repeat split; auto. now apply matches_alt_l.
    + apply (IH2 HG2) in H; [|exact Hc].
      destruct H as (pre & s1 & c1 & -> & Hm & Hc1 & E1).
      exists pre, s1, c1. repeat split; auto. now apply matches_alt_r.
  - apply (star_rounds_sound G r1 k) in H; auto.
    intros s0 c0 k' x0. now apply IH1.
  - destruct HG as [HGn HG1].
    apply (IH1 HG1) in H; [|exact Hc].
    destruct H as (pre & s1 & c1 & -> & Hm & Hc1 & H1).
    rewrite length_append in H1.
    replace (String.length pre + String.length s1 - String.length s1)
      with (String.length pre) in H1 by lia.
    rewrite take_append in H1.
    exists pre, s1, ((n, pre) :: c1). repeat split; auto.
    + now constructor.
    + constructor; [simpl; now apply HGn | exact Hc1].
Qed.

Lemma match_at_sound (G : nat -> string -> Prop) r pos s b m :
  groups_sound G r ->
  Re.match_at r pos s b = Some m ->
  captures_sound G (Re.m_groups m).
Proof.
  unfold Re.match_at. intros HG H.
  destruct (Re.backtrack r s [] _) as [[s1 c1]|] eqn:E; [|discriminate].
  inversion H; subst m; clear H. simpl.
  apply (backtrack_sound G r HG) in E; [|constructor].
  destruct E as (pre & s2 & c2 & _ & _ & Hc2 & E2).
  destruct (b && _); [discriminate|]. now inversion E2; subst.
Qed.

Lemma scan_groups_sound (G : nat -> string -> Prop) r :
  groups_sound G r ->
  forall fuel pos s b,
    Forall (fun m => captures_sound G (Re.m_groups m)) (Re.scan fuel r pos s b).
Proof.
  intros HG. induction fuel as [|fuel IH]; intros pos s b; simpl; [constructor|].
  destruct (Re.match_at r pos s b) as [m|] eqn:E.
  - constructor; [eapply match_at_sound; eauto | apply IH].
  - destruct s; [constructor | apply IH].
Qed.

Lemma match_at_takes_part r n pos s b m :
  Re.sets r n = true ->
  Re.match_at r pos s b = Some m ->
  exists text, Re.capture (Re.m_groups m) n = Some text.
Proof.
  unfold Re.match_at. intros Hsets H.
  destruct (Re.backtrack r s [] _) as [[s1 c1]|] eqn:E; [|discriminate].
  inversion H; subst m; clear H. simpl.
  apply (backtrack_sets r n) in E. destruct E as (s2 & c2 & E2 & Hc).
  destruct (b && _); [discriminate|]. inversion E2; subst. apply Hc. now right.
Qed.

Lemma scan_takes_part r n :
  Re.sets r n = true ->
  forall fuel pos s b,
    Forall (fun m => exists text, Re.capture (Re.m_groups m) n = Some text)
           (Re.scan fuel r pos s b).
Proof.
  intros Hsets. induction fuel as [|fuel IH]; intros pos s b; simpl; [constructor|].
  destruct (Re.match_at r pos s b) as [m|] eqn:E.
  - constructor; [eapply match_at_takes_part; eauto | apply IH].
  - destruct s; [constructor | apply IH].
Qed.

Lemma capture_in c n text : Re.capture c n = Some text -> In (n, text) c.
Proof.
  induction c as [|[i t] c IH]; simpl; [discriminate|].
  destruct (Nat.eqb_spec i n) as [->|_].
  - intros H; inversion H; subst. now left.
  - intros H. right. now apply IH.
Qed.

(** The text of a group that takes part in every match is a word the group
    allows. *)
Lemma group_text_sound (G : nat -> string -> Prop) m n :
  captures_sound G (Re.m_groups m) ->
  (exists text, Re.capture (Re.m_groups m) n = Some text) ->
  G n (Re.group_text m n).
Proof.
  intros Hc (text & Ht). unfold Re.group_text. rewrite Ht. simpl.
  apply capture_in in Ht. unfold captures_sound in Hc.
  rewrite List.Forall_forall in Hc. exact (Hc _ Ht).
Qed.

(** ** The words of the patterns *)

Lemma every_append p a b : every p (a ++ b) = every p a && every p b.
Proof.
  induction a as [|c a IH]; [reflexivity|]. rewrite append_cons. cbn [every].
  now rewrite IH, andb_assoc.
Qed.

Lemma every_impl (p q : ascii -> bool) s :
  (forall c, p c = true -> q c = true) -> every p s = true -> every q s = true.
Proof.
  intros Hpq. induction s as [|c s IH]; [reflexivity|]. cbn [every].
  intros H. apply andb_true_iff in H. destruct H as [Hc Hs].
  now rewrite (Hpq c Hc), (IH Hs).
Qed.

Lemma matches_every p r w : chars_in p r -> matches r w -> every p w = true.
Proof.
  intros Hp Hm. induction Hm; simpl in Hp; try reflexivity.
  - cbn [every]. now rewrite (Hp a H).
  - destruct Hp as [H1 H2]. now rewrite every_append, IHHm1, IHHm2.
  - destruct Hp as [H1 H2]. auto.
  - destruct Hp as [H1 H2]. auto.
  - now rewrite every_append, IHHm1, IHHm2.
  - auto.
Qed.

Lemma matches_min_len r w : matches r w -> Re.min_len r <= String.length w.
Proof.
  induction 1; simpl; try lia.
  - rewrite length_append. lia.
Qed.

Lemma matches_star_chr_last set w :
  matches (Re.Star (Re.Chr set)) w ->
  w = "" \/ exists u c, w = u ++ String c "" /\ set c = true.
Proof.
  intros H. remember (Re.Star (Re.Chr set)) as r eqn:Er.
  induction H; try discriminate; [now left|].
  inversion Er; subst r. clear IHmatches1.
  inversion H; subst. destruct (IHmatches2 eq_refl) as [->|(u & c & -> & Hc)].
  - right. exists "", a. auto.
  - right. exists (String a "" ++ u), c. rewrite append_assoc. auto.
Qed.

Lemma matches_plus_chr_last set w :
  matches (Re.plus (Re.Chr set)) w -> exists u c, w = u ++ String c "" /\ set c = true.
Proof.
  unfold Re.plus. intros H. inversion H; subst.
  match goal with Hc : matches (Re.Chr set) _ |- _ => inversion Hc; subst end.
  match goal with Hs : matches (Re.Star _) _ |- _ =>
    destruct (matches_star_chr_last _ _ Hs) as [->|(u & c & -> & Hc')] end.
  - exists "", a. auto.
  - exists (String a "" ++ u), c. rewrite append_assoc. auto.
Qed.

Lemma every_lstrip p s : every p s = true -> every p (Str.lstrip s) = true.
Proof.
  induction s as [|c s IH]; [reflexivity|]. cbn [every Str.lstrip].
  intros H. destruct (Str.isspace c); [|exact H].
  apply andb_true_iff in H. now apply IH.
Qed.

Lemma every_rstrip p s : every p s = true -> every p (Str.rstrip s) = true.
Proof.
  induction s as [|c s IH]; [reflexivity|]. cbn [every Str.rstrip].
  intros H. apply andb_true_iff in H. destruct H as [Hc Hs].
  specialize (IH Hs). destruct (Str.rstrip s) as [|d t].
  - destruct (Str.isspace c); [reflexivity|]. cbn [every]. now rewrite Hc.
  - cbn [every] in *. now rewrite Hc, IH.
Qed.

Lemma every_strip p s : every p s = true -> every p (Str.strip s) = true.
Proof. intros H. now apply every_rstrip, every_lstrip. Qed.

Lemma every_split p sep s :
  every p s = true ->
  Forall (fun w => every (fun c => p c && negb (Ascii.eqb c sep)) w = true) (Str.split sep s).
Proof.
  induction s as [|c s IH]; [repeat constructor|]. cbn [every Str.split].
  intros H. apply andb_true_iff in H. destruct H as [Hc Hs]. specialize (IH Hs).
  destruct (Ascii.eqb c sep) eqn:E.
  - constructor; [reflexivity | exact IH].
  - destruct (Str.split sep s) as [|w ws]; constructor.
    + cbn [every]. now rewrite Hc, E.
    + constructor.
    + inversion IH; subst. cbn [every]. rewrite Hc, E. simpl. assumption.
    + now inversion IH.
Qed.

(** ** The shape of the names *)

Lemma name_words w :
  matches (Re.Seq (Re.Star (Re.Seq (Re.plus (Re.none_of "{")) (Re.plus sp)))
                  (Re.plus (Re.none_of "{ "))) w ->
  every (fun c => negb (Ascii.eqb c "{")) w = true /\ ends_outside "{ " w.
Proof.
  intros H. split.
  - apply (matches_every _ _ _) with (2 := H).
    unfold Re.plus, Re.none_of, sp, Re.lit. cbn [chars_in].
    repeat split; intros a Ha;
      first [ apply Ascii.eqb_eq in Ha; subst a; reflexivity
            | cbn [Str.mem] in Ha; destruct (Ascii.eqb a "{");
              [discriminate | reflexivity] ].
  - inversion H; subst.
    match goal with Hp : matches (Re.plus _) _ |- _ =>
      apply matches_plus_chr_last in Hp; destruct Hp as (u & c & -> & Hc) end.
    exists (w1 ++ u), c. rewrite append_assoc. split; [reflexivity|].
    now apply negb_true_iff in Hc.
Qed.

(** X9. The name of a constructed network is group 1 of the header: it holds
    no opening brace and its last character is neither an opening brace nor
    a space (so it is not empty). *)
Theorem network_name_shape (content : string) (net : BayesianNetwork.t) :
  BayesianNetwork.init content = Ok net ->
  every (fun c => negb (Ascii.eqb c "{")) (BayesianNetwork.name net) = true /\
  ends_outside "{ " (BayesianNetwork.name net).
Proof.
  intros H. apply init_ok in H. destruct H as (m & Hm & -> & _ & _).
  set (G := fun (n : nat) (w : string) =>
              n = 1 -> every (fun c => negb (Ascii.eqb c "{")) w = true /\
                       ends_outside "{ " w).
  assert (HG : groups_sound G network_re).
  { cbv [network_re NETWORK_RE Re.seq_of fold_right groups_sound Re.str].
    repeat split; try exact I; now apply name_words. }
  assert (Hc : captures_sound G (Re.m_groups m))
    by (eapply match_at_sound; [exact HG | exact Hm]).
  destruct (group1_takes_part content m (or_introl Hm)) as (text & Ht & _).
  apply (group_text_sound G m 1 Hc); eauto.
Qed.

Lemma network_name_shape_witness :
  BayesianNetwork.init earthquake = Ok earthquake_net /\
  every (fun c => negb (Ascii.eqb c "{")) (BayesianNetwork.name earthquake_net) = true /\
  ends_outside "{ " (BayesianNetwork.name earthquake_net).
Proof.
  assert (H : BayesianNetwork.init earthquake = Ok earthquake_net)
    by (vm_compute; reflexivity).
  exact (conj H (network_name_shape earthquake earthquake_net H)).
Defined.

Lemma label_char_of_value c :
  (Str.between "a" "z" c || Str.between "A" "Z" c || Str.mem c ", "
   || Str.between "0" "9" c) && negb (Ascii.eqb c ",") = true ->
  label_char c = true.
Proof.
  unfold label_char. cbn [Str.mem].
  destruct (Str.between "a" "z" c), (Str.between "A" "Z" c), (Str.between "0" "9" c),
    (Ascii.eqb c ","), (Ascii.eqb c " "); simpl; auto.
Qed.

(** X10. In a constructed network the name of every variable is not empty
    and holds neither a space nor an opening brace; its domain is not empty,
    and every label is made of letters, digits and spaces only. *)
Theorem variable_shapes (content : string) (net : BayesianNetwork.t) (v : Var.t) :
  BayesianNetwork.init content = Ok net ->
  In v (BayesianNetwork.variables net) ->
  Var.name v <> "" /\
  every (fun c => negb (Str.mem c "{ ")) (Var.name v) = true /\
  Var.domain v <> [] /\
  Forall (fun label => every label_char label = true) (Var.domain v).
Proof.
  intros H Hv. apply init_ok in H. destruct H as (m & _ & _ & Hshape & _).
  set (G := fun (n : nat) (w : string) =>
              (n = 1 -> 1 <= String.length w /\
                        every (fun c => negb (Str.mem c "{ ")) w = true) /\
              (n = 3 -> every (fun c => Str.between "a" "z" c || Str.between "A" "Z" c
                                        || Str.mem c ", " || Str.between "0" "9" c) w
                        = true)).
  assert (HG : groups_sound G var_re).
  { cbv [var_re VAR_RE Re.seq_of fold_right groups_sound Re.str].
    repeat split; try exact I; try discriminate; try intros _;
      match goal with
      | Hw : matches _ ?w |- 1 <= String.length ?w =>
          apply matches_min_len in Hw; exact Hw
      | Hw : matches _ ?w |- every _ ?w = true =>
          apply (matches_every _ _ _) with (2 := Hw);
          unfold Re.plus, Re.none_of, value_char; cbn [chars_in]; auto
      end. }
  apply (in_map (fun v => (Var.name v, Var.domain v))) in Hv.
  fold (shape net) in Hv. rewrite Hshape in Hv. unfold Re.findall3 in Hv.
  rewrite map_map in Hv. apply in_map_iff in Hv. destruct Hv as (d & Hd & Hin).
  inversion Hd as [[Hname Hdomain]]. clear Hd.
  pose proof (scan_groups_sound G var_re HG (2 * String.length content + 2) 0 content false)
    as Hsound.
  pose proof (scan_takes_part var_re 1 eq_refl (2 * String.length content + 2) 0 content false)
    as H1.
  pose proof (scan_takes_part var_re 3 eq_refl (2 * String.length content + 2) 0 content false)
    as H3.
  rewrite List.Forall_forall in Hsound, H1, H3.
  fold (Re.finditer var_re content) in Hsound, H1, H3.
  destruct (group_text_sound G d 1 (Hsound d Hin) (H1 d Hin)) as [Hg1 _].
  destruct (group_text_sound G d 3 (Hsound d Hin) (H3 d Hin)) as [_ Hg3].
  destruct (Hg1 eq_refl) as [Hlen Hchars]. specialize (Hg3 eq_refl).
  split; [|split; [exact Hchars|split]].
  - intros E. rewrite E in Hlen. simpl in Hlen. lia.
  - intros E. apply map_eq_nil in E. now apply split_not_nil in E.
  - apply List.Forall_forall. intros label Hlabel.
    apply in_map_iff in Hlabel. destruct Hlabel as (raw & <- & Hraw).
    apply every_strip.
    pose proof (every_split _ "," _ Hg3) as Hpieces.
    rewrite List.Forall_forall in Hpieces.
    eapply every_impl; [|exact (Hpieces raw Hraw)].
    apply label_char_of_value.
Qed.

Lemma variable_shapes_witness :
  BayesianNetwork.init earthquake = Ok earthquake_net /\
  In alarm (BayesianNetwork.variables earthquake_net) /\
  Var.name alarm <> "" /\
  every (fun c => negb (Str.mem c "{ ")) (Var.name alarm) = true /\
  Var.domain alarm <> [] /\
  Forall (fun label => every label_char label = true) (Var.domain alarm).
Proof.
  assert (H1 : BayesianNetwork.init earthquake = Ok earthquake_net)
    by (vm_compute; reflexivity).
  assert (H2 : In alarm (BayesianNetwork.variables earthquake_net))
    by (vm_compute; do 2 right; left; reflexivity).
  exact (conj H1 (conj H2 (variable_shapes earthquake earthquake_net alarm H1 H2))).
Defined.

(** * Documents and their layout *)

Import Layout.

(** ** Strings *)

Lemma append_eq_append (a b c d : string) :
  a ++ b = c ++ d ->
  (exists e, a = c ++ e /\ d = e ++ b) \/ (exists e, c = a ++ e /\ b = e ++ d).
Proof.
  revert c. induction a as [|x a IH]; intros c H.
  - right. exists c. split; [reflexivity | exact H].
  - destruct c as [|y c].
    + left. exists (String x a). split; [reflexivity | symmetry; exact H].
    + rewrite !append_cons in H. injection H as -> H.
      destruct (IH c H) as [(e & -> & ->)|(e & -> & ->)]; [left|right];
        exists e; split; reflexivity.
Qed.

Lemma append_nil_inv (a b : string) : a ++ b = "" -> a = "" /\ b = "".
Proof. destruct a; [intros H; split; [reflexivity | exact H] | discriminate]. Qed.

Lemma length_spaces n : String.length (Str.spaces n) = n.
Proof. induction n; simpl; congruence. Qed.

Lemma every_spaces (p : ascii -> bool) n : p " "%char = true -> every p (Str.spaces n) = true.
Proof. intros H. induction n; simpl; [reflexivity | now rewrite H]. Qed.

Lemma every_newlines (p : ascii -> bool) n : p "010"%char = true -> every p (newlines n) = true.
Proof. intros H. induction n; simpl; [reflexivity | now rewrite H]. Qed.

Lemma spaces_add n m s : Str.spaces n ++ Str.spaces m ++ s = Str.spaces (n + m) ++ s.
Proof. induction n; [reflexivity | simpl; rewrite !append_cons; congruence]. Qed.

Lemma newlines_snoc n : newlines (S n) = newlines n ++ LF.
Proof. induction n; [reflexivity | ]. change (newlines (S (S n))) with (String "010" (newlines (S n))). rewrite IHn at 1. reflexivity. Qed.

Lemma all_space_spaces n : Str.all_space (Str.spaces n) = true.
Proof. induction n; [reflexivity | exact IHn]. Qed.

Lemma every_starts_outside (p q : ascii -> bool) w rest :
  w <> "" -> every q w = true -> (forall c, q c = true -> p c = false) ->
  starts_outside p (w ++ rest).
Proof.
  destruct w as [|a w]; [congruence|]. intros _ H Hq. simpl in H.
  apply andb_true_iff in H as [H _]. exact (Hq a H).
Qed.

Lemma take_all (w rest : string) :
  Str.take (String.length (w ++ rest) - String.length rest) (w ++ rest) = w.
Proof.
  rewrite length_append. replace (_ + _ - _) with (String.length w) by lia.
  apply take_append.
Qed.

(** ** The matcher on a text whose shape is known *)

Section Greedy.

Context {A : Type}.

Implicit Types k : string -> Re.captures -> option A.

Lemma backtrack_lit a s c k : Re.backtrack (Re.lit a) (String a s) c k = k s c.
Proof. simpl. now rewrite Ascii.eqb_refl. Qed.

Lemma backtrack_str w s c k : Re.backtrack (Re.str w) (w ++ s) c k = k s c.
Proof.
  revert c k. induction w as [|a w IH]; intros c k; [reflexivity|].
  rewrite append_cons. simpl. rewrite Ascii.eqb_refl. apply IH.
Qed.

Lemma backtrack_alt_l r1 r2 s c k x :
  Re.backtrack r1 s c k = Some x -> Re.backtrack (Re.Alt r1 r2) s c k = Some x.
Proof. intros H. simpl. now rewrite H. Qed.

Lemma chr_outside p rest c k :
  starts_outside p rest -> Re.backtrack (Re.Chr p) rest c k = None.
Proof. destruct rest as [|a r]; simpl; [reflexivity | now intros ->]. Qed.

(** What the star lemmas use of the body of the repetition. *)
Lemma chr_body p :
  (forall a s c k, p a = true -> Re.backtrack (Re.Chr p) (String a s) c k = k s c) /\
  (forall rest c k, starts_outside p rest -> Re.backtrack (Re.Chr p) rest c k = None).
Proof.
  split; [|intros; now apply chr_outside].
  intros a s c k H. simpl. now rewrite H.
Qed.

(** A greedy repetition of a set takes the whole run when what follows is
    then matched. *)
Lemma star_chr_greedy p k x :
  forall w rest c fuel,
    String.length w <= fuel ->
    every p w = true -> starts_outside p rest -> k rest c = Some x ->
    Re.star_rounds (Re.backtrack (Re.Chr p)) k fuel (w ++ rest) c = Some x.
Proof.
  destruct (chr_body p) as [Hin Hout]. revert Hin Hout.
  generalize (Re.backtrack (A:=A) (Re.Chr p)). intros body Hin Hout.
  induction w as [|a w IH]; intros rest c fuel Hfuel Hw Hrest Hk.
  - rewrite append_empty_l. destruct fuel; cbn [Re.star_rounds]; [exact Hk|].
    now rewrite Hout.
  - destruct fuel as [|fuel]; [simpl in Hfuel; lia|].
    simpl in Hw. apply andb_true_iff in Hw as [Ha Hw].
    rewrite append_cons. cbn [Re.star_rounds]. rewrite Hin by exact Ha.
    rewrite (proj2 (Nat.ltb_lt _ _)) by (simpl; lia).
    rewrite IH; auto. simpl in Hfuel. lia.
Qed.

(** It matches nothing when what follows is matched at no place of the run. *)
Lemma star_chr_none p k :
  forall tail rest c fuel,
    every p tail = true -> starts_outside p rest ->
    (forall t1 t2, tail = t1 ++ t2 -> k (t2 ++ rest) c = None) ->
    Re.star_rounds (Re.backtrack (Re.Chr p)) k fuel (tail ++ rest) c = None.
Proof.
  destruct (chr_body p) as [Hin Hout]. revert Hin Hout.
  generalize (Re.backtrack (A:=A) (Re.Chr p)). intros body Hin Hout.
  induction tail as [|a t IH]; intros rest c fuel Ht Hrest Hk.
  - rewrite append_empty_l. pose proof (Hk "" "" eq_refl) as H0.
    rewrite append_empty_l in H0.
    destruct fuel; cbn [Re.star_rounds]; [exact H0|]. now rewrite Hout.
  - simpl in Ht. apply andb_true_iff in Ht as [Ha Ht].
    pose proof (Hk "" (String a t) eq_refl) as H0.
    destruct fuel as [|fuel]; cbn [Re.star_rounds]; [exact H0|].
    rewrite append_cons. rewrite Hin by exact Ha.
    rewrite (proj2 (Nat.ltb_lt _ _)) by (simpl; lia).
    rewrite IH; auto.
    intros t1 t2 ->. apply (Hk (String a t1) t2). reflexivity.
Qed.

(** It gives back the end of the run when what follows is matched there and
    nowhere after. *)
Lemma star_chr_back p k x :
  forall w tail rest c fuel,
    String.length w <= fuel ->
    every p w = true -> every p tail = true -> starts_outside p rest ->
    (forall t1 t2, tail = t1 ++ t2 -> t1 <> "" -> k (t2 ++ rest) c = None) ->
    k (tail ++ rest) c = Some x ->
    Re.star_rounds (Re.backtrack (Re.Chr p)) k fuel (w ++ tail ++ rest) c = Some x.
Proof.
  pose proof (star_chr_none p k) as Hnone'.
  destruct (chr_body p) as [Hin Hout]. revert Hnone' Hin Hout.
  generalize (Re.backtrack (A:=A) (Re.Chr p)). intros body Hnone' Hin Hout.
  induction w as [|a w IH]; intros tail rest c fuel Hfuel Hw Ht Hrest Hnone Hk.
  - rewrite append_empty_l. destruct fuel as [|fuel]; cbn [Re.star_rounds]; [exact Hk|].
    destruct tail as [|b t].
    + rewrite append_empty_l in *. now rewrite Hout.
    + simpl in Ht. apply andb_true_iff in Ht as [Hb Ht].
      rewrite append_cons. rewrite Hin by exact Hb.
      rewrite (proj2 (Nat.ltb_lt _ _)) by (simpl; lia).
      rewrite Hnone'; auto.
      intros t1 t2 ->. apply (Hnone (String b t1) t2); [reflexivity | discriminate].
  - destruct fuel as [|fuel]; [simpl in Hfuel; lia|].
    simpl in Hw. apply andb_true_iff in Hw as [Ha Hw].
    rewrite append_cons. cbn [Re.star_rounds]. rewrite Hin by exact Ha.
    rewrite (proj2 (Nat.ltb_lt _ _)) by (simpl; lia).
    rewrite IH; auto. simpl in Hfuel. lia.
Qed.

Lemma backtrack_star_chr p w rest c k x :
  every p w = true -> starts_outside p rest -> k rest c = Some x ->
  Re.backtrack (Re.Star (Re.Chr p)) (w ++ rest) c k = Some x.
Proof.
  intros. simpl. apply star_chr_greedy; auto. rewrite length_append. lia.
Qed.

Lemma backtrack_plus_chr p w rest c k x :
  w <> "" -> every p w = true -> starts_outside p rest -> k rest c = Some x ->
  Re.backtrack (Re.plus (Re.Chr p)) (w ++ rest) c k = Some x.
Proof.
  destruct w as [|a w]; [congruence|]. intros _ Hw Hrest Hk.
  simpl in Hw. apply andb_true_iff in Hw as [Ha Hw].
  rewrite append_cons. unfold Re.plus.
  change (Re.backtrack (Re.Seq ?r1 ?r2) ?s ?c ?k)
    with (Re.backtrack r1 s c (fun s1 c1 => Re.backtrack r2 s1 c1 k)).
  cbn [Re.backtrack]. rewrite Ha.
  apply star_chr_greedy; auto. rewrite length_append. lia.
Qed.

Lemma backtrack_group_plus n p w rest c k x :
  w <> "" -> every p w = true -> starts_outside p rest ->
  k rest ((n, w) :: c) = Some x ->
  Re.backtrack (Re.Group n (Re.plus (Re.Chr p))) (w ++ rest) c k = Some x.
Proof.
  intros Hne Hw Hrest Hk.
  change (Re.backtrack (Re.Group n ?r) ?s c k)
    with (Re.backtrack r s c
            (fun s1 c1 => k s1 ((n, Str.take (String.length s - String.length s1) s) :: c1))).
  apply backtrack_plus_chr; auto. now rewrite take_all.
Qed.

Lemma backtrack_group_plus_back n p w tail rest c k x :
  w <> "" -> every p w = true -> every p tail = true -> starts_outside p rest ->
  (forall t1 t2 c', tail = t1 ++ t2 -> t1 <> "" -> k (t2 ++ rest) c' = None) ->
  k (tail ++ rest) ((n, w) :: c) = Some x ->
  Re.backtrack (Re.Group n (Re.plus (Re.Chr p))) (w ++ tail ++ rest) c k = Some x.
Proof.
  destruct w as [|a w]; [congruence|]. intros _ Hw Ht Hrest Hnone Hk.
  simpl in Hw. apply andb_true_iff in Hw as [Ha Hw].
  change (Re.backtrack (Re.Group n ?r) ?s c k)
    with (Re.backtrack r s c
            (fun s1 c1 => k s1 ((n, Str.take (String.length s - String.length s1) s) :: c1))).
  rewrite append_cons. unfold Re.plus.
  change (Re.backtrack (Re.Seq ?r1 ?r2) ?s ?c ?k)
    with (Re.backtrack r1 s c (fun s1 c1 => Re.backtrack r2 s1 c1 k)).
  cbn [Re.backtrack]. rewrite Ha.
  apply star_chr_back; auto.
  - rewrite !length_append. lia.
  - intros t1 t2 -> Hne. now apply Hnone with (t1 := t1).
  - change (String a (w ++ tail ++ rest)) with (String a w ++ (tail ++ rest)).
    now rewrite take_all.
Qed.

Lemma backtrack_spaces n rest c k x :
  starts_outside (Ascii.eqb " ") rest -> k rest c = Some x ->
  Re.backtrack (Re.Star sp) (Str.spaces n ++ rest) c k = Some x.
Proof.
  intros. apply backtrack_star_chr; auto. apply every_spaces. reflexivity.
Qed.

Lemma backtrack_spaces1 n rest c k x :
  starts_outside (Ascii.eqb " ") rest -> k rest c = Some x ->
  Re.backtrack (Re.plus sp) (Str.spaces (S n) ++ rest) c k = Some x.
Proof.
  intros. apply backtrack_plus_chr; auto; try discriminate.
  apply (every_spaces _ (S n)). reflexivity.
Qed.

Lemma backtrack_newlines1 n rest c k x :
  starts_outside (Ascii.eqb "010") rest -> k rest c = Some x ->
  Re.backtrack (Re.plus nl) (newlines (S n) ++ rest) c k = Some x.
Proof.
  intros. apply backtrack_plus_chr; auto; try discriminate.
  apply (every_newlines _ (S n)). reflexivity.
Qed.

End Greedy.

(** ** Tokens and lists of pieces *)

Lemma plain_spec c :
  plain c = true ->
  Str.isspace c = false /\ Str.mem c "{}();,|" = false /\
  Ascii.eqb " " c = false /\ Ascii.eqb "010" c = false /\
  Ascii.eqb c "," = false.
Proof.
  unfold plain. intros H. apply andb_true_iff in H as [H1 H2].
  apply negb_true_iff in H1, H2.
  destruct c as [[] [] [] [] [] [] [] []]; try discriminate H1; try discriminate H2;
    repeat split; reflexivity.
Qed.

Lemma word_spec s :
  word s = true ->
  s <> "" /\ every plain s = true /\
  occurs "variable" s = false /\ occurs "probability" s = false.
Proof.
  unfold word. intros H.
  apply andb_true_iff in H as [H H4]. apply andb_true_iff in H as [H H3].
  apply andb_true_iff in H as [H1 H2].
  apply negb_true_iff in H1, H3, H4. apply String.eqb_neq in H1. auto.
Qed.

Lemma every_plain (q : ascii -> bool) s :
  (forall c, plain c = true -> q c = true) -> every plain s = true -> every q s = true.
Proof. apply every_impl. Qed.

Lemma list_of_spec ok ps :
  list_of ok ps = true -> ps <> [] /\ Forall (fun p => ok (token p) = true) ps.
Proof.
  destruct ps as [|p ps]; [discriminate|]. unfold list_of. intros H.
  split; [discriminate|]. apply List.Forall_forall. intros x Hx.
  rewrite forallb_forall in H. now apply H.
Qed.

Lemma join_cons sep a l :
  l <> [] -> Str.join sep (a :: l) = a ++ sep ++ Str.join sep l.
Proof. destruct l; [congruence | reflexivity]. Qed.

Lemma pieces_cons p ps :
  pieces (p :: ps) = Str.spaces (pad_before p) ++ pieces_from (p :: ps).
Proof.
  unfold pieces, pieces_from, padded. cbn [map].
  destruct (map _ ps) eqn:E; cbn [Str.join]; now rewrite ?append_assoc.
Qed.

Lemma every_join (q : ascii -> bool) l :
  q ","%char = true -> Forall (fun w => every q w = true) l ->
  every q (Str.join "," l) = true.
Proof.
  intros Hc. induction 1 as [|w l Hw Hl IH]; [reflexivity|].
  destruct l as [|w' l]; [exact Hw|].
  rewrite join_cons by discriminate. rewrite every_append, Hw.
  change (every q (String "," (Str.join "," (w' :: l))) = true).
  cbn [every]. now rewrite Hc, IH.
Qed.

Lemma every_pieces (q : ascii -> bool) ps :
  q " "%char = true -> q ","%char = true ->
  Forall (fun p => every q (token p) = true) ps ->
  every q (pieces ps) = true /\ every q (pieces_from ps) = true.
Proof.
  intros Hs Hc Hps.
  assert (Hpad : Forall (fun w => every q w = true) (map padded ps)).
  { apply Forall_map. eapply Forall_impl; [exact Hps|]. intros p Hp. unfold padded.
    cbn beta. now rewrite !every_append, Hp, !every_spaces. }
  split; [now apply every_join|].
  destruct ps as [|p ps]; [reflexivity|]. unfold pieces_from.
  apply every_join; [exact Hc|]. cbn [map] in Hpad.
  apply Forall_cons in Hpad as [_ Hpad]. apply Forall_cons. split; [|exact Hpad].
  apply Forall_cons in Hps as [Hp _]. now rewrite every_append, Hp, every_spaces.
Qed.

Lemma pieces_from_starts ok ps (p : ascii -> bool) rest :
  list_of ok ps = true ->
  (forall s, ok s = true -> word s = true) ->
  (forall c, plain c = true -> p c = false) ->
  starts_outside p (pieces_from ps ++ rest) /\ pieces_from ps <> "".
Proof.
  intros H Hok Hp. apply list_of_spec in H as [Hne H].
  destruct ps as [|x ps]; [congruence|]. apply Forall_cons in H as [Hx _].
  apply Hok, word_spec in Hx as (Hx & Hplain & _).
  unfold pieces_from.
  destruct (token x) as [|a t] eqn:E; [congruence|].
  simpl in Hplain. apply andb_true_iff in Hplain as [Ha _].
  destruct (map padded ps); cbn [Str.join]; rewrite ?append_cons;
    (split; [exact (Hp a Ha) | discriminate]).
Qed.

(** ** The patterns on the declarations *)

Lemma backtrack_seq {A : Type} r1 r2 s c (k : string -> Re.captures -> option A) :
  Re.backtrack (Re.Seq r1 r2) s c k
  = Re.backtrack r1 s c (fun s1 c1 => Re.backtrack r2 s1 c1 k).
Proof. reflexivity. Qed.

Lemma backtrack_lit1 {A : Type} a s c (k : string -> Re.captures -> option A) :
  Re.backtrack (Re.lit a) (String a "" ++ s) c k = k s c.
Proof. apply backtrack_lit. Qed.

(** A plain character is none of a set of blanks and marks. *)
Lemma plain_none_of chars c :
  every (fun d => negb (plain d)) chars = true ->
  plain c = true -> negb (Str.mem c chars) = true.
Proof.
  intros Hch Hc. induction chars as [|d chars IH]; [reflexivity|].
  simpl in Hch. apply andb_true_iff in Hch as [Hd Hch]. cbn [Str.mem].
  destruct (Ascii.eqb_spec c d) as [->|_]; [|now apply IH].
  now rewrite Hc in Hd.
Qed.

Lemma plain_not_space c : plain c = true -> Ascii.eqb " " c = false.
Proof. intros H. now apply plain_spec in H. Qed.

Lemma digit_not_space c : Str.between "0" "9" c = true -> Ascii.eqb " " c = false.
Proof. destruct (Ascii.eqb_spec " " c) as [<-|]; [discriminate | reflexivity]. Qed.

Lemma alnum_value c :
  alnum c = true ->
  Str.between "a" "z" c || Str.between "A" "Z" c || Str.mem c ", " || Str.between "0" "9" c
  = true.
Proof.
  unfold alnum. intros H. apply orb_true_iff in H as [H|H];
    [apply orb_true_iff in H as [H|H]|]; rewrite H; rewrite ?orb_true_r; reflexivity.
Qed.

Lemma label_spec s : label s = true -> word s = true /\ every alnum s = true.
Proof. unfold label. intros H. now apply andb_true_iff in H. Qed.

Lemma number_spec s :
  number s = true -> s <> "" /\ every (Str.between "0" "9") s = true.
Proof.
  unfold number. intros H. apply andb_true_iff in H as [H1 H2].
  apply negb_true_iff, String.eqb_neq in H1. auto.
Qed.

Lemma starts_outside_spaces (p : ascii -> bool) n s :
  p " "%char = false -> starts_outside p s -> starts_outside p (Str.spaces n ++ s).
Proof. intros Hp Hs. destruct n; [exact Hs | exact Hp]. Qed.

Ltac outside := first [reflexivity | apply starts_outside_spaces; reflexivity].

(** After [Re.Seq]: a literal, a run of spaces or of line feeds. *)
Ltac step :=
  rewrite backtrack_seq;
  first [ rewrite backtrack_str
        | rewrite backtrack_lit1
        | apply backtrack_spaces1; [try outside | cbv beta]
        | apply backtrack_spaces; [try outside | cbv beta]
        | apply backtrack_newlines1; [try outside | cbv beta] ].

Lemma variable_match {A : Type} v rest (k : string -> Re.captures -> option A) x :
  wf_variable v = true ->
  k rest (variable_groups v) = Some x ->
  Re.backtrack var_re (variable_text v ++ rest) [] k = Some x.
Proof.
  intros Hwf Hk. unfold wf_variable in Hwf.
  apply andb_true_iff in Hwf as [Hwf Hvalues]. apply andb_true_iff in Hwf as [Hname Hsize].
  destruct v as [i1 i2 name i3 i4 i5 i6 i7 i8 size i9 i10 i11 values i12 i13].
  unfold variable_groups in Hk. cbn [v_values v_size v_name] in *.
  apply word_spec in Hname as (Hname & Hplain & _).
  apply number_spec in Hsize as (Hsize & Hdigits).
  pose proof (pieces_from_starts label values (Ascii.eqb " ") ("}" ++ ";" ++ newlines (S i12) ++ Str.spaces i13 ++ "}" ++ rest) Hvalues
                (fun s H => proj1 (label_spec s H)) plain_not_space) as [Hstart Hne].
  apply list_of_spec in Hvalues as [Hnil Hvalues].
  destruct values as [|p values]; [congruence|].
  unfold var_re, VAR_RE, Re.seq_of, variable_text.
  cbn [fold_right v_indent v_gap v_name v_before_brace v_lines v_type_indent v_type_gap
       v_discrete_gap v_size_indent v_size v_size_gap v_before_values v_values_indent
       v_values v_end_lines v_close].
  rewrite pieces_cons. rewrite !append_assoc. rewrite (spaces_add i11).
  do 3 step.
  { apply every_starts_outside with (q := plain); auto using plain_not_space. }
  rewrite backtrack_seq. apply backtrack_group_plus; auto.
  { revert Hplain. apply every_impl. intros c. now apply (plain_none_of "{ "). }
  { reflexivity. }
  do 6 step.
  rewrite backtrack_seq. apply backtrack_alt_l. rewrite backtrack_str.
  do 3 step.
  { apply every_starts_outside with (q := Str.between "0" "9"); auto using digit_not_space. }
  rewrite backtrack_seq. apply backtrack_group_plus; auto.
  { reflexivity. }
  do 5 step.
  { exact Hstart. }
  rewrite backtrack_seq. apply backtrack_group_plus; auto.
  { apply every_pieces; try reflexivity.
    eapply Forall_impl; [exact Hvalues|]. intros q Hq. cbn beta in Hq.
    apply label_spec in Hq as [_ Hq]. revert Hq. apply every_impl, alnum_value. }
  { reflexivity. }
  do 4 step.
  rewrite backtrack_seq, backtrack_lit1. exact Hk.
Qed.

Lemma append_nonempty_r (a b : string) : b <> "" -> a ++ b <> "".
Proof. intros Hb H. apply append_nil_inv in H as [_ H]. contradiction. Qed.

Lemma backtrack_spaces0 {A : Type} rest c (k : string -> Re.captures -> option A) x :
  starts_outside (Ascii.eqb " ") rest -> k rest c = Some x ->
  Re.backtrack (Re.Star sp) rest c k = Some x.
Proof. apply (backtrack_spaces 0). Qed.

Lemma word_list_facts ps rest (chars : string) :
  list_of word ps = true ->
  every (fun d => negb (plain d)) chars = true ->
  Str.mem " " chars = false -> Str.mem "," chars = false ->
  exists p ps',
    ps = p :: ps' /\
    pieces_from ps <> "" /\ pieces ps <> "" /\
    starts_outside (Ascii.eqb " ") (pieces_from ps ++ rest) /\
    every (fun c => negb (Str.mem c chars)) (pieces_from ps) = true /\
    every (fun c => negb (Str.mem c chars)) (pieces ps) = true.
Proof.
  intros Hps Hchars Hs Hc.
  pose proof (pieces_from_starts word ps (Ascii.eqb " ") rest Hps (fun s H => H)
                plain_not_space) as [Hstart Hne].
  apply list_of_spec in Hps as [Hnil Hps].
  destruct ps as [|p ps']; [congruence|]. exists p, ps'.
  split; [reflexivity|]. split; [exact Hne|].
  split; [rewrite pieces_cons; now apply append_nonempty_r|].
  split; [exact Hstart|].
  apply and_comm, every_pieces.
  - now rewrite Hs.
  - now rewrite Hc.
  - eapply Forall_impl; [exact Hps|]. intros q Hq. cbn beta in Hq.
    apply word_spec in Hq as (_ & Hq & _). revert Hq. apply every_impl.
    intros c. now apply plain_none_of.
Qed.

Lemma table_match {A : Type} indent gap values trail lines
    (k : string -> Re.captures -> option A) x :
  list_of word values = true ->
  k (Str.spaces trail ++ newlines lines) [(1, pieces_from values)] = Some x ->
  Re.backtrack table_re (body_text (Table indent gap values trail lines)) [] k = Some x.
Proof.
  intros Hvalues Hk.
  destruct (word_list_facts values (";" ++ Str.spaces trail ++ newlines lines) ";" Hvalues)
    as (p & ps & -> & Hne & _ & Hstart & Hevery & _); try reflexivity.
  unfold table_re, TABLE_RE, Re.seq_of, body_text. cbn [fold_right].
  rewrite pieces_cons, !append_assoc, (spaces_add (S gap)).
  do 2 step.
  rewrite backtrack_seq. apply backtrack_spaces1; [exact Hstart|]. cbv beta.
  rewrite backtrack_seq.
  apply backtrack_group_plus; [exact Hne | exact Hevery | reflexivity |].
  rewrite backtrack_seq. apply backtrack_spaces0; [reflexivity|]. cbv beta.
  rewrite backtrack_seq, backtrack_lit1. exact Hk.
Qed.

Lemma row_match {A : Type} r rest (k : string -> Re.captures -> option A) x :
  wf_row r = true ->
  k (Str.spaces (r_trail r) ++ rest) (row_groups r) = Some x ->
  Re.backtrack parents_re (row_text r ++ rest) [] k = Some x.
Proof.
  intros Hwf Hk. unfold wf_row in Hwf. apply andb_true_iff in Hwf as [Hkey Hvalues].
  destruct r as [indent key gap values trail lines].
  unfold row_groups in Hk. cbn [r_key r_values r_trail] in *.
  destruct (word_list_facts values (";" ++ Str.spaces trail ++ rest) ";" Hvalues)
    as (p & ps & -> & Hne & _ & Hstart & Hevery & _); try reflexivity.
  destruct (word_list_facts key "" ")" Hkey)
    as (p' & ps' & E & _ & Hne' & _ & _ & Hevery'); try reflexivity.
  unfold parents_re, PARENTS_RE, Re.seq_of, row_text.
  cbn [fold_right r_indent r_key r_gap r_values r_trail].
  rewrite (pieces_cons p ps), !append_assoc, (spaces_add (S gap)).
  do 2 step.
  rewrite backtrack_seq.
  apply backtrack_group_plus; [exact Hne' | exact Hevery' | reflexivity |].
  step.
  rewrite backtrack_seq. apply backtrack_spaces1; [exact Hstart|]. cbv beta.
  rewrite backtrack_seq.
  apply backtrack_group_plus; [exact Hne | exact Hevery | reflexivity |].
  rewrite backtrack_seq. apply backtrack_spaces0; [reflexivity|]. cbv beta.
  rewrite backtrack_seq, backtrack_lit1. exact Hk.
Qed.

Lemma backtrack_chr_other {A : Type} p r s c (k : string -> Re.captures -> option A) :
  starts_outside p s -> Re.backtrack (Re.Seq (Re.Chr p) r) s c k = None.
Proof. intros H. rewrite backtrack_seq. now apply chr_outside. Qed.

Lemma backtrack_alt_r {A : Type} r1 r2 s c (k : string -> Re.captures -> option A) :
  Re.backtrack r1 s c k = None ->
  Re.backtrack (Re.Alt r1 r2) s c k = Re.backtrack r2 s c k.
Proof. intros H. simpl. now rewrite H. Qed.

(** No closing brace in a well-formed body. *)
Lemma every_row r :
  wf_row r = true -> every (fun c => negb (Str.mem c "}")) (row_text r) = true.
Proof.
  intros Hwf. unfold wf_row in Hwf. apply andb_true_iff in Hwf as [Hkey Hvalues].
  destruct (word_list_facts (r_values r) "" "}" Hvalues)
    as (_ & _ & _ & _ & _ & _ & _ & Hv); try reflexivity.
  destruct (word_list_facts (r_key r) "" "}" Hkey)
    as (_ & _ & _ & _ & _ & _ & _ & Hk); try reflexivity.
  unfold row_text. rewrite !every_append, Hk, Hv, !every_spaces by reflexivity.
  reflexivity.
Qed.

Lemma rows_text_cons r r' rows :
  rows_text (r :: r' :: rows)
  = row_text r ++ newlines (S (r_lines r)) ++ rows_text (r' :: rows).
Proof. reflexivity. Qed.

Lemma every_rows rows :
  forallb wf_row rows = true ->
  every (fun c => negb (Str.mem c "}")) (rows_text rows) = true.
Proof.
  induction rows as [|r rows IH]; [reflexivity|]. intros H.
  cbn [forallb] in H. apply andb_true_iff in H as [Hr Hrows].
  specialize (IH Hrows). apply every_row in Hr.
  destruct rows as [|r' rows]; [cbn [rows_text] | rewrite rows_text_cons];
    rewrite !every_append, Hr, ?IH, !every_newlines by reflexivity; reflexivity.
Qed.

Lemma rows_text_nonempty r rows : rows_text (r :: rows) <> "".
Proof.
  assert (H : row_text r <> "").
  { unfold row_text. apply append_nonempty_r. discriminate. }
  destruct rows; [cbn [rows_text] | rewrite rows_text_cons]; intros E;
    apply append_nil_inv in E as [E _]; contradiction.
Qed.

Lemma every_body b :
  wf_body b = true ->
  body_text b <> "" /\ every (fun c => negb (Str.mem c "}")) (body_text b) = true.
Proof.
  destruct b as [indent gap values trail lines|bar parents lead rows]; cbn [wf_body body_text].
  - intros Hvalues.
    destruct (word_list_facts values "" "}" Hvalues)
      as (_ & _ & _ & _ & _ & _ & _ & Hv); try reflexivity.
    split; [apply append_nonempty_r; discriminate|].
    rewrite !every_append, Hv, !every_spaces, every_newlines by reflexivity.
    reflexivity.
  - intros H. apply andb_true_iff in H as [H Hrows]. apply andb_true_iff in H as [_ Hne].
    destruct rows as [|r rows]; [discriminate|].
    split; [apply append_nonempty_r, rows_text_nonempty|].
    rewrite every_append, every_newlines, every_rows by auto. reflexivity.
Qed.

(** What is left of a line feed and spaces after a first part starts with no
    line feed. *)
Lemma after_line_feed n t1 t2 rest :
  LF ++ Str.spaces n = t1 ++ t2 -> t1 <> "" ->
  starts_outside (Ascii.eqb "010") (t2 ++ String "}" rest).
Proof.
  destruct t1 as [|a t1]; [congruence|]. intros H _.
  unfold LF in H. rewrite !append_cons, append_empty_l in H. injection H as _ H.
  revert t1 H. induction n as [|n IH]; intros t1 H.
  - symmetry in H. apply append_nil_inv in H as [_ ->]. reflexivity.
  - destruct t1 as [|b t1].
    + rewrite append_empty_l in H. subst t2. reflexivity.
    + simpl in H. rewrite append_cons in H. injection H as _ H. now apply (IH t1).
Qed.

Lemma probability_match {A : Type} q rest (k : string -> Re.captures -> option A) x :
  wf_probability q = true ->
  k rest (probability_groups q) = Some x ->
  Re.backtrack prob_re (probability_text q ++ rest) [] k = Some x.
Proof.
  intros Hwf Hk. unfold wf_probability in Hwf. apply andb_true_iff in Hwf as [Htarget Hbody].
  destruct q as [i1 i2 i3 target i4 b i5 i6].
  unfold probability_groups in Hk. cbn [q_body q_target] in *.
  apply word_spec in Htarget as (Hne & Hplain & _).
  destruct (every_body b Hbody) as [Hbne Hbevery].
  unfold prob_re, PROB_RE, Re.seq_of, probability_text.
  cbn [fold_right q_indent q_gap q_paren q_target q_after_target q_body q_before_brace q_close].
  rewrite !append_assoc.
  do 5 step.
  { apply every_starts_outside with (q := plain); auto using plain_not_space. }
  rewrite backtrack_seq. apply backtrack_group_plus; [exact Hne | | reflexivity |].
  { revert Hplain. apply every_impl. intros c. now apply (plain_none_of " "). }
  assert (Hend : forall c,
    k rest ((3, body_text b) :: c) = Some x ->
    Re.backtrack
      (Re.Seq (Re.lit ")")
         (Re.Seq (Re.Star sp)
            (Re.Seq (Re.lit "{")
               (Re.Seq nl
                  (Re.Seq (Re.Group 3 (Re.plus (Re.none_of "}")))
                     (Re.Seq nl (Re.Seq (Re.Star sp) (Re.Seq (Re.lit "}") Re.Eps))))))))
      (")" ++ Str.spaces i5 ++ "{" ++ LF ++ body_text b ++ LF ++ Str.spaces i6 ++ "}" ++ rest)
      c k = Some x).
  { intros c Hc. unfold nl, LF. do 4 step.
    rewrite <- (append_assoc (String "010" "") (Str.spaces i6)).
    rewrite backtrack_seq. apply backtrack_group_plus_back;
      [exact Hbne | exact Hbevery | | reflexivity | |].
    - rewrite every_append, every_spaces by reflexivity. reflexivity.
    - intros t1 t2 c' E Ht1. apply backtrack_chr_other.
      now apply (after_line_feed i6 t1 t2).
    - rewrite append_assoc. do 2 step.
      rewrite backtrack_seq, backtrack_lit1. exact Hc. }
  destruct b as [indent gap values trail lines|bar parents lead rows];
    cbn [given_text]; cbn [app] in Hk.
  - rewrite append_empty_l.
    rewrite backtrack_seq. apply backtrack_spaces1; [reflexivity|]. cbv beta.
    rewrite backtrack_seq. unfold Re.opt.
    rewrite backtrack_alt_r by (apply backtrack_chr_other; reflexivity).
    change (Re.backtrack Re.Eps ?s ?c ?k) with (k s c). cbv beta.
    apply Hend. exact Hk.
  - cbn [wf_body] in Hbody. apply andb_true_iff in Hbody as [Hbody _].
    apply andb_true_iff in Hbody as [Hparents _].
    destruct (word_list_facts parents
                (")" ++ Str.spaces i5 ++ "{" ++ LF ++ body_text (Rows bar parents lead rows)
                 ++ LF ++ Str.spaces i6 ++ "}" ++ rest) ")" Hparents)
      as (p & ps & -> & Hpne & _ & Hstart & Hevery & _); try reflexivity.
    rewrite pieces_cons, !append_assoc, (spaces_add bar).
    step.
    rewrite backtrack_seq. unfold Re.opt. apply backtrack_alt_l.
    do 2 step; [exact Hstart|].
    rewrite backtrack_seq.
    apply backtrack_group_plus; [exact Hpne | exact Hevery | reflexivity |].
    change (Re.backtrack Re.Eps ?s ?c ?k) with (k s c). cbv beta.
    apply Hend. exact Hk.
Qed.

(** ** The name of the header *)

Lemma groups_sound_true r : groups_sound (fun _ _ => True) r.
Proof. induction r; simpl; auto. Qed.

Lemma backtrack_words {A : Type} r s c (k : string -> Re.captures -> option A) x :
  Re.backtrack r s c k = Some x ->
  exists pre s1 c1, s = pre ++ s1 /\ matches r pre /\ k s1 c1 = Some x.
Proof.
  intros H.
  destruct (backtrack_sound (fun _ _ => True) r (groups_sound_true r) s c k x)
    as (pre & s1 & c1 & E & Hm & _ & Hk); auto.
  - apply List.Forall_forall. auto.
  - eauto 6.
Qed.

Lemma star_rounds_words {A : Type} r (k : string -> Re.captures -> option A) fuel s c x :
  Re.star_rounds (Re.backtrack r) k fuel s c = Some x ->
  exists pre s1 c1, s = pre ++ s1 /\ matches (Re.Star r) pre /\ k s1 c1 = Some x.
Proof.
  intros H.
  destruct (star_rounds_sound (fun _ _ => True) r k) with (fuel := fuel) (s := s) (c := c) (x := x)
    as (pre & s1 & c1 & E & Hm & _ & Hk); auto.
  - intros s' c' k' x' _ H'.
    destruct (backtrack_sound (fun _ _ => True) r (groups_sound_true r) s' c' k' x')
      as (pre & s1 & c1 & E & Hm & Hc & Hk); auto.
    + apply List.Forall_forall. auto.
    + eauto 8.
  - apply List.Forall_forall. auto.
  - eauto 6.
Qed.

Lemma prefix_before (p : ascii -> bool) w s3 u a rest :
  every p w = true -> p a = false -> w ++ s3 = u ++ String a rest ->
  exists e, u = w ++ e.
Proof.
  revert u. induction w as [|b w IH]; intros u Hw Ha H.
  - now exists u.
  - simpl in Hw. apply andb_true_iff in Hw as [Hb Hw]. destruct u as [|b' u].
    + rewrite append_cons, append_empty_l in H. injection H as -> _. congruence.
    + rewrite !append_cons in H. injection H as -> H.
      destruct (IH u Hw Ha H) as [e ->]. now exists e.
Qed.

Lemma last_in_tail v d b e0 :
  v ++ String d "" = b ++ e0 -> e0 <> "" -> exists e1, e0 = e1 ++ String d "".
Proof.
  revert v. induction b as [|y b IH]; intros v H Hne.
  - exists v. now rewrite append_empty_l in H.
  - destruct v as [|y' v].
    + rewrite append_empty_l, append_cons in H. injection H as _ H.
      symmetry in H. apply append_nil_inv in H as [_ H]. contradiction.
    + rewrite !append_cons in H. injection H as _ H. now apply (IH v).
Qed.

(** A name without a space is not broken into words. *)
Lemma name_unbroken name n rest pre pre2 pre3 s3 :
  every plain name = true ->
  name ++ Str.spaces n ++ String "{" rest = pre ++ pre2 ++ pre3 ++ s3 ->
  matches (Re.Seq (Re.plus (Re.none_of "{")) (Re.plus sp)) pre ->
  matches (Re.Star (Re.Seq (Re.plus (Re.none_of "{")) (Re.plus sp))) pre2 ->
  matches (Re.plus (Re.none_of "{ ")) pre3 ->
  False.
Proof.
  intros Hplain Heq Hpre Hpre2 Hpre3.
  assert (HW : matches (Re.Seq (Re.Star (Re.Seq (Re.plus (Re.none_of "{")) (Re.plus sp)))
                          (Re.plus (Re.none_of "{ "))) ((pre ++ pre2) ++ pre3)).
  { apply matches_seq; [|exact Hpre3]. now apply matches_star_cons. }
  apply name_words in HW as [Hbrace (V & d & EW & Hd)].
  rewrite <- !append_assoc in Heq.
  symmetry in Heq.
  destruct (prefix_before _ _ _ _ "{"%char _ Hbrace eq_refl Heq) as [e He].
  assert (Hname : exists e0, name = ((pre ++ pre2) ++ pre3) ++ e0).
  { apply append_eq_append in He as [(e0 & E1 & E2)|(e0 & E1 & E2)]; [eauto|].
    destruct e0 as [|y e0]; [exists ""; rewrite E1; now rewrite !append_empty_r|].
    exfalso. rewrite EW in E1.
    destruct (last_in_tail _ _ _ _ E1) as [e1 Ee1]; [discriminate|].
    assert (Hsp : every (Ascii.eqb " ") (Str.spaces n) = true)
      by (now apply every_spaces).
    rewrite E2, Ee1, !every_append in Hsp. cbn [every] in Hsp.
    destruct (Ascii.eqb_spec " " d) as [<-|]; [discriminate Hd|].
    rewrite andb_false_r in Hsp. simpl in Hsp. discriminate. }
  destruct Hname as [e0 ->].
  inversion Hpre as [| |r1 r2 w1 w2 Hw1 Hw2| | | | |]; subst.
  apply matches_plus_chr_last in Hw2 as (u & c & -> & Hc).
  apply Ascii.eqb_eq in Hc. subst c.
  rewrite !every_append in Hplain. cbn [every] in Hplain.
  change (plain " ") with false in Hplain.
  rewrite ?andb_false_r, ?andb_false_l in Hplain. simpl in Hplain.
  repeat (rewrite ?andb_false_r, ?andb_false_l in Hplain; simpl in Hplain).
  discriminate.
Qed.

Lemma name_group {A : Type} name n rest c (k : string -> Re.captures -> option A) x :
  name <> "" -> every plain name = true ->
  k (Str.spaces n ++ String "{" rest) ((1, name) :: c) = Some x ->
  Re.backtrack
    (Re.Group 1 (Re.Seq (Re.Star (Re.Seq (Re.plus (Re.none_of "{")) (Re.plus sp)))
                        (Re.plus (Re.none_of "{ "))))
    (name ++ Str.spaces n ++ String "{" rest) c k = Some x.
Proof.
  intros Hne Hplain Hk.
  change (Re.backtrack (Re.Group 1 ?r) ?s c k)
    with (Re.backtrack r s c
            (fun s1 c1 => k s1 ((1, Str.take (String.length s - String.length s1) s) :: c1))).
  rewrite backtrack_seq.
  change (Re.backtrack (Re.Star ?r) ?s ?c ?k)
    with (Re.star_rounds (Re.backtrack r) k (String.length s) s c).
  assert (Hlast : forall s1 c1,
    s1 = name ++ Str.spaces n ++ String "{" rest -> c1 = c ->
    Re.backtrack (Re.plus (Re.none_of "{ ")) s1 c1
      (fun s2 c2 =>
         k s2 ((1, Str.take (String.length (name ++ Str.spaces n ++ String "{" rest)
                             - String.length s2)
                      (name ++ Str.spaces n ++ String "{" rest)) :: c2)) = Some x).
  { intros s1 c1 -> ->. apply backtrack_plus_chr; [exact Hne | | |].
    - revert Hplain. apply every_impl. intros a. now apply (plain_none_of "{ ").
    - apply starts_outside_spaces; reflexivity.
    - now rewrite take_all. }
  destruct (String.length (name ++ Str.spaces n ++ String "{" rest)) as [|fuel] eqn:Hlen.
  { cbn [Re.star_rounds]. now apply Hlast. }
  cbn [Re.star_rounds].
  destruct (Re.backtrack (Re.Seq (Re.plus (Re.none_of "{")) (Re.plus sp)) _ c _) as [y|] eqn:E;
    [exfalso | now apply Hlast].
  apply backtrack_words in E as (pre & s1 & c1 & E1 & Hpre & E).
  destruct (Nat.ltb _ _); [|discriminate].
  apply star_rounds_words in E as (pre2 & s2 & c2 & E2 & Hpre2 & E).
  apply backtrack_words in E as (pre3 & s3 & c3 & E3 & Hpre3 & _).
  subst s1 s2. exact (name_unbroken _ _ _ _ _ _ _ Hplain E1 Hpre Hpre2 Hpre3).
Qed.

Lemma header_match {A : Type} h rest (k : string -> Re.captures -> option A) x :
  word (h_name h) = true ->
  k rest [(1, h_name h)] = Some x ->
  Re.backtrack network_re (header_text h ++ rest) [] k = Some x.
Proof.
  intros Hname Hk. destruct h as [i1 i2 name i3 i4 i5]. cbn [h_name] in *.
  apply word_spec in Hname as (Hne & Hplain & _).
  unfold network_re, NETWORK_RE, Re.seq_of, header_text.
  cbn [fold_right h_indent h_gap h_name h_before_brace h_lines h_close].
  rewrite !append_assoc.
  do 3 step.
  { apply every_starts_outside with (q := plain); auto using plain_not_space. }
  change ("{" ++ ?s) with (String "{" s).
  rewrite backtrack_seq. apply name_group; [exact Hne | exact Hplain |].
  rewrite backtrack_seq. apply backtrack_spaces; [reflexivity|]. cbv beta.
  rewrite backtrack_seq, backtrack_lit.
  do 2 step.
  rewrite backtrack_seq, backtrack_lit1. exact Hk.
Qed.

(** ** Scanning a text *)

Lemma found_hit r s rest caps :
  (forall (k : string -> Re.captures -> option (string * Re.captures)) x,
      k rest caps = Some x -> Re.backtrack r s [] k = Some x) ->
  String.length rest < String.length s ->
  found r s = caps :: found r rest.
Proof.
  intros Hmatch Hlen. unfold found, Re.finditer.
  replace (2 * String.length s + 2) with (S (2 * String.length s + 1)) by lia.
  cbn [Re.scan]. unfold Re.match_at at 1.
  rewrite (Hmatch _ (rest, caps)) by reflexivity.
  cbn [map Re.m_groups Re.m_end Re.m_rest]. f_equal.
  replace (0 + (String.length s - String.length rest) =? 0)%nat with false
    by (symmetry; apply Nat.eqb_neq; lia).
  apply scan_groups; unfold Re.scan_bound; lia.
Qed.

Lemma found_skip r a s :
  Re.match_at r 0 (String a s) false = None -> found r (String a s) = found r s.
Proof.
  intros Hnone. unfold found, Re.finditer.
  replace (2 * String.length (String a s) + 2)
    with (S (2 * String.length (String a s) + 1)) by lia.
  cbn [Re.scan]. rewrite Hnone.
  apply scan_groups; unfold Re.scan_bound; simpl; lia.
Qed.

Lemma found_end r : Re.match_at r 0 "" false = None -> found r "" = [].
Proof. intros H. unfold found, Re.finditer. cbn [String.length Nat.mul Nat.add Re.scan]. now rewrite H. Qed.

Lemma found_skip_region r u rest :
  (forall u1 u2, u = u1 ++ u2 -> u2 <> "" -> Re.match_at r 0 (u2 ++ rest) false = None) ->
  found r (u ++ rest) = found r rest.
Proof.
  induction u as [|a u IH]; intros H; [reflexivity|].
  rewrite append_cons, found_skip.
  - apply IH. intros u1 u2 -> Hne. now apply (H (String a u1) u2).
  - rewrite <- append_cons. now apply (H "" (String a u)).
Qed.

(** *** Where a pattern that starts with spaces and a keyword cannot match *)

Lemma every_space_spaces w :
  every (Ascii.eqb " ") w = true -> w = Str.spaces (String.length w).
Proof.
  induction w as [|a w IH]; [reflexivity|]. cbn [every String.length Str.spaces]. intros H.
  apply andb_true_iff in H as [Ha Hw]. apply Ascii.eqb_eq in Ha. subst a.
  now rewrite <- IH.
Qed.

Lemma matches_spaces w : matches (Re.Star sp) w -> exists n, w = Str.spaces n.
Proof.
  intros H. exists (String.length w). apply every_space_spaces.
  apply (matches_every _ (Re.Star sp)); [|exact H]. simpl. auto.
Qed.

Lemma matches_lit a w : matches (Re.lit a) w -> w = String a "".
Proof.
  unfold Re.lit. intros H. inversion H as [|set b Hb| | | | | |]; subst.
  apply Ascii.eqb_eq in Hb. now subst.
Qed.

Lemma matches_str kw w : matches (Re.str kw) w -> w = kw.
Proof.
  revert w. induction kw as [|a kw IH]; intros w H; cbn [Re.str] in H.
  - now inversion H.
  - inversion H as [| |r1 r2 w1 w2 H1 H2| | | | |]; subst.
    apply matches_lit in H1. apply IH in H2. now subst.
Qed.

Lemma keyword_fail kw r1 r s pos b :
  (forall w, matches r1 w -> w = kw) ->
  ~ begins kw s ->
  Re.match_at (Re.Seq (Re.Star sp) (Re.Seq r1 r)) pos s b = None.
Proof.
  intros Hkw Hs. unfold Re.match_at.
  destruct (Re.backtrack _ s [] _) as [[s1 c1]|] eqn:E; [exfalso|reflexivity].
  apply backtrack_words in E as (pre & s2 & c2 & -> & Hpre & _).
  inversion Hpre as [| |? ? w1 w23 H1 H23| | | | |]; subst.
  inversion H23 as [| |? ? w2 w3 H2 H3| | | | |]; subst.
  apply matches_spaces in H1 as [n ->]. apply Hkw in H2. subst w2.
  apply Hs. exists n, (w3 ++ s2). now rewrite !append_assoc.
Qed.

(** *** Occurrences of a keyword *)

Lemma starts_with_append kw t : starts_with kw (kw ++ t) = true.
Proof.
  induction kw as [|a kw IH]; [reflexivity|].
  rewrite append_cons. cbn [starts_with]. now rewrite Ascii.eqb_refl.
Qed.

Lemma starts_with_before kw u rest :
  starts_with kw (u ++ rest) = true ->
  starts_outside (fun c => Str.mem c kw) rest ->
  starts_with kw u = true.
Proof.
  revert u. induction kw as [|a kw IH]; intros u H Hrest; [reflexivity|].
  destruct u as [|b u].
  - rewrite append_empty_l in H. destruct rest as [|c rest]; [discriminate|].
    cbn [starts_with] in H. apply andb_true_iff in H as [H _].
    apply Ascii.eqb_eq in H. subst c. cbn [starts_outside Str.mem] in Hrest.
    now rewrite Ascii.eqb_refl in Hrest.
  - rewrite append_cons in H. cbn [starts_with] in *.
    apply andb_true_iff in H as [-> H]. cbn [andb]. apply (IH u H).
    destruct rest as [|c rest]; [exact I|]. cbn [starts_outside Str.mem] in *.
    destruct (Ascii.eqb c a); [discriminate | exact Hrest].
Qed.

Lemma occurs_cons kw a s :
  occurs kw (String a s) = starts_with kw (String a s) || occurs kw s.
Proof. reflexivity. Qed.

Lemma occurs_starts kw s : starts_with kw s = true -> occurs kw s = true.
Proof. intros H. destruct s; cbn [occurs]; now rewrite H. Qed.

Lemma occurs_suffix kw u1 u2 : occurs kw (u1 ++ u2) = false -> occurs kw u2 = false.
Proof.
  induction u1 as [|a u1 IH]; [auto|]. rewrite append_cons, occurs_cons.
  intros H. apply orb_false_iff in H as [_ H]. now apply IH.
Qed.

(** A word in which the keyword does not occur, before a character the
    keyword does not have. *)
Lemma occurs_word kw w rest :
  occurs kw w = false ->
  starts_outside (fun c => Str.mem c kw) rest ->
  occurs kw rest = false ->
  occurs kw (w ++ rest) = false.
Proof.
  intros Hw Hrest Hfree. induction w as [|b w IH]; [exact Hfree|].
  rewrite occurs_cons in Hw. apply orb_false_iff in Hw as [Hb Hw].
  rewrite append_cons, occurs_cons, (IH Hw), orb_false_r.
  destruct (starts_with kw (String b (w ++ rest))) eqn:E; [|reflexivity].
  rewrite <- append_cons in E. apply starts_with_before in E; [congruence | exact Hrest].
Qed.

Lemma occurs_mark kw c rest :
  occurs kw "" = false -> Str.mem c kw = false -> occurs kw rest = false ->
  occurs kw (String c "" ++ rest) = false.
Proof.
  intros H0 Hc Hrest. rewrite append_cons, append_empty_l, occurs_cons, Hrest, orb_false_r.
  destruct kw as [|a kw]; [discriminate H0|]. cbn [starts_with].
  cbn [Str.mem] in Hc. rewrite Ascii.eqb_sym. now destruct (Ascii.eqb c a).
Qed.

Lemma occurs_spaces kw n rest :
  occurs kw "" = false -> Str.mem " " kw = false -> occurs kw rest = false ->
  occurs kw (Str.spaces n ++ rest) = false.
Proof.
  intros H0 Hc Hrest. induction n as [|n IH]; [exact Hrest|].
  now apply (occurs_mark kw " " (Str.spaces n ++ rest)).
Qed.

Lemma occurs_newlines kw n rest :
  occurs kw "" = false -> Str.mem "010" kw = false -> occurs kw rest = false ->
  occurs kw (newlines n ++ rest) = false.
Proof.
  intros H0 Hc Hrest. induction n as [|n IH]; [exact Hrest|].
  now apply (occurs_mark kw "010" (newlines n ++ rest)).
Qed.

Lemma occurs_outside kw s :
  occurs kw "" = false -> every (fun c => negb (Str.mem c kw)) s = true ->
  occurs kw s = false.
Proof.
  intros H0 H. induction s as [|a s IH]; [exact H0|].
  cbn [every] in H. apply andb_true_iff in H as [Ha Hs]. apply negb_true_iff in Ha.
  rewrite occurs_cons, (IH Hs), orb_false_r.
  destruct kw as [|b kw]; [discriminate H0|]. cbn [starts_with].
  cbn [Str.mem] in Ha. rewrite Ascii.eqb_sym. now destruct (Ascii.eqb a b).
Qed.

Lemma begins_occurs kw s : begins kw s -> occurs kw s = true.
Proof.
  intros (n & t & ->). induction n as [|n IH].
  - rewrite append_empty_l. apply occurs_starts, starts_with_append.
  - cbn [Str.spaces]. rewrite append_cons, occurs_cons, IH. apply orb_true_r.
Qed.

(** In a region that ends with a line feed and where the keyword does not
    occur, nothing begins with the keyword, whatever follows the region. *)
Lemma region_free kw u lines rest u1 u2 :
  occurs kw "" = false -> Str.mem "010" kw = false ->
  occurs kw u = false ->
  u ++ newlines (S lines) = u1 ++ u2 -> u2 <> "" ->
  ~ begins kw (u2 ++ rest).
Proof.
  intros H0 Hnl Hu E Hne Hb.
  assert (HU : occurs kw (u ++ newlines lines) = false).
  { apply occurs_word; auto.
    - destruct lines; [exact I | exact Hnl].
    - rewrite <- (append_empty_r (newlines lines)). now apply occurs_newlines. }
  rewrite newlines_snoc, <- append_assoc in E.
  assert (Hv : exists v, u2 = v ++ LF /\ occurs kw v = false).
  { apply append_eq_append in E as [(e & E1 & E2)|(e & E1 & E2)].
    - exists e. split; [exact E2|]. rewrite E1 in HU. now apply occurs_suffix in HU.
    - destruct e as [|a e].
      + exists "". rewrite append_empty_l in E2. split; [now rewrite append_empty_l | exact H0].
      + unfold LF in E2. rewrite append_cons in E2. injection E2 as _ E2.
        symmetry in E2. apply append_nil_inv in E2 as [_ E2]. contradiction. }
  destruct Hv as (v & -> & Hv). rewrite append_assoc in Hb.
  destruct Hb as (n & t & E'). clear E Hne HU Hu.
  revert v Hv E'. induction n as [|n IH]; intros v Hv E'.
  - rewrite append_empty_l in E'.
    assert (Hs : starts_with kw (v ++ LF ++ rest) = true)
      by (rewrite E'; apply starts_with_append).
    apply starts_with_before in Hs; [|exact Hnl].
    apply occurs_starts in Hs. congruence.
  - destruct v as [|a v]; [discriminate E'|].
    cbn [Str.spaces] in E'. rewrite !append_cons in E'. injection E' as _ E'.
    rewrite occurs_cons in Hv. apply orb_false_iff in Hv as [_ Hv]. now apply (IH v).
Qed.

(** *** The keywords in the text of a document *)

Lemma word_free kw s : keyword kw -> word s = true -> occurs kw s = false.
Proof. intros [->| ->] H; now apply word_spec in H. Qed.

Lemma spaces_free kw n :
  occurs kw "" = false -> Str.mem " " kw = false -> occurs kw (Str.spaces n) = false.
Proof.
  intros H0 H. rewrite <- (append_empty_r (Str.spaces n)). now apply occurs_spaces.
Qed.

Lemma newlines_free kw n :
  occurs kw "" = false -> Str.mem "010" kw = false -> occurs kw (newlines n) = false.
Proof.
  intros H0 H. rewrite <- (append_empty_r (newlines n)). now apply occurs_newlines.
Qed.

(** The side conditions hold by computation once the keyword is known. *)
Ltac free :=
  repeat first
    [ reflexivity
    | assumption
    | apply spaces_free; [reflexivity | reflexivity]
    | apply newlines_free; [reflexivity | reflexivity]
    | apply occurs_spaces; [reflexivity | reflexivity | ]
    | apply occurs_newlines; [reflexivity | reflexivity | ]
    | apply occurs_mark; [reflexivity | reflexivity | ]
    | apply occurs_word; [solve [reflexivity | assumption] | solve [outside] | ] ].

Lemma padded_free kw p :
  keyword kw -> word (token p) = true -> occurs kw (padded p) = false.
Proof.
  intros Hkw Hp. pose proof (word_free kw _ Hkw Hp) as Hfree.
  unfold padded. destruct Hkw as [->| ->]; free;
    (apply occurs_word; [exact Hfree | destruct (pad_after p); reflexivity | free]).
Qed.

Lemma pieces_free kw ok ps :
  keyword kw -> (forall s, ok s = true -> word s = true) ->
  list_of ok ps = true -> occurs kw (pieces ps) = false.
Proof.
  intros Hkw Hok Hps. apply list_of_spec in Hps as [_ Hps]. unfold pieces.
  induction Hps as [|p ps Hp Hps IH].
  - destruct Hkw as [->| ->]; reflexivity.
  - apply Hok in Hp. pose proof (padded_free kw p Hkw Hp) as Hpad.
    destruct ps as [|p' ps]; [exact Hpad|].
    cbn [map]. rewrite join_cons by discriminate. cbn [map] in IH.
    destruct Hkw as [->| ->]; free.
Qed.

Lemma row_free kw r : keyword kw -> wf_row r = true -> occurs kw (row_text r) = false.
Proof.
  intros Hkw Hwf. unfold wf_row in Hwf. apply andb_true_iff in Hwf as [Hkey Hvalues].
  apply (pieces_free kw word _ Hkw (fun s H => H)) in Hkey, Hvalues.
  unfold row_text. destruct Hkw as [->| ->]; free.
Qed.

Lemma rows_free kw rows :
  keyword kw -> forallb wf_row rows = true -> occurs kw (rows_text rows) = false.
Proof.
  intros Hkw. induction rows as [|r rows IH]; intros H.
  - destruct Hkw as [->| ->]; reflexivity.
  - cbn [forallb] in H. apply andb_true_iff in H as [Hr Hrows].
    specialize (IH Hrows). apply (row_free kw r Hkw) in Hr.
    destruct rows as [|r' rows]; [cbn [rows_text] | rewrite rows_text_cons];
      destruct Hkw as [->| ->]; free;
      (apply occurs_word; [exact Hr | destruct (r_lines r); reflexivity | free]).
Qed.

Lemma body_free kw b : keyword kw -> wf_body b = true -> occurs kw (body_text b) = false.
Proof.
  intros Hkw. destruct b as [indent gap values trail lines|bar parents lead rows];
    cbn [wf_body body_text]; intros H.
  - apply (pieces_free kw word _ Hkw (fun s H => H)) in H.
    destruct Hkw as [->| ->]; free.
  - apply andb_true_iff in H as [_ Hrows]. apply (rows_free kw rows Hkw) in Hrows.
    destruct Hkw as [->| ->]; free.
Qed.

Lemma header_free kw h :
  keyword kw -> word (h_name h) = true -> occurs kw (header_text h) = false.
Proof.
  intros Hkw Hname. apply (word_free kw _ Hkw) in Hname.
  unfold header_text. destruct Hkw as [->| ->]; free.
Qed.

Lemma digits_free kw s :
  keyword kw -> every (Str.between "0" "9") s = true -> occurs kw s = false.
Proof.
  intros Hkw H. apply occurs_outside; [destruct Hkw as [->| ->]; reflexivity|].
  revert H. apply every_impl. intros c Hc.
  destruct Hkw as [->| ->];
    destruct c as [[] [] [] [] [] [] [] []]; try reflexivity; discriminate Hc.
Qed.

Lemma variable_free v :
  wf_variable v = true -> occurs "probability" (variable_text v) = false.
Proof.
  intros Hwf. unfold wf_variable in Hwf.
  apply andb_true_iff in Hwf as [Hwf Hvalues]. apply andb_true_iff in Hwf as [Hname Hsize].
  assert (Hkw : keyword "probability") by now right.
  apply (word_free _ _ Hkw) in Hname.
  apply number_spec in Hsize as [_ Hsize]. apply (digits_free _ _ Hkw) in Hsize.
  apply (pieces_free _ label _ Hkw (fun s H => proj1 (label_spec s H))) in Hvalues.
  unfold variable_text. free.
Qed.

Lemma probability_free q :
  wf_probability q = true -> occurs "variable" (probability_text q) = false.
Proof.
  intros Hwf. unfold wf_probability in Hwf. apply andb_true_iff in Hwf as [Htarget Hbody].
  assert (Hkw : keyword "variable") by now left.
  apply (word_free _ _ Hkw) in Htarget.
  pose proof (body_free _ _ Hkw Hbody) as Hfree.
  unfold probability_text.
  destruct (q_body q) as [indent gap values trail lines|bar parents lead rows] eqn:E;
    cbn [given_text].
  - rewrite append_empty_l. free.
  - cbn [wf_body] in Hbody. apply andb_true_iff in Hbody as [Hbody _].
    apply andb_true_iff in Hbody as [Hparents _].
    apply (pieces_free _ word _ Hkw (fun s H => H)) in Hparents.
    rewrite !append_assoc. free.
Qed.

(** *** The declarations found in a document *)

Lemma var_re_fails s : ~ begins "variable" s -> Re.match_at var_re 0 s false = None.
Proof. apply keyword_fail, matches_str. Qed.

Lemma prob_re_fails s : ~ begins "probability" s -> Re.match_at prob_re 0 s false = None.
Proof. apply keyword_fail, matches_str. Qed.

Lemma parents_re_fails s : ~ begins "(" s -> Re.match_at parents_re 0 s false = None.
Proof. apply keyword_fail, matches_lit. Qed.

Lemma skip_region r kw u lines rest :
  (forall s, ~ begins kw s -> Re.match_at r 0 s false = None) ->
  Str.mem "010" kw = false ->
  occurs kw u = false ->
  found r (u ++ newlines (S lines) ++ rest) = found r rest.
Proof.
  intros Hr Hnl Hu. rewrite <- append_assoc. apply found_skip_region.
  intros u1 u2 E Hne. apply Hr.
  apply (region_free kw u lines rest u1 u2); auto.
  rewrite <- (append_empty_r u) in Hu. now apply occurs_suffix in Hu.
Qed.

Lemma found_free r kw u :
  (forall s, ~ begins kw s -> Re.match_at r 0 s false = None) ->
  occurs kw u = false ->
  found r u = [].
Proof.
  intros Hr Hu. rewrite <- (append_empty_r u). rewrite found_skip_region.
  - apply found_end, Hr. intros H. apply begins_occurs in H.
    rewrite <- (append_empty_r u) in Hu. apply occurs_suffix in Hu. congruence.
  - intros u1 u2 -> _. apply Hr. rewrite append_empty_r. intros H.
    apply begins_occurs in H. apply occurs_suffix in Hu. congruence.
Qed.

Lemma length_nonempty_append (D rest : string) :
  D <> "" -> String.length rest < String.length (D ++ rest).
Proof. destruct D; [congruence|]. intros _. rewrite length_append. simpl. lia. Qed.

Lemma found_variables items :
  forallb (fun i => wf_item (fst i)) items = true ->
  found var_re (items_text items) = map variable_groups (variables_of items).
Proof.
  induction items as [|[[v|q] lines] items IH]; intros H.
  - reflexivity.
  - cbn [forallb fst wf_item] in H. apply andb_true_iff in H as [Hv H].
    cbn [items_text item_text variables_of map].
    rewrite (found_hit var_re _ (newlines (S lines) ++ items_text items) (variable_groups v)).
    + f_equal. rewrite <- (IH H).
      apply (skip_region var_re "variable" "" lines); auto using var_re_fails.
    + intros k x Hk. now apply variable_match.
    + apply length_nonempty_append. unfold variable_text.
      apply append_nonempty_r. discriminate.
  - cbn [forallb fst wf_item] in H. apply andb_true_iff in H as [Hq H].
    cbn [items_text item_text variables_of].
    rewrite <- (IH H).
    apply (skip_region var_re "variable"); auto using var_re_fails, probability_free.
Qed.

Lemma found_probabilities items :
  forallb (fun i => wf_item (fst i)) items = true ->
  found prob_re (items_text items) = map probability_groups (probabilities_of items).
Proof.
  induction items as [|[[v|q] lines] items IH]; intros H.
  - reflexivity.
  - cbn [forallb fst wf_item] in H. apply andb_true_iff in H as [Hv H].
    cbn [items_text item_text probabilities_of].
    rewrite <- (IH H).
    apply (skip_region prob_re "probability"); auto using prob_re_fails, variable_free.
  - cbn [forallb fst wf_item] in H. apply andb_true_iff in H as [Hq H].
    cbn [items_text item_text probabilities_of map].
    rewrite (found_hit prob_re _ (newlines (S lines) ++ items_text items)
               (probability_groups q)).
    + f_equal. rewrite <- (IH H).
      apply (skip_region prob_re "probability" "" lines); auto using prob_re_fails.
    + intros k x Hk. now apply probability_match.
    + apply length_nonempty_append. unfold probability_text.
      apply append_nonempty_r. discriminate.
Qed.

Lemma found_in_document r kw d :
  (forall s, ~ begins kw s -> Re.match_at r 0 s false = None) ->
  keyword kw -> wf d = true ->
  found r (render d) = found r (items_text (d_items d)).
Proof.
  intros Hr Hkw Hwf. unfold wf in Hwf. apply andb_true_iff in Hwf as [Hname _].
  unfold render. apply (skip_region r kw); auto.
  - destruct Hkw as [->| ->]; reflexivity.
  - now apply header_free.
Qed.

Lemma header_found d :
  wf d = true ->
  exists m, Re.re_match network_re (render d) = Some m /\
            Re.group_text m 1 = h_name (d_header d).
Proof.
  intros Hwf. unfold wf in Hwf. apply andb_true_iff in Hwf as [Hname _].
  unfold Re.re_match, Re.match_at, render.
  rewrite (header_match (d_header d) _ _ (newlines (S (d_after_header d)) ++ items_text (d_items d),
                                          [(1, h_name (d_header d))]) Hname)
    by reflexivity.
  eexists. split; reflexivity.
Qed.

(** *** The rows found in a body *)

Lemma row_text_head r :
  exists D, D <> "" /\ forall rest, row_text r ++ rest = D ++ Str.spaces (r_trail r) ++ rest.
Proof.
  exists (Str.spaces (r_indent r) ++ "(" ++ pieces (r_key r) ++ ")"
          ++ Str.spaces (S (r_gap r)) ++ pieces (r_values r) ++ ";").
  split; [apply append_nonempty_r; discriminate|].
  intros rest. unfold row_text. now rewrite !append_assoc.
Qed.

Lemma row_hit r rest :
  wf_row r = true ->
  found parents_re (row_text r ++ rest)
  = row_groups r :: found parents_re (Str.spaces (r_trail r) ++ rest).
Proof.
  intros Hwf. apply found_hit.
  - intros k x Hk. now apply row_match.
  - destruct (row_text_head r) as (D & HD & E). rewrite E.
    now apply length_nonempty_append.
Qed.

Lemma found_rows rows :
  forallb wf_row rows = true ->
  found parents_re (rows_text rows) = map row_groups rows.
Proof.
  induction rows as [|r rows IH]; intros H; [reflexivity|].
  cbn [forallb] in H. apply andb_true_iff in H as [Hr Hrows].
  destruct rows as [|r' rows].
  - cbn [rows_text map]. rewrite row_hit by exact Hr. f_equal.
    apply (found_free parents_re "("); auto using parents_re_fails. free.
  - rewrite rows_text_cons, row_hit by exact Hr.
    change (map row_groups (r :: r' :: rows))
      with (row_groups r :: map row_groups (r' :: rows)). f_equal.
    rewrite <- (IH Hrows).
    apply (skip_region parents_re "("); auto using parents_re_fails. free.
Qed.

Lemma found_body bar parents lead rows :
  forallb wf_row rows = true ->
  found parents_re (body_text (Rows bar parents lead rows)) = map row_groups rows.
Proof.
  intros H. cbn [body_text]. rewrite <- (found_rows rows H).
  destruct lead as [|lead]; [reflexivity|].
  apply (skip_region parents_re "(" ""); auto using parents_re_fails.
Qed.

(** ** The builder on a document *)

Lemma lstrip_plain s : every plain s = true -> Str.lstrip s = s.
Proof.
  destruct s as [|a s]; [reflexivity|]. cbn [every Str.lstrip]. intros H.
  apply andb_true_iff in H as [Ha _]. apply plain_spec in Ha as [-> _]. reflexivity.
Qed.

Lemma rstrip_plain s : every plain s = true -> Str.rstrip s = s.
Proof.
  induction s as [|a s IH]; [reflexivity|]. cbn [every Str.rstrip]. intros H.
  apply andb_true_iff in H as [Ha Hs]. rewrite (IH Hs).
  apply plain_spec in Ha as [-> _]. now destruct s.
Qed.

Lemma strip_word s : word s = true -> Str.strip s = s.
Proof.
  intros H. apply word_spec in H as (_ & H & _). unfold Str.strip.
  now rewrite lstrip_plain, rstrip_plain.
Qed.

Lemma plain_no_comma s : every plain s = true -> Str.mem "," s = false.
Proof.
  induction s as [|a s IH]; [reflexivity|]. cbn [every Str.mem]. intros H.
  apply andb_true_iff in H as [Ha Hs]. apply plain_spec in Ha as (_ & _ & _ & _ & Ha).
  rewrite Ascii.eqb_sym, Ha. now apply IH.
Qed.

Lemma split_pieces ps :
  list_of word ps = true -> map Str.strip (Str.split "," (pieces ps)) = tokens ps.
Proof.
  intros H. apply list_of_spec in H as [Hne H]. unfold pieces, tokens.
  rewrite split_of_join.
  - rewrite map_map. apply map_ext_in. intros p Hp.
    rewrite List.Forall_forall in H. specialize (H p Hp). cbn beta in H.
    unfold padded. rewrite strip_blanks by apply all_space_spaces. now apply strip_word.
  - destruct ps; [congruence | discriminate].
  - apply Forall_map. eapply Forall_impl; [exact H|]. intros p Hp. cbn beta in *.
    apply word_spec in Hp as (_ & Hp & _). unfold padded.
    rewrite !mem_append, (plain_no_comma _ Hp),
      !(all_space_no_comma _ (all_space_spaces _)). reflexivity.
Qed.

Lemma pieces_from_pieces p ps :
  pieces_from (p :: ps) = pieces (Piece 0 (token p) (pad_after p) :: ps).
Proof. reflexivity. Qed.

Lemma split_pieces_from ps :
  list_of word ps = true -> map Str.strip (Str.split "," (pieces_from ps)) = tokens ps.
Proof.
  destruct ps as [|p ps]; [discriminate|]. intros H.
  rewrite pieces_from_pieces, split_pieces; [reflexivity|exact H].
Qed.

Lemma collect_map {A B C : Type} (f : B -> result C) (g : A -> B) l :
  collect (fun a => f (g a)) l = collect f (map g l).
Proof. induction l as [|a l IH]; [reflexivity|]. cbn [collect map]. now rewrite IH. Qed.

Lemma floats_pieces_from ps :
  list_of word ps = true ->
  BayesianNetwork.floats (pieces_from ps) = collect float (tokens ps).
Proof.
  intros H. unfold BayesianNetwork.floats.
  now rewrite (collect_map float Str.strip), split_pieces_from.
Qed.

Lemma findall3_found r s :
  Re.findall3 r s
  = map (fun c => (default EmptyString (Re.capture c 1),
                   default EmptyString (Re.capture c 2),
                   default EmptyString (Re.capture c 3))) (found r s).
Proof. apply findall3_groups. Qed.

Lemma findall2_found r s :
  Re.findall2 r s
  = map (fun c => (default EmptyString (Re.capture c 1),
                   default EmptyString (Re.capture c 2))) (found r s).
Proof. unfold Re.findall2, found, Re.group_text. now rewrite map_map. Qed.

Lemma for_each_ext {S A B : Type} (f : S -> A -> result S) (g : S -> B -> result S) l l' :
  Forall2 (fun a b => forall s, f s a = g s b) l l' ->
  forall s, for_each f l s = for_each g l' s.
Proof.
  induction 1 as [|a b l l' Hab _ IH]; intros s; [reflexivity|].
  cbn [for_each]. rewrite Hab. destruct (g s b); [apply IH | reflexivity].
Qed.

Lemma findall3_variables d :
  wf d = true ->
  Re.findall3 var_re (render d) = map variable_capture (variables_of (d_items d)).
Proof.
  intros Hwf. rewrite findall3_found.
  rewrite (found_in_document var_re "variable") by (auto using var_re_fails; now left).
  unfold wf in Hwf. apply andb_true_iff in Hwf as [_ Hitems].
  rewrite found_variables by exact Hitems. rewrite map_map. reflexivity.
Qed.

Lemma findall3_probabilities d :
  wf d = true ->
  Re.findall3 prob_re (render d) = map probability_capture (probabilities_of (d_items d)).
Proof.
  intros Hwf. rewrite findall3_found.
  rewrite (found_in_document prob_re "probability") by (auto using prob_re_fails; now right).
  unfold wf in Hwf. apply andb_true_iff in Hwf as [_ Hitems].
  rewrite found_probabilities by exact Hitems. rewrite map_map.
  apply map_ext. intros q. unfold probability_groups, probability_capture.
  now destruct (q_body q).
Qed.

Lemma findall2_rows bar parents lead rows :
  forallb wf_row rows = true ->
  Re.findall2 parents_re (body_text (Rows bar parents lead rows)) = map row_capture rows.
Proof.
  intros H. rewrite findall2_found, found_body by exact H. now rewrite map_map.
Qed.

Lemma table_found indent gap values trail lines :
  list_of word values = true ->
  group (Re.re_match table_re (body_text (Table indent gap values trail lines))) 1
  = Ok (pieces_from values).
Proof.
  intros H. unfold Re.re_match, Re.match_at.
  rewrite (table_match indent gap values trail lines _
             (Str.spaces trail ++ newlines lines, [(1, pieces_from values)]) H)
    by reflexivity.
  reflexivity.
Qed.

(** A round of the loops gives the same for two layouts of a declaration. *)
Lemma parse_row_layout var self r1 r2 :
  wf_row r1 = true -> wf_row r2 = true -> row_content r1 = row_content r2 ->
  BayesianNetwork.parse_row var self (row_capture r1)
  = BayesianNetwork.parse_row var self (row_capture r2).
Proof.
  intros H1 H2 E. unfold wf_row in H1, H2.
  apply andb_true_iff in H1 as [Hk1 Hv1]. apply andb_true_iff in H2 as [Hk2 Hv2].
  unfold row_content in E. injection E as Ek Ev.
  unfold BayesianNetwork.parse_row, row_capture. cbn [fst snd].
  now rewrite !split_pieces, !floats_pieces_from, Ek, Ev.
Qed.

Lemma rows_layout var rows1 rows2 :
  forallb wf_row rows1 = true -> forallb wf_row rows2 = true ->
  map row_content rows1 = map row_content rows2 ->
  Forall2 (fun a b => forall s, BayesianNetwork.parse_row var s a
                                = BayesianNetwork.parse_row var s b)
          (map row_capture rows1) (map row_capture rows2).
Proof.
  revert rows2. induction rows1 as [|r1 rows1 IH]; intros [|r2 rows2] H1 H2 E;
    try discriminate E; [constructor|].
  cbn [forallb] in H1, H2. apply andb_true_iff in H1 as [Hr1 H1].
  apply andb_true_iff in H2 as [Hr2 H2]. cbn [map] in *.
  assert (Er : row_content r1 = row_content r2) by congruence.
  assert (E' : map row_content rows1 = map row_content rows2) by congruence.
  constructor; [|now apply IH]. intros s. now apply parse_row_layout.
Qed.

Lemma parse_probability_layout self q1 q2 :
  wf_probability q1 = true -> wf_probability q2 = true ->
  probability_content q1 = probability_content q2 ->
  BayesianNetwork.parse_probability self (probability_capture q1)
  = BayesianNetwork.parse_probability self (probability_capture q2).
Proof.
  intros H1 H2 E. unfold wf_probability in H1, H2.
  apply andb_true_iff in H1 as [_ H1]. apply andb_true_iff in H2 as [_ H2].
  unfold probability_content in E. injection E as Et Eb.
  unfold probability_capture, BayesianNetwork.parse_probability. rewrite Et.
  destruct (q_body q1) as [i1 g1 values1 t1 l1|bar1 parents1 lead1 rows1];
    destruct (q_body q2) as [i2 g2 values2 t2 l2|bar2 parents2 lead2 rows2];
    try discriminate Eb; cbn [wf_body body_content] in *.
  - injection Eb as Ev. cbn [String.eqb negb].
    rewrite !table_found by assumption. cbn [mbind result_bind].
    now rewrite !floats_pieces_from, Ev.
  - injection Eb as Ep Er.
    apply andb_true_iff in H1 as [H1 Hrows1]. apply andb_true_iff in H1 as [Hp1 _].
    apply andb_true_iff in H2 as [H2 Hrows2]. apply andb_true_iff in H2 as [Hp2 _].
    destruct (word_list_facts parents1 "" "" Hp1) as (_ & _ & _ & Hne1 & _); try reflexivity.
    destruct (word_list_facts parents2 "" "" Hp2) as (_ & _ & _ & Hne2 & _); try reflexivity.
    apply String.eqb_neq in Hne1, Hne2. rewrite Hne1, Hne2. cbn [negb].
    rewrite !split_pieces_from, !findall2_rows, Ep by assumption.
    destruct (BayesianNetwork.setattr _ _ _ _) as [self'|e]; [|reflexivity].
    cbn [mbind result_bind].
    now apply for_each_ext, rows_layout.
Qed.

Lemma items_layout items1 items2 :
  forallb (fun i => wf_item (fst i)) items1 = true ->
  forallb (fun i => wf_item (fst i)) items2 = true ->
  map (fun i => item_content (fst i)) items1 = map (fun i => item_content (fst i)) items2 ->
  map variable_content (variables_of items1) = map variable_content (variables_of items2) /\
  Forall2 (fun q1 q2 => forall s,
             BayesianNetwork.parse_probability s (probability_capture q1)
             = BayesianNetwork.parse_probability s (probability_capture q2))
          (probabilities_of items1) (probabilities_of items2).
Proof.
  revert items2.
  induction items1 as [|[i1 n1] items1 IH]; intros [|[i2 n2] items2] H1 H2 E;
    try discriminate E; [split; [reflexivity | constructor]|].
  cbn [forallb fst] in H1, H2. apply andb_true_iff in H1 as [Hi1 H1].
  apply andb_true_iff in H2 as [Hi2 H2]. cbn [map fst] in E.
  assert (Ei : item_content i1 = item_content i2) by congruence.
  assert (E' : map (fun i => item_content (fst i)) items1
               = map (fun i => item_content (fst i)) items2) by congruence.
  destruct (IH items2 H1 H2 E') as [IHv IHq].
  destruct i1 as [v1|q1], i2 as [v2|q2]; try discriminate Ei;
    cbn [item_content wf_item variables_of probabilities_of map] in *.
  - assert (Ev : variable_content v1 = variable_content v2) by congruence.
    split; [now rewrite Ev, IHv | exact IHq].
  - assert (Eq : probability_content q1 = probability_content q2) by congruence.
    split; [exact IHv|].
    constructor; [|exact IHq]. intros s. now apply parse_probability_layout.
Qed.

(** What the construction of a document comes to. *)
Lemma init_render d :
  wf d = true ->
  BayesianNetwork.init (render d)
  = for_each BayesianNetwork.parse_probability
      (map probability_capture (probabilities_of (d_items d)))
      (BayesianNetwork.mk (h_name (d_header d))
         (map (fun c => Var.init (fst (fst c)) (snd c))
              (map variable_content (variables_of (d_items d))))).
Proof.
  intros Hwf. unfold BayesianNetwork.init, BayesianNetwork.parse_file.
  rewrite parse_network_spec.
  destruct (header_found d Hwf) as (m & -> & Hm). cbn [mbind result_bind].
  rewrite parse_variables_spec. unfold BayesianNetwork.parse_probabilities.
  rewrite findall3_probabilities, findall3_variables by exact Hwf.
  f_equal. unfold BayesianNetwork.set_name.
  cbn [BayesianNetwork.name BayesianNetwork.variables app]. rewrite Hm. f_equal.
  rewrite !map_map. apply map_ext_in. intros v Hv.
  unfold variable_capture, variable_content. cbn [fst snd]. f_equal.
  assert (Hwfv : wf_variable v = true).
  { unfold wf in Hwf. apply andb_true_iff in Hwf as [_ Hitems].
    clear -Hv Hitems. induction (d_items d) as [|[[v'|q] n] items IH];
      cbn [variables_of forallb fst wf_item] in *; [contradiction| |];
      apply andb_true_iff in Hitems as [Hi Hitems]; [|now apply IH].
    destruct Hv as [->|Hv]; [exact Hi | now apply IH]. }
  unfold wf_variable in Hwfv. apply andb_true_iff in Hwfv as [_ Hvalues].
  destruct (v_values v) as [|p ps] eqn:E; [discriminate|].
  rewrite pieces_from_pieces. rewrite split_pieces; [reflexivity|].
  apply list_of_spec in Hvalues as [_ Hvalues].
  cbn [list_of forallb token]. rewrite List.Forall_forall in Hvalues.
  apply andb_true_iff. split.
  - apply label_spec. apply Hvalues. now left.
  - apply forallb_forall. intros x Hx. apply label_spec. apply Hvalues. now right.
Qed.

(** *** Documents that are constructed *)

Lemma for_each_ok {S A : Type} (I : S -> Prop) (body : S -> A -> result S) :
  forall l st,
    (forall s x, In x l -> I s -> exists s', body s x = Ok s' /\ I s') ->
    I st -> exists st', for_each body l st = Ok st'.
Proof.
  induction l as [|x l IH]; intros st Hbody Hst; [now exists st|].
  destruct (Hbody st x (or_introl eq_refl) Hst) as (s' & E & Hs').
  cbn [for_each]. rewrite E. cbn [mbind result_bind].
  apply IH; [|exact Hs']. intros s y Hy. apply Hbody. now right.
Qed.

Lemma get_variable_ref_in_some vars _name :
  In _name (map Var.name vars) ->
  exists i, BayesianNetwork.get_variable_ref_in vars _name = Some i.
Proof.
  induction vars as [|v vars IH]; [intros []|]. intros H.
  cbn [BayesianNetwork.get_variable_ref_in].
  destruct (String.eqb_spec (Var.name v) _name) as [_|Hne]; [eauto|].
  destruct H as [H|H]; [contradiction|]. destruct (IH H) as [i ->]. now exists (S i).
Qed.

Lemma numbers_ok ps : numbers ps = true -> exists ys, collect float (tokens ps) = Ok ys.
Proof.
  unfold numbers, tokens. induction ps as [|p ps IH]; [now exists []|].
  cbn [forallb map collect]. intros H. apply andb_true_iff in H as [Hp Hps].
  destruct (float (token p)) as [y|]; [|discriminate].
  destruct (IH Hps) as [ys ->]. now exists (y :: ys).
Qed.

Lemma parse_probability_ok self q :
  wf_probability q = true ->
  In (q_target q) (map Var.name (BayesianNetwork.variables self)) ->
  valid_body (q_body q) = true ->
  exists self', BayesianNetwork.parse_probability self (probability_capture q) = Ok self'.
Proof.
  intros Hwf Htarget Hvalid. unfold wf_probability in Hwf.
  apply andb_true_iff in Hwf as [_ Hwf].
  unfold probability_capture, BayesianNetwork.parse_probability.
  unfold BayesianNetwork.get_variable_ref.
  destruct (get_variable_ref_in_some _ _ Htarget) as [i ->].
  destruct (q_body q) as [indent gap values trail lines|bar parents lead rows];
    cbn [wf_body valid_body] in *.
  - cbn [String.eqb negb]. rewrite table_found by assumption. cbn [mbind result_bind].
    rewrite floats_pieces_from by assumption.
    destruct (numbers_ok values Hvalid) as [tb ->]. cbn [mbind result_bind]. eauto.
  - apply andb_true_iff in Hwf as [Hwf Hrows]. apply andb_true_iff in Hwf as [Hparents _].
    destruct (word_list_facts parents "" "" Hparents) as (_ & _ & _ & Hne & _);
      try reflexivity.
    apply String.eqb_neq in Hne. rewrite Hne. cbn [negb].
    rewrite findall2_rows by assumption.
    cbn [BayesianNetwork.setattr mbind result_bind].
    apply (for_each_ok (fun _ => True)); [|exact I].
    intros s x Hx _. apply in_map_iff in Hx as (r & <- & Hr).
    rewrite forallb_forall in Hrows, Hvalid.
    specialize (Hrows r Hr). specialize (Hvalid r Hr).
    unfold wf_row in Hrows. apply andb_true_iff in Hrows as [_ Hvalues].
    unfold BayesianNetwork.parse_row, row_capture. cbn [fst snd].
    rewrite floats_pieces_from by assumption.
    destruct (numbers_ok _ Hvalid) as [prob ->]. cbn [mbind result_bind]. eauto.
Qed.

Lemma probabilities_wf items q :
  forallb (fun i => wf_item (fst i)) items = true ->
  In q (probabilities_of items) -> wf_probability q = true.
Proof.
  induction items as [|[[v|q'] n] items IH];
    cbn [probabilities_of forallb fst wf_item]; intros H Hq; [contradiction| |];
    apply andb_true_iff in H as [Hi H]; [now apply IH|].
  destruct Hq as [->|Hq]; [exact Hi | now apply IH].
Qed.

Lemma init_valid d :
  wf d = true -> valid d = true ->
  exists net, BayesianNetwork.init (render d) = Ok net.
Proof.
  intros Hwf Hvalid. rewrite init_render by exact Hwf.
  unfold wf in Hwf. apply andb_true_iff in Hwf as [_ Hitems].
  apply (for_each_ok
           (fun s => map Var.name (BayesianNetwork.variables s)
                     = map v_name (variables_of (d_items d)))).
  - intros s x Hx Hs. apply in_map_iff in Hx as (q & <- & Hq).
    unfold valid in Hvalid. rewrite forallb_forall in Hvalid.
    specialize (Hvalid q Hq). apply andb_true_iff in Hvalid as [Htarget Hbody].
    apply existsb_exists in Htarget as (name & Hname & E).
    apply String.eqb_eq in E. subst name.
    destruct (parse_probability_ok s q) as [s' Hs']; auto.
    + now apply (probabilities_wf (d_items d)).
    + now rewrite Hs.
    + exists s'. split; [exact Hs'|].
      apply parse_probability_shape in Hs' as [_ Hshape].
      now rewrite (shape_names _ _ Hshape).
  - cbn [BayesianNetwork.variables]. rewrite !map_map. reflexivity.
Qed.

(** C9, as amended. Two documents that differ in their layout only are
    constructed alike: the texts give the same network, or raise the same
    exception; and when the targets of the probability declarations are
    declared and the numbers are float literals, both are parsed, to the
    same network.  The layout is the number of spaces before each keyword,
    at each place where a pattern has [ +] or [ *] between two tokens,
    around each piece of a comma-separated list and after a row or a table
    statement, and the number of line feeds where [VAR_RE] and [NETWORK_RE]
    have [\n+], between two rows, before the first row, before the closing
    brace of a probability declaration and between two declarations.  And
    spaces before any text at all change nothing. *)
Theorem layout_insensitive (d1 d2 : Layout.document) (n : nat) (text : string) :
  Layout.wf d1 = true -> Layout.wf d2 = true ->
  Layout.content d1 = Layout.content d2 ->
  BayesianNetwork.init (Layout.render d1) = BayesianNetwork.init (Layout.render d2) /\
  (Layout.valid d1 = true ->
   exists net, BayesianNetwork.init (Layout.render d1) = Ok net /\
               BayesianNetwork.init (Layout.render d2) = Ok net) /\
  BayesianNetwork.init (Str.spaces n ++ text) = BayesianNetwork.init text.
Proof.
  intros H1 H2 E.
  assert (Hsame : BayesianNetwork.init (render d1) = BayesianNetwork.init (render d2)).
  { rewrite !init_render by assumption.
    unfold wf in H1, H2. apply andb_true_iff in H1 as [_ H1].
    apply andb_true_iff in H2 as [_ H2].
    unfold content in E.
    assert (Ename : h_name (d_header d1) = h_name (d_header d2)) by congruence.
    assert (Eitems : map (fun i => item_content (fst i)) (d_items d1)
                     = map (fun i => item_content (fst i)) (d_items d2)) by congruence.
    destruct (items_layout _ _ H1 H2 Eitems) as [Ev Eq].
    rewrite Ename, Ev. apply for_each_ext.
    clear -Eq. induction Eq; constructor; auto. }
  split; [exact Hsame|]. split; [|apply leading_spaces_insensitive].
  intros Hvalid. destruct (init_valid d1 H1 Hvalid) as [net Hnet].
  exists net. split; [exact Hnet | now rewrite <- Hsame].
Qed.

Lemma layout_insensitive_witness :
  Layout.wf earthquake_document = true /\
  Layout.wf earthquake_spread = true /\
  Layout.content earthquake_document = Layout.content earthquake_spread /\
  Layout.valid earthquake_document = true /\
  BayesianNetwork.init (Layout.render earthquake_document)
  = BayesianNetwork.init (Layout.render earthquake_spread) /\
  (exists net, BayesianNetwork.init (Layout.render earthquake_document) = Ok net /\
               BayesianNetwork.init (Layout.render earthquake_spread) = Ok net) /\
  BayesianNetwork.init (Str.spaces 3 ++ earthquake) = BayesianNetwork.init earthquake.
Proof.
  assert (H1 : Layout.wf earthquake_document = true) by (vm_compute; reflexivity).
  assert (H2 : Layout.wf earthquake_spread = true) by (vm_compute; reflexivity).
  assert (H3 : Layout.content earthquake_document = Layout.content earthquake_spread)
    by (vm_compute; reflexivity).
  assert (H4 : Layout.valid earthquake_document = true) by (vm_compute; reflexivity).
  pose proof (layout_insensitive earthquake_document earthquake_spread 3 earthquake H1 H2 H3)
    as (Hsame & Hvalid & Hspaces).
  exact (conj H1 (conj H2 (conj H3 (conj H4 (conj Hsame (conj (Hvalid H4) Hspaces)))))).
Defined.

Example earthquake_document_text : Layout.render earthquake_document = earthquake.
Proof. vm_compute. reflexivity. Qed.

Example spread_variable_text :
  Layout.item_text (spread_variable "Burglary")
  = " variable   Burglary  {" ++ LF ++ LF
    ++ "type    discrete [   2  ]{  True ,False};" ++ LF ++ LF ++ LF ++ "    }".
Proof. vm_compute. reflexivity. Qed.

Example spread_table_text :
  Layout.item_text (spread_table "Burglary" "0.01" "0.99")
  = "   probability  (Burglary   ){" ++ LF
    ++ "table    0.01  ,0.99 ;   " ++ LF ++ LF ++ LF ++ "  }".
Proof. vm_compute. reflexivity. Qed.

Example earthquake_spread_parses :
  BayesianNetwork.init (Layout.render earthquake_spread) = Ok earthquake_net.
Proof. vm_compute. reflexivity. Qed.
